(** * TennisRacquetTension: pitch detection, string physics and lock-in

    A shallow embedding of the measurement core of the application:

    - [AudioAnalysis]   src/lib/audioAnalysis.ts   (gauge normalisation, FFT,
                        peak detection, string physics);
    - [StringDatabase]  src/lib/stringDatabase.ts  (reference table, density
                        lookup);
    - [Analyzer]        src/hooks/useAudioAnalyzer.ts (window selection and
                        the consensus / lock-in state machine);
    - [App]             src/App.tsx (computeTension).

    Numbers.  A JavaScript number is modelled by an exact rational [Q]:
    addition, subtraction, multiplication, division, comparison, floor,
    ceiling and rounding are the exact operations, so binary64 rounding
    error, NaN and the infinities are outside the model (a division by zero
    evaluates to 0 here, where JavaScript yields NaN or an infinity; the
    places where that matters are pointed out).  The functions of the
    runtime that have no rational counterpart (square root, cosine, sine,
    pi) are an interface, the class [Math]; the generic theorems hold for
    every implementation of it and [RationalMath] is an executable one.
    Integers used as array indices and loop counters are [Z]. *)

From Stdlib Require Import QArith Qround Qabs ZArith Lia Lqa List Bool.
From Stdlib Require Import String Ascii.
From stdpp Require Import gmap strings list.

Open Scope Q_scope.

(** ** The JavaScript runtime *)

Module Js.

(** [Math.floor], [Math.ceil], [Math.round] (halves go up), [Math.abs]. *)
Definition floor (x : Q) : Z := Qfloor x.
Definition ceil (x : Q) : Z := Qceiling x.
Definition round (x : Q) : Z := Qfloor (x + 0.5).
Definition abs (x : Q) : Q := Qabs x.

(** [x < y], [x <= y], [x === y] and [x !== y] on numbers. *)
Definition ltb (x y : Q) : bool := (Qnum x * QDen y <? Qnum y * QDen x)%Z.
Definition leb (x y : Q) : bool := Qle_bool x y.
Definition eqb (x y : Q) : bool := Qeq_bool x y.
Definition neqb (x y : Q) : bool := negb (Qeq_bool x y).

(** A number in a condition: zero is false ([NaN] is not in the model). *)
Definition truthy (x : Q) : bool := neqb x 0.

(** [a || d] where [a] is a number that may be missing ([undefined] from
    a lookup of an absent key, NaN from [parseFloat]): missing is falsy,
    and so is 0. *)
Definition or_default (a : option Q) (d : Q) : Q :=
  match a with
  | Some x => if truthy x then x else d
  | None => d
  end.

(** [a[i]] and [a[i] = v] on an array of numbers, for an index in range. *)
Definition get (a : list Q) (i : Z) : Q := nth (Z.to_nat i) a 0.
Definition set (a : list Q) (i : Z) (v : Q) : list Q := <[Z.to_nat i := v]> a.

(** [a.length] *)
Definition len {A} (a : list A) : Z := Z.of_nat (length a).

(** [a.subarray(b, e)] / [a.slice(b, e)] for [0 <= b <= e]: the end is
    clamped to the length of the array. *)
Definition subarray (a : list Q) (b e : Z) : list Q :=
  take (Z.to_nat (e - b)) (drop (Z.to_nat b) a).

(** *** Strings *)

(** [\d], and the ASCII part of [\s] and of the white space that
    [parseFloat] skips. *)
Definition is_digit (c : ascii) : bool :=
  let n := nat_of_ascii c in (48 <=? n)%nat && (n <=? 57)%nat.

Definition is_space (c : ascii) : bool :=
  let n := nat_of_ascii c in
  ((9 <=? n)%nat && (n <=? 13)%nat) || (n =? 32)%nat.

(** The longest prefix whose characters satisfy [p], and the rest. *)
Fixpoint span (p : ascii -> bool) (s : list ascii) : list ascii * list ascii :=
  match s with
  | c :: s' =>
      if p c then let '(l, r) := span p s' in (c :: l, r) else ([], s)
  | [] => ([], [])
  end.

(** [parseInt] of a string of decimal digits *)
Definition parseInt (digits : list ascii) : Z :=
  fold_left (fun acc c => (acc * 10 + (Z.of_nat (nat_of_ascii c) - 48))%Z)
    digits 0%Z.

Definition sign_prefix (s : list ascii) : bool * list ascii :=
  match s with
  | "-"%char :: r => (true, r)
  | "+"%char :: r => (false, r)
  | _ => (false, s)
  end.

(** [parseFloat]: the longest decimal literal at the start of the string
    (sign, digits, fraction, exponent), [None] for NaN.  The literal
    [Infinity] has no rational value and is not recognised. *)
Definition parseFloat (s : string) : option Q :=
  let '(neg, s1) := sign_prefix (snd (span is_space (list_ascii_of_string s))) in
  let '(ip, r1) := span is_digit s1 in
  let '(fp, r2) :=
    match r1 with
    | "."%char :: r => span is_digit r
    | _ => ([], r1)
    end in
  match ip ++ fp with
  | [] => None
  | digits =>
      let exponent :=
        match r2 with
        | c :: r =>
            if (Ascii.eqb c "e" || Ascii.eqb c "E")%char then
              let '(eneg, r') := sign_prefix r in
              let e := parseInt (fst (span is_digit r')) in
              if eneg then (- e)%Z else e
            else 0%Z
        | [] => 0%Z
        end in
      let m := inject_Z (parseInt digits) * 10 ^ (exponent - Z.of_nat (length fp)) in
      Some (if neg then - m else m)
  end.

(** [s.split('|')] *)
Fixpoint split_bar (s : list ascii) : list (list ascii) :=
  match s with
  | [] => [[]]
  | c :: s' =>
      if Ascii.eqb c "|"%char then [] :: split_bar s'
      else match split_bar s' with
           | p :: ps => (c :: p) :: ps
           | [] => [[c]]
           end
  end.

End Js.

Infix "<?" := Js.ltb (at level 70, no associativity) : Q_scope.
Infix "<=?" := Js.leb (at level 70, no associativity) : Q_scope.
Infix "=?" := Js.eqb (at level 70, no associativity) : Q_scope.
Infix "!=?" := Js.neqb (at level 70, no associativity) : Q_scope.

(** The part of the [Math] object that is not rational. *)
Class Math := {
  Math_sqrt : Q -> Q;
  Math_cos : Q -> Q;
  Math_sin : Q -> Q;
  Math_PI : Q
}.

(** ** src/lib/audioAnalysis.ts *)

Module AudioAnalysis.

(** Material densities in kg/m^3 *)
Definition MATERIAL_DENSITIES : gmap string Q :=
  {[ "Polyester"%string := 1380;
     "Nylon"%string := 1140;
     "NaturalGut"%string := 1320;
     "Multifilament"%string := 1150;
     "Kevlar"%string := 1440 ]}.

(** Gauge number -> diameter in mm *)
Definition GAUGE_TO_MM : gmap Z Q :=
  {[ 15%Z := 1.45; 16%Z := 1.30; 17%Z := 1.20; 18%Z := 1.10; 19%Z := 1.00 ]}.

(** [if (mm)] on a table lookup: the entry exists and is not zero. *)
Definition defined_nonzero (a : option Q) : option Q :=
  match a with
  | Some x => if Js.truthy x then Some x else None
  | None => None
  end.

Definition normalizeGaugeMm (value : Q) : Q :=
  if value <? 3 then value
  else
    let floored := Js.floor value in
    match defined_nonzero (GAUGE_TO_MM !! floored) with
    | Some mm =>
        if value !=? inject_Z floored then
          match defined_nonzero (GAUGE_TO_MM !! (floored + 1)%Z) with
          | Some nextMm => mm + (nextMm - mm) * (value - inject_Z floored)
          | None => mm
          end
        else mm
    | None => 1.25
    end.

(** *** Cooley-Tukey radix-2 FFT, in place on [re] and [im] *)

(** [while (j & bit) { j ^= bit; bit >>= 1; }]; [bit] halves at every
    turn, so the loop ends within [fuel] turns when [bit < 2 ^ fuel]. *)
Fixpoint bitrev_carry (fuel : nat) (j bit : Z) : Z * Z :=
  match fuel with
  | O => (j, bit)
  | S fuel' =>
      if (Z.land j bit =? 0)%Z then (j, bit)
      else bitrev_carry fuel' (Z.lxor j bit) (Z.shiftr bit 1)
  end.

Definition swap (a : list Q) (i j : Z) : list Q :=
  let tmp := Js.get a i in
  Js.set (Js.set a i (Js.get a j)) j tmp.

(** [for (let i = 1, j = 0; i < n; i++) { ... }]; [count] is the number
    of turns left. *)
Fixpoint bitrev_loop (count : nat) (n i j : Z) (re im : list Q)
  : list Q * list Q :=
  match count with
  | O => (re, im)
  | S count' =>
      let bit := Z.shiftr n 1 in
      let '(j1, bit1) := bitrev_carry (S (Z.to_nat (Z.log2 n))) j bit in
      let j2 := Z.lxor j1 bit1 in
      let '(re1, im1) :=
        if (i <? j2)%Z then (swap re i j2, swap im i j2) else (re, im) in
      bitrev_loop count' n (i + 1)%Z j2 re1 im1
  end.

Section Butterfly.
Context `{Math}.

(** [for (let j = 0; j < halfLen; j++) { ... }] *)
Fixpoint butterfly_inner (count : nat) (i j halfLen : Z) (wRe wIm : Q)
    (curRe curIm : Q) (re im : list Q) : list Q * list Q :=
  match count with
  | O => (re, im)
  | S count' =>
      let idx := (i + j)%Z in
      let idx2 := (idx + halfLen)%Z in
      let tRe := curRe * Js.get re idx2 - curIm * Js.get im idx2 in
      let tIm := curRe * Js.get im idx2 + curIm * Js.get re idx2 in
      let re1 := Js.set re idx2 (Js.get re idx - tRe) in
      let im1 := Js.set im idx2 (Js.get im idx - tIm) in
      let re2 := Js.set re1 idx (Js.get re1 idx + tRe) in
      let im2 := Js.set im1 idx (Js.get im1 idx + tIm) in
      let newCurRe := curRe * wRe - curIm * wIm in
      let curIm' := curRe * wIm + curIm * wRe in
      butterfly_inner count' i (j + 1)%Z halfLen wRe wIm newCurRe curIm'
        re2 im2
  end.

(** [for (let i = 0; i < n; i += len) { ... }] *)
Fixpoint butterfly_blocks (count : nat) (i len halfLen : Z) (wRe wIm : Q)
    (re im : list Q) : list Q * list Q :=
  match count with
  | O => (re, im)
  | S count' =>
      let '(re1, im1) :=
        butterfly_inner (Z.to_nat halfLen) i 0 halfLen wRe wIm 1 0 re im in
      butterfly_blocks count' (i + len)%Z len halfLen wRe wIm re1 im1
  end.

(** [for (let len = 2; len <= n; len *= 2) { ... }] *)
Fixpoint butterfly_passes (fuel : nat) (n len : Z) (re im : list Q)
  : list Q * list Q :=
  match fuel with
  | O => (re, im)
  | S fuel' =>
      if (len <=? n)%Z then
        let halfLen := (len / 2)%Z in
        let angle := (-2 * Math_PI) / inject_Z len in
        let wRe := Math_cos angle in
        let wIm := Math_sin angle in
        let blocks := Z.to_nat ((n + len - 1) / len) in
        let '(re1, im1) :=
          butterfly_blocks blocks 0 len halfLen wRe wIm re im in
        butterfly_passes fuel' n (len * 2)%Z re1 im1
      else (re, im)
  end.

Definition fft (re im : list Q) : list Q * list Q :=
  let n := Js.len re in
  if (n <=? 1)%Z then (re, im)
  else
    let '(re1, im1) := bitrev_loop (Z.to_nat (n - 1)) n 1 0 re im in
    butterfly_passes (S (Z.to_nat (Z.log2 n))) n 2 re1 im1.

End Butterfly.

(** *** detectFundamentalFrequency *)

Definition fftSize : Z := 32768.

Section Detect.
Context `{Math}.

Definition hannWindow (windowSize i : Z) : Q :=
  0.5 * (1 - Math_cos ((2 * Math_PI * inject_Z i) / inject_Z (windowSize - 1))).

(** [re] after the windowing loop: the last [windowSize] samples,
    Hann-weighted, at the start of [fftSize] zeros.  (A window of one
    sample divides by zero in [hannWindow]; JavaScript gets NaN there.) *)
Definition windowed (samples : list Q) : list Q :=
  let windowSize := Z.min (Js.len samples) fftSize in
  let startOffset := Z.max 0 (Js.len samples - windowSize) in
  imap (fun i s => s * hannWindow windowSize (Z.of_nat i))
    (Js.subarray samples startOffset (startOffset + windowSize))
  ++ replicate (Z.to_nat (fftSize - windowSize)) 0.

Definition spectrum (samples : list Q) : list Q * list Q :=
  fft (windowed samples) (replicate (Z.to_nat fftSize) 0).

(** The band of 200 to 750 Hz in bins, for a sample rate that is not 0. *)
Definition minBin (sampleRate : Q) : Z :=
  Js.floor ((200 * inject_Z fftSize) / sampleRate).

Definition maxBin (sampleRate : Q) : Z :=
  Z.min (Js.ceil ((750 * inject_Z fftSize) / sampleRate)) (fftSize / 2 - 1).

(** [re[i] * re[i] + im[i] * im[i]] *)
Definition power (re im : list Q) (i : Z) : Q :=
  Js.get re i * Js.get re i + Js.get im i * Js.get im i.

(** One turn of [for (let i = minBin; i <= maxBin; i++)] on
    [(maxMag, maxIndex)]. *)
Definition peak_step (re im : list Q) (acc : Q * Z) (i : Z) : Q * Z :=
  let mag := power re im i in
  if fst acc <? mag then (mag, i) else acc.

Definition peak_search (re im : list Q) (sampleRate : Q) : Q * Z :=
  fold_left (peak_step re im)
    (seqZ (minBin sampleRate) (maxBin sampleRate - minBin sampleRate + 1))
    (0, (-1)%Z).

(** Parabolic interpolation for sub-bin accuracy (the last lines of
    the function). *)
Definition interpolate (re im : list Q) (maxMag : Q) (maxIndex : Z)
    (sampleRate : Q) : Q :=
  let prevMag :=
    if (0 <? maxIndex)%Z then Math_sqrt (power re im (maxIndex - 1)) else 0 in
  let curMag := Math_sqrt maxMag in
  let nextMag :=
    if (maxIndex <? fftSize / 2 - 1)%Z
    then Math_sqrt (power re im (maxIndex + 1)) else 0 in
  let denom := prevMag - 2 * curMag + nextMag in
  let delta := if denom !=? 0 then (0.5 * (prevMag - nextMag)) / denom else 0 in
  ((inject_Z maxIndex + delta) * sampleRate) / inject_Z fftSize.

(** The end of the function, from the peak search on: [null] is [None]. *)
Definition detect_peak (re im : list Q) (sampleRate : Q) : option Q :=
  let '(maxMag, maxIndex) := peak_search re im sampleRate in
  if (maxIndex <? 0)%Z then None
  else Some (interpolate re im maxMag maxIndex sampleRate).

Definition detectFundamentalFrequency (samples : list Q) (sampleRate : Q)
  : option Q :=
  let '(re, im) := spectrum samples in
  detect_peak re im sampleRate.

(** *** String physics *)

Definition calculateLinearDensity (gaugeMm materialDensity : Q) : Q :=
  let radiusM := (gaugeMm / 2) / 1000 in
  let crossSectionArea := Math_PI * radiusM * radiusM in
  crossSectionArea * materialDensity.

Definition estimateStringLength (headSizeSqIn : Q) : Q :=
  let areaM2 := headSizeSqIn * 0.00064516 in
  let ratio := 1.45 in
  let semiMajor := Math_sqrt ((areaM2 * ratio) / Math_PI) in
  let fullLength := 2 * semiMajor in
  fullLength * 0.96.

End Detect.

(** [parseStringPattern]: the pattern [/^(\d+)\s*x\s*(\d+)$/] on the
    characters of the string. *)
Record StringPattern := { mains : Q; crosses : Q }.

Definition match_pattern (s : list ascii) : option (list ascii * list ascii) :=
  let '(d1, r1) := Js.span Js.is_digit s in
  match d1 with
  | [] => None
  | _ =>
      match snd (Js.span Js.is_space r1) with
      | "x"%char :: r2 =>
          let '(d2, r3) := Js.span Js.is_digit (snd (Js.span Js.is_space r2)) in
          match d2, r3 with
          | _ :: _, [] => Some (d1, d2)
          | _, _ => None
          end
      | _ => None
      end
  end.

Definition parseStringPattern (pattern : string) : StringPattern :=
  match match_pattern (list_ascii_of_string pattern) with
  | Some (m1, m2) =>
      {| mains := inject_Z (Js.parseInt m1); crosses := inject_Z (Js.parseInt m2) |}
  | None => {| mains := 16; crosses := 19 |}
  end.

Definition crossStringMassLoadingFactor (crosses : Q) : Q :=
  let baseline := 19 in
  let perCross := 0.0015 in
  1 + (crosses - baseline) * perCross.

Record Tension := { tensionNewtons : Q; tensionLbs : Q }.

(** [Math.pow(x, 2)] is [x ^ 2]. *)
Definition calculateTension (frequencyHz stringLengthM linearDensityKgM : Q)
  : Tension :=
  let tensionNewtons := linearDensityKgM * (2 * stringLengthM * frequencyHz) ^ 2 in
  let tensionLbs := tensionNewtons * 0.224809 in
  {| tensionNewtons := inject_Z (Js.round (tensionNewtons * 100)) / 100;
     tensionLbs := inject_Z (Js.round (tensionLbs * 100)) / 100 |}.

End AudioAnalysis.

(** ** src/lib/stringDatabase.ts *)

Module StringDatabase.

Inductive Material := Polyester | Nylon | NaturalGut | Multifilament | Kevlar.

(** An available gauge with its measured linear density in g/m *)
Record Gauge := G { mm : Q; linearDensityGM : Q }.

Record StringModel := SM {
  brand : string;
  name : string;
  material : Material;
  gauges : list Gauge
}.

Definition STRING_DATABASE : list StringModel :=
  [
    SM "Luxilon" "ALU Power" Polyester [G 1.25 1.53; G 1.30 1.66];
    SM "Luxilon" "ALU Power Rough" Polyester [G 1.25 1.54];
    SM "Luxilon" "4G" Polyester [G 1.25 1.51; G 1.30 1.65];
    SM "Luxilon" "4G Rough" Polyester [G 1.25 1.52];
    SM "Luxilon" "Element" Polyester [G 1.25 1.46; G 1.30 1.58];
    SM "Babolat" "RPM Blast" Polyester [G 1.20 1.36; G 1.25 1.48; G 1.30 1.63; G 1.35 1.74];
    SM "Babolat" "RPM Blast Rough" Polyester [G 1.25 1.50; G 1.30 1.64];
    SM "Babolat" "RPM Hurricane" Polyester [G 1.25 1.52; G 1.30 1.67];
    SM "Solinco" "Hyper-G" Polyester [G 1.15 1.22; G 1.20 1.30; G 1.25 1.52; G 1.30 1.61];
    SM "Solinco" "Hyper-G Soft" Polyester [G 1.20 1.28; G 1.25 1.49];
    SM "Solinco" "Tour Bite" Polyester [G 1.20 1.33; G 1.25 1.50; G 1.30 1.63];
    SM "Solinco" "Confidential" Polyester [G 1.20 1.31; G 1.25 1.48];
    SM "Head" "Lynx" Polyester [G 1.25 1.48; G 1.30 1.62];
    SM "Head" "Lynx Tour" Polyester [G 1.25 1.49; G 1.30 1.63];
    SM "Head" "Hawk" Polyester [G 1.25 1.50; G 1.30 1.64];
    SM "Yonex" "Poly Tour Pro" Polyester [G 1.20 1.35; G 1.25 1.50; G 1.30 1.64];
    SM "Yonex" "Poly Tour Strike" Polyester [G 1.25 1.49; G 1.30 1.63];
    SM "Yonex" "Poly Tour Rev" Polyester [G 1.20 1.34; G 1.25 1.48];
    SM "Tecnifibre" "Razor Code" Polyester [G 1.25 1.47; G 1.30 1.61];
    SM "Tecnifibre" "Black Code" Polyester [G 1.24 1.46; G 1.28 1.56];
    SM "Volkl" "Cyclone" Polyester [G 1.25 1.48; G 1.30 1.62];
    SM "Wilson" "Revolve" Polyester [G 1.25 1.48; G 1.30 1.63];
    SM "Wilson" "Luxilon Ace" Polyester [G 1.12 1.20];
    SM "Wilson" "NXT" Multifilament [G 1.24 1.30; G 1.30 1.36];
    SM "Tecnifibre" "X-One Biphase" Multifilament [G 1.24 1.30; G 1.30 1.34];
    SM "Tecnifibre" "NRG2" Multifilament [G 1.24 1.28; G 1.32 1.37];
    SM "Head" "Velocity MLT" Multifilament [G 1.25 1.27; G 1.30 1.35];
    SM "Babolat" "VS Touch" NaturalGut [G 1.25 1.35; G 1.30 1.42];
    SM "Wilson" "Natural Gut" NaturalGut [G 1.25 1.33; G 1.30 1.40];
    SM "Luxilon" "Natural Gut" NaturalGut [G 1.25 1.34; G 1.30 1.41];
    SM "Prince" "Synthetic Gut" Nylon [G 1.25 1.28; G 1.30 1.37];
    SM "Wilson" "Synthetic Gut Power" Nylon [G 1.25 1.27; G 1.30 1.36];
    SM "Head" "Synthetic Gut PPS" Nylon [G 1.25 1.29; G 1.30 1.38];
    SM "Toroline" "O-TORO" Polyester [G 1.23 1.64];
    SM "Toroline" "O-TORO Tour" Polyester [G 1.20 1.56; G 1.23 1.64];
    SM "Toroline" "O-TORO Spin" Polyester [G 1.23 1.64];
    SM "Toroline" "O-TORO Snap" Polyester [G 1.23 1.64];
    SM "Toroline" "O-TORO Octa" Polyester [G 1.23 1.64];
    SM "Toroline" "Caviar" Polyester [G 1.16 1.46; G 1.20 1.56; G 1.24 1.67];
    SM "Toroline" "Ether" Polyester [G 1.20 1.56];
    SM "Toroline" "Wasabi" Polyester [G 1.23 1.64];
    SM "Toroline" "Zero" Polyester [G 1.23 1.64; G 1.28 1.77]
  ]%string.

(** [entry.gauges.find(g => Math.abs(g.mm - gaugeMm) < 0.005)] *)
Definition exact_gauge (gs : list Gauge) (gaugeMm : Q) : option Gauge :=
  List.find (fun g => Js.abs (mm g - gaugeMm) <? 0.005) gs.

(** [[...gauges].sort((a, b) => a.mm - b.mm)]: a stable sort by
    increasing [mm]. *)
Fixpoint insert_gauge (g : Gauge) (l : list Gauge) : list Gauge :=
  match l with
  | [] => [g]
  | h :: t => if mm g <? mm h then g :: l else h :: insert_gauge g t
  end.

Definition sort_gauges (l : list Gauge) : list Gauge :=
  fold_left (fun acc g => insert_gauge g acc) l [].

(** [sorted[sorted.length - 1]] *)
Definition last_gauge (g0 : Gauge) (l : list Gauge) : Gauge := List.last l g0.

(** The interpolation loop: the first adjacent pair that encloses the
    queried gauge. *)
Fixpoint interpolate_between (sorted : list Gauge) (gaugeMm : Q) : option Q :=
  match sorted with
  | a :: (b :: _) as rest =>
      if (mm a <=? gaugeMm) && (gaugeMm <=? mm b) then
        let t := (gaugeMm - mm a) / (mm b - mm a) in
        let density :=
          linearDensityGM a + t * (linearDensityGM b - linearDensityGM a) in
        Some (density / 1000)
      else interpolate_between rest gaugeMm
  | _ => None
  end.

(** The body of [lookupLinearDensity] once the entry is found.  An entry
    without gauges would raise a TypeError at [sorted[0].mm]; the table
    has none, and [None] stands for it here. *)
Definition entryLinearDensity (entry : StringModel) (gaugeMm : Q) : option Q :=
  match exact_gauge (gauges entry) gaugeMm with
  | Some exact => Some (linearDensityGM exact / 1000)
  | None =>
      let sorted := sort_gauges (gauges entry) in
      match sorted with
      | [] => None
      | first :: _ =>
          if gaugeMm <? mm first then Some (linearDensityGM first / 1000)
          else if mm (last_gauge first sorted) <? gaugeMm
          then Some (linearDensityGM (last_gauge first sorted) / 1000)
          else interpolate_between sorted gaugeMm
      end
  end.

(** [STRING_DATABASE.find(s => s.brand === brand && s.name === name)];
    a [name] that is [undefined] is [None] and matches no entry. *)
Definition find_entry (brand : string) (name : option string)
  : option StringModel :=
  List.find (fun s =>
    String.eqb (StringDatabase.brand s) brand &&
    match name with
    | Some n => String.eqb (StringDatabase.name s) n
    | None => false
    end) STRING_DATABASE.

Definition lookupLinearDensity (brand : string) (name : option string)
    (gaugeMm : Q) : option Q :=
  match find_entry brand name with
  | None => None
  | Some entry => entryLinearDensity entry gaugeMm
  end.

End StringDatabase.

(** ** src/hooks/useAudioAnalyzer.ts *)

Module Analyzer.
Import AudioAnalysis.

Inductive Status := idle | requesting | listening | locked.

Record AnalyzerState := {
  status : Status;
  frequency : option Q;
  lockReadings : list Q;
  error : option string
}.

Definition LOCK_THRESHOLD : Q := 0.03.
Definition LOCK_COUNT : Z := 5.
Definition MIN_SIGNAL_RMS : Q := 0.004.
Definition DETECTION_INTERVAL_MS : Q := 350.

(** Called for each detected frequency: [true] if the reading should
    count toward lock-in. *)
Definition ValidateFrequency := Q -> bool.

Record AudioContext := { sampleRate : Q }.
(** The two properties of the analyser that [start] sets. *)
Record AnalyserNode := { analyserFftSize : Z; smoothingTimeConstant : Q }.

(** The hook: the React state and the refs.  [rafIdRef] is kept as the
    animation frame that is pending, with the analyser and the context
    its [tick] closure captured; [streamRef] as whether a stream is
    held. *)
Record Hook := {
  state : AnalyzerState;
  audioContextRef : option AudioContext;
  streamRef : bool;
  analyserRef : option AnalyserNode;
  rafIdRef : option (AnalyserNode * AudioContext);
  lockReadingsRef : list Q;
  lockedRef : bool;
  lastDetectionRef : Q;
  validateRef : option ValidateFrequency
}.

Definition initial : Hook :=
  {| state := {| status := idle; frequency := None; lockReadings := [];
                 error := None |};
     audioContextRef := None; streamRef := false; analyserRef := None;
     rafIdRef := None; lockReadingsRef := []; lockedRef := false;
     lastDetectionRef := 0; validateRef := None |}.

Definition setState (f : AnalyzerState -> AnalyzerState) (h : Hook) : Hook :=
  {| state := f (state h);
     audioContextRef := audioContextRef h; streamRef := streamRef h;
     analyserRef := analyserRef h; rafIdRef := rafIdRef h;
     lockReadingsRef := lockReadingsRef h; lockedRef := lockedRef h;
     lastDetectionRef := lastDetectionRef h; validateRef := validateRef h |}.

Definition set_rafId (r : option (AnalyserNode * AudioContext)) (h : Hook)
  : Hook :=
  {| state := state h;
     audioContextRef := audioContextRef h; streamRef := streamRef h;
     analyserRef := analyserRef h; rafIdRef := r;
     lockReadingsRef := lockReadingsRef h; lockedRef := lockedRef h;
     lastDetectionRef := lastDetectionRef h; validateRef := validateRef h |}.

Definition set_lastDetection (t : Q) (h : Hook) : Hook :=
  {| state := state h;
     audioContextRef := audioContextRef h; streamRef := streamRef h;
     analyserRef := analyserRef h; rafIdRef := rafIdRef h;
     lockReadingsRef := lockReadingsRef h; lockedRef := lockedRef h;
     lastDetectionRef := t; validateRef := validateRef h |}.

Definition set_lockReadings (l : list Q) (h : Hook) : Hook :=
  {| state := state h;
     audioContextRef := audioContextRef h; streamRef := streamRef h;
     analyserRef := analyserRef h; rafIdRef := rafIdRef h;
     lockReadingsRef := l; lockedRef := lockedRef h;
     lastDetectionRef := lastDetectionRef h; validateRef := validateRef h |}.

Definition set_locked (b : bool) (h : Hook) : Hook :=
  {| state := state h;
     audioContextRef := audioContextRef h; streamRef := streamRef h;
     analyserRef := analyserRef h; rafIdRef := rafIdRef h;
     lockReadingsRef := lockReadingsRef h; lockedRef := b;
     lastDetectionRef := lastDetectionRef h; validateRef := validateRef h |}.

Definition set_validate (v : option ValidateFrequency) (h : Hook) : Hook :=
  {| state := state h;
     audioContextRef := audioContextRef h; streamRef := streamRef h;
     analyserRef := analyserRef h; rafIdRef := rafIdRef h;
     lockReadingsRef := lockReadingsRef h; lockedRef := lockedRef h;
     lastDetectionRef := lastDetectionRef h; validateRef := v |}.

(** [cancelAnimationFrame(rafIdRef.current)] and
    [requestAnimationFrame(tick)] *)
Definition stopLoop (h : Hook) : Hook := set_rafId None h.

Definition requestAnimationFrame (loop : AnalyserNode * AudioContext)
    (h : Hook) : Hook := set_rafId (Some loop) h.

(** [Math.round(x * 10) / 10] *)
Definition round1 (x : Q) : Q := inject_Z (Js.round (x * 10)) / 10.

Definition analysisSize : Z := 16384.

Section Tick.
Context `{Math}.

(** The body of the scan loop at offset [off]: the RMS of
    [checkLen = min(4096, len - off)] samples from [off].  ([checkLen] is 0
    for an empty buffer only; the buffer of the analyser has [fftSize]
    samples.) *)
Definition chunk_rms (timeDomainBuf : list Q) (off : Z) : Q :=
  let len := Js.len timeDomainBuf in
  let checkLen := Z.min 4096 (len - off) in
  let sumSq :=
    fold_left (fun sumSq x => sumSq + x * x)
      (Js.subarray timeDomainBuf off (off + checkLen)) 0 in
  Math_sqrt (sumSq / inject_Z checkLen).

Definition scan_step (timeDomainBuf : list Q) (best : Z * Q) (off : Z)
  : Z * Q :=
  let rms := chunk_rms timeDomainBuf off in
  if snd best <? rms then (off, rms) else best.

(** [for (let off = ...; off >= 0; off -= 4096)] on
    [(bestOffset, bestRms)] *)
Fixpoint scan (fuel : nat) (timeDomainBuf : list Q) (off : Z)
    (best : Z * Q) : Z * Q :=
  match fuel with
  | O => best
  | S fuel' =>
      if (0 <=? off)%Z
      then scan fuel' timeDomainBuf (off - 4096)%Z
             (scan_step timeDomainBuf best off)
      else best
  end.

(** The first offset of the scan; the loop makes
    [first_offset / 4096 + 1] turns. *)
Definition first_offset (timeDomainBuf : list Q) : Z :=
  Z.max 0 (Js.len timeDomainBuf - analysisSize).

Definition select_window (timeDomainBuf : list Q) : Z * Q :=
  let start := first_offset timeDomainBuf in
  scan (S (Z.to_nat (start / 4096))) timeDomainBuf start (start, 0).

(** The estimate of one detection: [freq] after the signal gate. *)
Definition tick_estimate (ctx : AudioContext) (timeDomainBuf : list Q)
  : option Q :=
  let len := Js.len timeDomainBuf in
  let '(bestOffset, bestRms) := select_window timeDomainBuf in
  let windowStart := Z.max 0 (Z.min bestOffset (len - analysisSize)) in
  let analysisBuf :=
    Js.subarray timeDomainBuf windowStart (windowStart + analysisSize) in
  if MIN_SIGNAL_RMS <=? bestRms
  then detectFundamentalFrequency analysisBuf (sampleRate ctx)
  else None.

(** [readings.length === 0 || readings.every(r => ...)] *)
Definition isConsistent (readings : list Q) (freq : Q) : bool :=
  (Js.len readings =? 0)%Z
  || forallb (fun r => Js.abs (r - freq) / r <? LOCK_THRESHOLD) readings.

(** [readings] after the push, or after the restart. *)
Definition push_reading (readings : list Q) (freq : Q) : list Q :=
  if isConsistent readings freq then readings ++ [freq] else [freq].

(** [readings.reduce((a, b) => a + b, 0) / readings.length] *)
Definition average (readings : list Q) : Q :=
  fold_left Qplus readings 0 / inject_Z (Js.len readings).

(** What an accepted reading [freq] does. *)
Definition tick_accept (loop : AnalyserNode * AudioContext) (freq : Q)
    (h : Hook) : Hook :=
  let readings := push_reading (lockReadingsRef h) freq in
  let h1 := set_lockReadings readings h in
  if (LOCK_COUNT <=? Js.len readings)%Z then
    let avgFreq := average readings in
    setState (fun _ =>
      {| status := locked; frequency := Some (round1 avgFreq);
         lockReadings := readings; error := None |})
      (set_locked true h1)
  else
    requestAnimationFrame loop
      (setState (fun s =>
         {| status := status s; frequency := Some (round1 freq);
            lockReadings := readings; error := error s |}) h1).

(** The block [if (freq) { ... }] and the rescheduling after it, for the
    [freq] of this detection. *)
Definition tick_freq (loop : AnalyserNode * AudioContext) (freq : option Q)
    (h : Hook) : Hook :=
  match freq with
  | Some freq =>
      if Js.truthy freq then
        match validateRef h with
        | Some validate =>
            if negb (validate freq) then
              requestAnimationFrame loop
                (setState (fun s =>
                   {| status := status s; frequency := Some (round1 freq);
                      lockReadings := lockReadings s; error := error s |})
                   h)
            else tick_accept loop freq h
        | None => tick_accept loop freq h
        end
      else requestAnimationFrame loop h
  | None => requestAnimationFrame loop h
  end.

(** [tick], called from the animation frame that was pending; [now]
    is [performance.now()] and [timeDomainData] what
    [getFloatTimeDomainData] writes into the buffer. *)
Definition tick (loop : AnalyserNode * AudioContext) (now : Q)
    (timeDomainData : list Q) (h : Hook) : Hook :=
  if lockedRef h then h
  else if DETECTION_INTERVAL_MS <=? now - lastDetectionRef h then
    tick_freq loop (tick_estimate (snd loop) timeDomainData)
      (set_lastDetection now h)
  else requestAnimationFrame loop h.

Definition startLoop (analyser : AnalyserNode) (ctx : AudioContext)
    (h : Hook) : Hook :=
  requestAnimationFrame (analyser, ctx) (stopLoop h).

Definition stop (h : Hook) : Hook :=
  {| state := {| status := idle; frequency := None; lockReadings := [];
                 error := None |};
     audioContextRef := None; streamRef := false; analyserRef := None;
     rafIdRef := None; lockReadingsRef := []; lockedRef := false;
     lastDetectionRef := 0; validateRef := None |}.

Definition reset (h : Hook) : Hook :=
  let h1 :=
    setState (fun _ =>
      {| status := listening; frequency := None; lockReadings := [];
         error := None |})
      (set_locked false (set_lastDetection 0 (set_lockReadings [] h))) in
  match analyserRef h1, audioContextRef h1 with
  | Some analyser, Some ctx => startLoop analyser ctx h1
  | _, _ => h1
  end.

(** [start] up to the [await]: [hasGetUserMedia] is whether
    [navigator.mediaDevices.getUserMedia] exists. *)
Definition start_call (validate : option ValidateFrequency)
    (hasGetUserMedia : bool) (h : Hook) : Hook :=
  let h1 := stop h in
  let h2 := match validate with
            | Some v => set_validate (Some v) h1
            | None => h1
            end in
  if negb hasGetUserMedia then
    setState (fun s =>
      {| status := idle; frequency := frequency s;
         lockReadings := lockReadings s;
         error := Some "Microphone requires HTTPS. Open this page with https:// on your phone."%string |})
      h2
  else
    setState (fun s =>
      {| status := requesting; frequency := frequency s;
         lockReadings := lockReadings s; error := None |}) h2.

(** [start] after the [await], when the stream is granted; [ctx] is
    the new audio context. *)
Definition start_granted (ctx : AudioContext) (h : Hook) : Hook :=
  let analyser :=
    {| analyserFftSize := 32768; smoothingTimeConstant := 0.6 |} in
  let h1 :=
    {| state := {| status := listening; frequency := None;
                   lockReadings := []; error := None |};
       audioContextRef := Some ctx; streamRef := true;
       analyserRef := Some analyser; rafIdRef := rafIdRef h;
       lockReadingsRef := []; lockedRef := false;
       lastDetectionRef := 0; validateRef := validateRef h |} in
  startLoop analyser ctx h1.

(** The [catch] branch of [start]. *)
Definition start_failed (message : string) (h : Hook) : Hook :=
  setState (fun s =>
    {| status := idle; frequency := frequency s;
       lockReadings := lockReadings s; error := Some message |}) h.

(** What can happen to the hook.  [Frame] is the browser running the
    pending animation frame, if there is one.  [StartGranted] and
    [StartFailed] are allowed at any time, which covers every
    interleaving of the asynchronous [start]. *)
Inductive event :=
| Frame (now : Q) (timeDomainData : list Q)
| StopCall
| ResetCall
| StartCall (validate : option ValidateFrequency) (hasGetUserMedia : bool)
| StartGranted (ctx : AudioContext)
| StartFailed (message : string).

Definition step (h : Hook) (e : event) : Hook :=
  match e with
  | Frame now data =>
      match rafIdRef h with
      | Some loop => tick loop now data (set_rafId None h)
      | None => h
      end
  | StopCall => stop h
  | ResetCall => reset h
  | StartCall validate hasGetUserMedia => start_call validate hasGetUserMedia h
  | StartGranted ctx => start_granted ctx h
  | StartFailed message => start_failed message h
  end.

Definition run (events : list event) : Hook := fold_left step events initial.

End Tick.

End Analyzer.

(** ** src/App.tsx *)

Module App.
Import AudioAnalysis StringDatabase.

Record TensionSettings := {
  material : string;
  gaugeMm : string;
  headSizeSqIn : string;
  stringPattern : string;
  stringKey : string;
  stringLengthMm : string
}.

Definition DEFAULT_SETTINGS : TensionSettings :=
  {| material := "Polyester"; gaugeMm := "1.25"; headSizeSqIn := "100";
     stringPattern := "16x19"; stringKey := ""; stringLengthMm := "" |}.

(** [const [brand, name] = settings.stringKey.split('|')] *)
Definition split_key (stringKey : string) : string * option string :=
  match Js.split_bar (list_ascii_of_string stringKey) with
  | b :: n :: _ => (string_of_list_ascii b, Some (string_of_list_ascii n))
  | b :: [] => (string_of_list_ascii b, None)
  | [] => (EmptyString, None)
  end.

Section ComputeTension.
Context `{Math}.

(** [MATERIAL_DENSITIES[settings.material] || 1380] through the
    cylinder model *)
Definition cylinderDensity (settings : TensionSettings) (gaugeMm : Q) : Q :=
  calculateLinearDensity gaugeMm
    (Js.or_default (MATERIAL_DENSITIES !! material settings) 1380).

(** Linear density: the measured value of the table if there is one,
    else the cylinder model. *)
Definition linearDensityOf (settings : TensionSettings) (gaugeMm : Q) : Q :=
  if negb (String.eqb (stringKey settings) "") then
    let '(brand, name) := split_key (stringKey settings) in
    match lookupLinearDensity brand name gaugeMm with
    | Some dbDensity => dbDensity
    | None => cylinderDensity settings gaugeMm
    end
  else cylinderDensity settings gaugeMm.

(** String length: the measured value if given, else the estimate
    from the head size. *)
Definition stringLengthOf (settings : TensionSettings) : Q :=
  let estimated :=
    estimateStringLength
      (Js.or_default (Js.parseFloat (headSizeSqIn settings)) 100) in
  match Js.parseFloat (stringLengthMm settings) with
  | Some measuredMm => if 0 <? measuredMm then measuredMm / 1000 else estimated
  | None => estimated
  end.

Definition computeTension (settings : TensionSettings) (frequencyHz : Q)
  : Tension :=
  let gaugeMm :=
    normalizeGaugeMm (Js.or_default (Js.parseFloat (gaugeMm settings)) 1.25) in
  let linearDensity := linearDensityOf settings gaugeMm in
  let linearDensity :=
    linearDensity
    * crossStringMassLoadingFactor
        (crosses (parseStringPattern (stringPattern settings))) in
  let stringLength := stringLengthOf settings in
  calculateTension frequencyHz stringLength linearDensity.

(** The validator that [handleStart] passes to [start]. *)
Definition plausibleTension (settings : TensionSettings) : Q -> bool :=
  fun freq =>
    let tensionLbs := tensionLbs (computeTension settings freq) in
    (20 <=? tensionLbs) && (tensionLbs <=? 65).

End ComputeTension.

End App.

(** ** An executable [Math] on the rationals *)

Module RationalMathDefs.

(** The square root to twelve decimal places, rounded down. *)
Definition sqrt (x : Q) : Q :=
  inject_Z (Z.sqrt (Qfloor (x * inject_Z (10 ^ 24)))) / inject_Z (10 ^ 12).

(** The binary64 value of [Math.PI]. *)
Definition PI : Q := 884279719003555 # 281474976710656.

(** Taylor polynomials: [terms] terms of the series of the cosine and
    of the sine, good for arguments of a few radians. *)
Fixpoint series (terms : nat) (k : Z) (term x2 : Q) : Q :=
  match terms with
  | O => 0
  | S terms' =>
      term + series terms' (k + 2)%Z
               (Qred (- term * x2 / inject_Z ((k + 1) * (k + 2)))) x2
  end.

Definition cos (x : Q) : Q := Qred (series 16 0 1 (x * x)).
Definition sin (x : Q) : Q := Qred (series 16 1 x (x * x)).

End RationalMathDefs.

#[global] Instance RationalMath : Math :=
  {| Math_sqrt := RationalMathDefs.sqrt;
     Math_cos := RationalMathDefs.cos;
     Math_sin := RationalMathDefs.sin;
     Math_PI := RationalMathDefs.PI |}.

(** ** The vocabulary of the properties *)

(** [lra] does not look through a division: divisions by a constant are
    turned into multiplications first. *)
Ltac div_consts :=
  unfold Qdiv in *;
  repeat match goal with
    | |- context [Qinv ?c] =>
        let v := eval vm_compute in (Qinv c) in
        progress change (Qinv c) with v
    | H : context [Qinv ?c] |- _ =>
        let v := eval vm_compute in (Qinv c) in
        progress change (Qinv c) with v in H
    end.

Module Props.
Import AudioAnalysis StringDatabase Analyzer App.

(** *** Consensus *)

(** The reading [r] of the buffer is within 3% of the new estimate [f]. *)
Definition within_tolerance (f r : Q) : Prop := Qabs (r - f) / r < 0.03.

Definition consistent_with (readings : list Q) (f : Q) : Prop :=
  readings = [] \/ Forall (within_tolerance f) readings.

(** No validator is set, or it accepts [f]. *)
Definition not_rejected (h : Hook) (f : Q) : Prop :=
  match validateRef h with
  | Some validate => validate f = true
  | None => True
  end.

Definition mean (l : list Q) : Q :=
  fold_right Qplus 0 l / inject_Z (Z.of_nat (length l)).

(** [q] is a multiple of 0.1 and the nearest one to [x], halves going up. *)
Definition nearest_tenth (x q : Q) : Prop :=
  exists k : Z, q = inject_Z k / 10 /\ q - 0.05 <= x /\ x < q + 0.05.

(** What every reachable state of the hook satisfies: at most five
    readings, at most four while not locked, and no reading that is zero
    (so that the division in the consistency test is a division by a
    number that is not zero, as in the rational model). *)
Definition buffer_inv (h : Hook) : Prop :=
  (length (lockReadingsRef h) <= 5)%nat /\
  (lockedRef h = false -> (length (lockReadingsRef h) <= 4)%nat) /\
  (length (lockReadings (state h)) <= 5)%nat /\
  Forall (fun r => ~ r == 0) (lockReadingsRef h).

(** A session that is listening, for the examples. *)
Definition example_loop : AnalyserNode * AudioContext :=
  ({| analyserFftSize := 32768; smoothingTimeConstant := 0.6 |},
   {| sampleRate := 48000 |}).

Definition example_hook (readings : list Q)
    (validate : option ValidateFrequency) : Hook :=
  {| state := {| status := listening; frequency := None;
                 lockReadings := readings; error := None |};
     audioContextRef := Some (snd example_loop); streamRef := true;
     analyserRef := Some (fst example_loop); rafIdRef := None;
     lockReadingsRef := readings; lockedRef := false;
     lastDetectionRef := 0; validateRef := validate |}.

(** The hook after a run of accepted or rejected estimates, one for each
    frame, every tick being due. *)
Definition feed (loop : AnalyserNode * AudioContext) (freqs : list Q)
    (h : Hook) : Hook :=
  fold_left (fun h f => tick_freq loop (Some f) (set_rafId None h)) freqs h.

(** *** Keeping the best of a scan *)

(** One turn of a scan that keeps the first index of the highest score:
    the best so far is replaced on strict improvement only. *)
Definition improve (score : Z -> Q) (best : Z * Q) (i : Z) : Z * Q :=
  if snd best <? score i then (i, score i) else best.

(** The offsets that the window scan visits, in the order of the visit. *)
Fixpoint offsets_from (fuel : nat) (off : Z) : list Z :=
  match fuel with
  | O => []
  | S fuel' =>
      if (0 <=? off)%Z then off :: offsets_from fuel' (off - 4096) else []
  end.

Definition scan_offsets (timeDomainBuf : list Q) : list Z :=
  let start := first_offset timeDomainBuf in
  offsets_from (S (Z.to_nat (start / 4096))) start.

(** As the specification words it: the RMS of the whole 16384-sample
    window that starts at [off]. *)
Definition window_rms `{Math} (timeDomainBuf : list Q) (off : Z) : Q :=
  let sumSq :=
    fold_left (fun sumSq x => sumSq + x * x)
      (Js.subarray timeDomainBuf off (off + analysisSize)) 0 in
  Math_sqrt (sumSq / inject_Z analysisSize).

(** A buffer of 32768 samples, each 0 or 1, in eight chunks of 4096: the
    first chunk is all ones; the chunks at 12288 and at 16384 are ones but
    for their first sample; the two chunks after them are all ones; the
    other three are silent. *)
Definition chunk_of (first rest : Q) : list Q := first :: replicate 4095 rest.

Definition loud_start_buffer : list Q :=
  chunk_of 1 1 ++ chunk_of 0 0 ++ chunk_of 0 0 ++ chunk_of 0 1 ++
  chunk_of 0 1 ++ chunk_of 1 1 ++ chunk_of 1 1 ++ chunk_of 0 0.

Definition silent_buffer : list Q := replicate (Z.to_nat 32768) 0.

(** *** The spectral estimator *)

(** [mag[i]], the magnitude of bin [i] *)
Definition magnitude `{Math} (re im : list Q) (i : Z) : Q :=
  Math_sqrt (power re im i).

(** As the specification words it: the offset of the vertex of the
    parabola through three magnitudes, 0 when the denominator is 0. *)
Definition parabolic_delta (prev cur next : Q) : Q :=
  if prev - 2 * cur + next =? 0 then 0
  else 0.5 * (prev - next) / (prev - 2 * cur + next).

(** Two spectra of 32768 bins for a sample rate of 48000 Hz, where the
    band is the bins 136 to 512: a peak at bin 300 between the magnitudes
    1 and 2, and a plateau over the bins 135 to 137, across the lower edge
    of the band. *)
Definition peaked_re : list Q :=
  replicate 299 0 ++ [1; 3; 2] ++ replicate (Z.to_nat 32466) 0.
Definition flat_re : list Q :=
  replicate 135 0 ++ [2; 2; 2] ++ replicate (Z.to_nat 32630) 0.
Definition zero_im : list Q := replicate (Z.to_nat 32768) 0.

(** *** The reference table *)

(** Consecutive gauges are in increasing order, at least 0.01 mm apart. *)
Fixpoint spaced (gs : list Gauge) : bool :=
  match gs with
  | a :: (b :: _) as t => (mm a + 0.01 <=? mm b) && spaced t
  | _ => true
  end.

Definition well_formed (e : StringModel) : bool :=
  match gauges e with
  | [] => false
  | _ :: _ => spaced (gauges e)
  end.

(** The density in kg/m on the line through two tabulated gauges. *)
Definition linear_interpolation (a b : Gauge) (gaugeMm : Q) : Q :=
  (linearDensityGM a
   + (gaugeMm - mm a) / (mm b - mm a) * (linearDensityGM b - linearDensityGM a))
  / 1000.

Definition alu_power : StringModel :=
  SM "Luxilon" "ALU Power" Polyester [G 1.25 1.53; G 1.30 1.66].

Definition alu_power_settings : TensionSettings :=
  {| material := "Polyester"; gaugeMm := "1.27"; headSizeSqIn := "100";
     stringPattern := "16x19"; stringKey := "Luxilon|ALU Power";
     stringLengthMm := "" |}.

(** *** The example scenario *)

(** What the example needs of the runtime: pi to eight decimal places, and
    a square root whose square is within 1e-9 of its argument on [0, 1]. *)
Definition accurate_PI `{Math} : Prop :=
  3.14159264 <= Math_PI /\ Math_PI <= 3.14159266.

Definition accurate_sqrt `{Math} : Prop :=
  forall x, 0 <= x -> x <= 1 ->
    0 <= Math_sqrt x /\
    x - 0.000000001 <= Math_sqrt x * Math_sqrt x /\
    Math_sqrt x * Math_sqrt x <= x + 0.000000001.

End Props.

Import AudioAnalysis StringDatabase Analyzer App Props.

(** ** More of the sources *)

(** *** Numbers as strings *)

Module JsNumber.

Definition digit (d : Z) : ascii := ascii_of_nat (48 + Z.to_nat d).

(** The decimal digits of [n >= 0] before [acc], within [fuel] digits. *)
Fixpoint int_digits (fuel : nat) (n : Z) (acc : list ascii) : list ascii :=
  match fuel with
  | O => acc
  | S fuel' =>
      let acc' := digit (n mod 10) :: acc in
      if (n / 10 =? 0)%Z then acc' else int_digits fuel' (n / 10)%Z acc'
  end.

(** The decimal digits of [0 <= r < 1], up to [fuel] of them. *)
Fixpoint frac_digits (fuel : nat) (r : Q) : list ascii :=
  match fuel with
  | O => []
  | S fuel' =>
      if r =? 0 then []
      else
        let d := Js.floor (r * 10) in
        digit d :: frac_digits fuel' (Qred (r * 10 - inject_Z d))
  end.

(** [x.toString()] and [`${x}`] for a number that is a decimal of at most
    17 digits after the point: its decimal expansion, which is what
    JavaScript prints for the binary64 number nearest to a decimal of up
    to 15 significant digits.  (Exponents, as for 1e21, are not in the
    model.) *)
Definition toString (x : Q) : string :=
  let a := Qabs x in
  let n := Js.floor a in
  let fraction := frac_digits 17 (Qred (a - inject_Z n)) in
  string_of_list_ascii
    ((if x <? 0 then ["-"%char] else [])
     ++ int_digits (S (Z.to_nat (Z.log2 n))) n []
     ++ match fraction with
        | [] => []
        | _ => "."%char :: fraction
        end).

End JsNumber.

(** *** src/lib/stringDatabase.ts, the lists for the form *)

Module Catalogue.
Import StringDatabase.

(** [set.add(x)] on the elements of a [Set] in the order of insertion *)
Definition set_add (set : list string) (x : string) : list string :=
  if existsb (String.eqb x) set then set else set ++ [x].

(** [[...new Set(l)]] *)
Definition set_of (l : list string) : list string := fold_left set_add l [].

Definition getBrands : list string := set_of (map brand STRING_DATABASE).

Definition getModelsForBrand (brand : string) : list StringModel :=
  List.filter (fun s => String.eqb (StringDatabase.brand s) brand) STRING_DATABASE.

End Catalogue.

(** *** src/components/SetupForm.tsx *)

Module SetupForm.
Import StringDatabase App Catalogue.

Definition HEAD_SIZES : list string :=
  ["95"; "97"; "98"; "100"; "102"; "104"; "110"]%string.
Definition PATTERNS : list string := ["16x19"; "16x18"; "18x20"; "16x20"]%string.
Definition BRANDS : list string := getBrands.

(** The array of the material chips *)
Definition MATERIALS : list string :=
  ["Polyester"; "Nylon"; "NaturalGut"; "Multifilament"; "Kevlar"]%string.

(** The material of an entry of the table is its name as a string. *)
Definition material_name (m : Material) : string :=
  match m with
  | Polyester => "Polyester"
  | Nylon => "Nylon"
  | NaturalGut => "NaturalGut"
  | Multifilament => "Multifilament"
  | Kevlar => "Kevlar"
  end.

(** [{ ...settings, stringKey }] *)
Definition with_stringKey (settings : TensionSettings) (key : string)
  : TensionSettings :=
  {| material := material settings; gaugeMm := gaugeMm settings;
     headSizeSqIn := headSizeSqIn settings;
     stringPattern := stringPattern settings; stringKey := key;
     stringLengthMm := stringLengthMm settings |}.

(** [{ ...settings, gaugeMm }], which is [update('gaugeMm', gauge)] *)
Definition with_gaugeMm (settings : TensionSettings) (gauge : string)
  : TensionSettings :=
  {| material := material settings; gaugeMm := gauge;
     headSizeSqIn := headSizeSqIn settings;
     stringPattern := stringPattern settings; stringKey := stringKey settings;
     stringLengthMm := stringLengthMm settings |}.

(** [{ ...settings, stringKey, material, gaugeMm }] for a model of the
    table; [model.gauges[0]?.mm.toString() || settings.gaugeMm]. *)
Definition select_model (settings : TensionSettings) (brand : string)
    (model : StringModel) : TensionSettings :=
  let gauge :=
    match gauges model with
    | g :: _ =>
        let s := JsNumber.toString (mm g) in
        if String.eqb s "" then gaugeMm settings else s
    | [] => gaugeMm settings
    end in
  {| material := material_name (StringDatabase.material model);
     gaugeMm := gauge;
     headSizeSqIn := headSizeSqIn settings;
     stringPattern := stringPattern settings;
     stringKey := brand ++ "|" ++ name model;
     stringLengthMm := stringLengthMm settings |}.

(** [const [selectedBrand, selectedModel] = settings.stringKey ?
    settings.stringKey.split('|') : ['', '']] *)
Definition selection (settings : TensionSettings) : string * option string :=
  if negb (String.eqb (stringKey settings) "")
  then split_key (stringKey settings)
  else (EmptyString, Some EmptyString).

Definition selectedBrand (settings : TensionSettings) : string :=
  fst (selection settings).

(** [selectedBrand && selectedModel ? STRING_DATABASE.find(...) : null] *)
Definition selectedEntry (settings : TensionSettings) : option StringModel :=
  match selection settings with
  | (brand, Some model) =>
      if negb (String.eqb brand "") && negb (String.eqb model "")
      then find_entry brand (Some model)
      else None
  | (_, None) => None
  end.

Definition availableGauges (settings : TensionSettings) : list string :=
  match selectedEntry settings with
  | Some entry => map (fun g => JsNumber.toString (mm g)) (gauges entry)
  | None => []
  end.

(** The handlers return the settings given to [onChange]; the settings
    stay as they are when [onChange] is not called. *)
Definition handleBrandChange (settings : TensionSettings) (brand : string)
  : TensionSettings :=
  if String.eqb brand "" then with_stringKey settings ""
  else
    match getModelsForBrand brand with
    | model :: _ => select_model settings brand model
    | [] => settings
    end.

Definition handleModelChange (settings : TensionSettings) (modelName : string)
  : TensionSettings :=
  match find_entry (selectedBrand settings) (Some modelName) with
  | Some model => select_model settings (selectedBrand settings) model
  | None => settings
  end.

Definition handleGaugeChip (settings : TensionSettings) (gauge : string)
  : TensionSettings := with_gaugeMm settings gauge.

End SetupForm.

(** *** src/App.tsx, the status line *)

Module AppView.
Import Analyzer.

Definition getStatusMessage (hasFreq : bool) (lockCount : Z) : string :=
  if (5 <=? lockCount)%Z then "Frequency locked!"
  else if (0 <? lockCount)%Z then
    "Locking in... " ++ JsNumber.toString (inject_Z lockCount) ++ "/5 readings"
  else if hasFreq then "Frequency detected — keep plucking"
  else "Tap or pluck a string to begin".

(** [getStatusMessage(state.frequency != null, state.lockReadings.length)] *)
Definition statusMsg (s : AnalyzerState) : string :=
  getStatusMessage
    (match frequency s with Some _ => true | None => false end)
    (Js.len (lockReadings s)).

End AppView.

(** *** src/components/FrequencyGraph.tsx, the geometry of the curve *)

Module FrequencyGraph.

Definition MIN_HZ : Q := 100.
Definition MAX_HZ : Q := 1000.

(** [Math.min] of two numbers *)
Definition min (x y : Q) : Q := if y <? x then y else x.

(** [pad] and the size of the plot inside a canvas of [W] by [H] *)
Definition pad_top : Q := 8.
Definition pad_bottom : Q := 20.
Definition pad_left : Q := 8.
Definition pad_right : Q := 8.
Definition gW (W : Q) : Q := W - pad_left - pad_right.
Definition gH (H : Q) : Q := H - pad_top - pad_bottom.

(** The abscissa of a frequency: grid lines, range band and highlight *)
Definition hz_x (W hz : Q) : Q :=
  pad_left + ((hz - MIN_HZ) / (MAX_HZ - MIN_HZ)) * gW W.

(** The bins that are drawn; [len] is [freqData.length]. *)
Definition minBin (sampleRate fftSize : Q) : Z :=
  Js.floor (MIN_HZ / (sampleRate / fftSize)).
Definition maxBin (sampleRate fftSize : Q) (len : Z) : Z :=
  Z.min (Js.ceil (MAX_HZ / (sampleRate / fftSize))) (len - 1).

(** [let peakVal = 1; for (let i = 0; i <= binRange; i++) { ... }] *)
Definition peakVal (freqData : list Q) (minBin binRange : Z) : Q :=
  fold_left
    (fun peakVal i =>
       let bin := (minBin + i)%Z in
       if peakVal <? Js.get freqData bin then Js.get freqData bin else peakVal)
    (seqZ 0 (binRange + 1)) 1.

Definition scale (freqData : list Q) (minBin binRange : Z) : Q :=
  (255 / peakVal freqData minBin binRange) * 0.85.

(** The point of the curve for the turn [i] of the path loops *)
Definition point_val (freqData : list Q) (minBin binRange i : Z) : Q :=
  min 1 ((Js.get freqData (minBin + i) / 255) * scale freqData minBin binRange).

Definition point_x (W : Q) (binRange i : Z) : Q :=
  pad_left + (inject_Z i / inject_Z binRange) * gW W.

Definition point_y (H : Q) (freqData : list Q) (minBin binRange i : Z) : Q :=
  pad_top + gH H - point_val freqData minBin binRange i * gH H.

End FrequencyGraph.

Import Catalogue SetupForm AppView.

(** ** More vocabulary: the hook as a transition system *)

(** [tick] with the estimate of the detection as a parameter: [tick] is
    [tick_on] at [tick_estimate] of the frame's data. *)
Definition tick_on (loop : AnalyserNode * AudioContext) (now : Q)
    (freq : option Q) (h : Hook) : Hook :=
  if lockedRef h then h
  else if DETECTION_INTERVAL_MS <=? now - lastDetectionRef h then
    tick_freq loop freq (set_lastDetection now h)
  else requestAnimationFrame loop h.

(** The states that the hook can be in: those that [step] reaches, where
    the estimate of a frame may be any value. *)
Inductive reach : Hook -> Prop :=
| reach_initial : reach initial
| reach_frame h loop now freq :
    reach h -> rafIdRef h = Some loop ->
    reach (tick_on loop now freq (set_rafId None h))
| reach_stop h : reach h -> reach (stop h)
| reach_reset h : reach h -> reach (reset h)
| reach_start_call h validate hasGetUserMedia :
    reach h -> reach (start_call validate hasGetUserMedia h)
| reach_start_granted h ctx : reach h -> reach (start_granted ctx h)
| reach_start_failed h message : reach h -> reach (start_failed message h).

(** Every reading of the buffer is within 3% of every later one, the
    error being relative to the earlier reading. *)
Inductive consistent_run : list Q -> Prop :=
| consistent_nil : consistent_run []
| consistent_snoc l f :
    consistent_run l -> Forall (within_tolerance f) l ->
    consistent_run (l ++ [f]).

(** [l'] is [l] with every entry multiplied by [c]. *)
Definition scaled (c : Q) (l l' : list Q) : Prop :=
  Forall2 (fun x y => y == c * x) l l'.

(** The exchange of the positions [i] and [j] *)
Definition exchange (i j p : nat) : nat :=
  if Nat.eqb p i then j else if Nat.eqb p j then i else p.

(** Every entry is 0, as a number. *)
Definition zeros (l : list Q) : Prop := Forall (fun x => x == 0) l.

(** The strings that [/^(\d+)\s*x\s*(\d+)$/] matches, with the two
    groups of digits. *)
Definition pattern_shape (s d1 d2 : list ascii) : Prop :=
  exists w1 w2 : list ascii,
    s = d1 ++ w1 ++ "x"%char :: w2 ++ d2 /\
    d1 <> [] /\ d2 <> [] /\
    forallb Js.is_digit d1 = true /\ forallb Js.is_space w1 = true /\
    forallb Js.is_space w2 = true /\ forallb Js.is_digit d2 = true.

(** The settings with another head size: [{...settings, headSizeSqIn}] *)
Definition with_headSizeSqIn (settings : TensionSettings) (head : string)
  : TensionSettings :=
  {| material := material settings; gaugeMm := gaugeMm settings;
     headSizeSqIn := head; stringPattern := stringPattern settings;
     stringKey := stringKey settings;
     stringLengthMm := stringLengthMm settings |}.

(** Settings with a measured string length of 320 mm. *)
Definition measured_settings : TensionSettings :=
  {| material := "Polyester"; gaugeMm := "1.25"; headSizeSqIn := "100";
     stringPattern := "16x19"; stringKey := ""; stringLengthMm := "320" |}.

(** The densities of the table are from 1.20 to 1.77 g/m. *)
Definition densities_in_range (e : StringModel) : bool :=
  forallb (fun g => (1.20 <=? linearDensityGM g) && (linearDensityGM g <=? 1.77))
    (gauges e).

(** The values of a [Uint8Array] *)
Definition bytes (l : list Q) : Prop := Forall (fun v => 0 <= v /\ v <= 255) l.

(** A spectrum of eight bins for the graph, with its peak at bin 3. *)
Definition example_freqData : list Q := [0; 10; 40; 200; 90; 30; 0; 0].

(** A multiple of 0.1 *)
Definition one_decimal (q : Q) : Prop := exists k : Z, q = inject_Z k / 10.

(** The analyser, the context and the stream are held together, and a
    pending frame belongs to the analyser and the context that are held. *)
Definition resources_coherent (h : Hook) : Prop :=
  (analyserRef h = None <-> audioContextRef h = None) /\
  (streamRef h = true <-> audioContextRef h <> None) /\
  (forall loop, rafIdRef h = Some loop ->
     analyserRef h = Some (fst loop) /\ audioContextRef h = Some (snd loop)).

Definition hook_inv (h : Hook) : Prop :=
  buffer_inv h /\
  lockReadings (state h) = lockReadingsRef h /\
  consistent_run (lockReadingsRef h) /\
  (lockedRef h = true -> length (lockReadingsRef h) = 5%nat) /\
  (status (state h) = locked ->
     lockedRef h = true /\
     frequency (state h) = Some (round1 (average (lockReadingsRef h)))) /\
  (forall q, frequency (state h) = Some q -> one_decimal q) /\
  (error (state h) <> None -> status (state h) = idle) /\
  resources_coherent h /\
  (lockedRef h = true -> rafIdRef h = None).

Ltac fresh_side :=
  cbn; try discriminate; try reflexivity; try (intros E; contradiction).

(** A session in which five estimates around 440 Hz have been accepted. *)
Definition listening_hook : Hook :=
  start_granted {| sampleRate := 48000 |} (start_call None true initial).

Definition frame_on (now : Q) (freq : Q) (h : Hook) : Hook :=
  match rafIdRef h with
  | Some loop => tick_on loop now (Some freq) (set_rafId None h)
  | None => h
  end.

(** Detections at given times with given estimates, one frame each. *)
Definition detections (loop : AnalyserNode * AudioContext)
    (l : list (Q * Q)) (h : Hook) : Hook :=
  fold_left (fun h d => tick_on loop (fst d) (Some (snd d)) (set_rafId None h))
            l h.

(** Each time is at least 350 ms after the one before, the first one
    after [t]. *)
Fixpoint due_times (t : Q) (times : list Q) : Prop :=
  match times with
  | [] => True
  | now :: times => DETECTION_INTERVAL_MS <= now - t /\ due_times now times
  end.

(** Each estimate of [fs] passes [isConsistent] against the readings
    [seen] and the estimates before it. *)
Fixpoint agreeing (seen : list Q) (fs : list Q) : bool :=
  match fs with
  | [] => true
  | f :: fs => isConsistent seen f && agreeing (seen ++ [f]) fs
  end.

Definition five_detections : list (Q * Q) :=
  [(800, 440); (1200, 441); (1600, 441); (2000, 441); (2400, 442)].

Definition locked_hook : Hook :=
  frame_on 2400 442 (frame_on 2000 441 (frame_on 1600 441
    (frame_on 1200 441 (frame_on 800 440 listening_hook)))).

(** *** The form and the table *)

(** The key made of the brand and the name of [e] reads back as the
    two, and neither is empty. *)
Definition key_reads_back (e : StringModel) : bool :=
  match split_key (brand e ++ "|" ++ name e) with
  | (b, Some n) => String.eqb b (brand e) && String.eqb n (name e)
  | (_, None) => false
  end
  && negb (String.eqb (brand e) "") && negb (String.eqb (name e) "")
  && negb (String.eqb (brand e ++ "|" ++ name e) "").

(** The text of a gauge chip reads back as the gauge, a diameter below
    3 mm. *)
Definition chip_reads_back (g : Gauge) : bool :=
  match Js.parseFloat (JsNumber.toString (mm g)) with
  | Some v => (v =? mm g) && (v !=? 0) && (v <? 3)
  | None => false
  end
  && negb (String.eqb (JsNumber.toString (mm g)) "").

(** The settings [s'] select [model] of the table: the key names it,
    the material is its material, the gauge is one of the chips offered,
    and the racquet is as in [settings]. *)
Definition selects (settings s' : TensionSettings) (model : StringModel)
  : Prop :=
  selectedEntry s' = Some model /\
  material s' = material_name (StringDatabase.material model) /\
  In (gaugeMm s') (availableGauges s') /\
  headSizeSqIn s' = headSizeSqIn settings /\
  stringPattern s' = stringPattern settings /\
  stringLengthMm s' = stringLengthMm settings.

(** A session that listens, with two agreeing readings. *)
Definition two_readings_hook : Hook :=
  frame_on 1200 441 (frame_on 800 440 listening_hook).

(** The settings after Babolat is chosen in the form. *)
Definition babolat_settings : TensionSettings :=
  handleBrandChange DEFAULT_SETTINGS "Babolat".

(** * Properties *)

(** ** The embedding on small inputs *)

Example parseFloat_examples :
  Js.parseFloat "1.25" = Some 1.25 /\ Js.parseFloat "100" = Some 100 /\
  Js.parseFloat "" = None /\ Js.parseFloat "abc" = None /\
  (exists q, Js.parseFloat " -12.5e-1x" = Some q /\ q == - 1.25).
Proof.
  repeat split; try reflexivity.
  eexists. split; [vm_compute; reflexivity|reflexivity].
Qed.

Example parseStringPattern_examples :
  parseStringPattern "16x19" = {| mains := 16; crosses := 19 |} /\
  parseStringPattern "18 x  20" = {| mains := 18; crosses := 20 |} /\
  parseStringPattern "18x20 " = {| mains := 16; crosses := 19 |} /\
  parseStringPattern "x20" = {| mains := 16; crosses := 19 |}.
Proof. repeat split; reflexivity. Qed.

Example crossStringMassLoadingFactor_examples :
  crossStringMassLoadingFactor 19 == 1 /\
  crossStringMassLoadingFactor 20 == 1.0015 /\
  crossStringMassLoadingFactor 16 == 0.9955.
Proof. repeat split; reflexivity. Qed.

(** The transform of [1; 2; 3; 4] is [10; -2 + 2i; -2; -2 - 2i], here to
    six decimal places on the rational runtime. *)
Example fft_four_points :
  let '(re, im) := fft (H := RationalMath) [1; 2; 3; 4] [0; 0; 0; 0] in
  map (fun x => Js.round (x * 1000000)) re
    = [10000000; -2000000; -2000000; -2000000]%Z /\
  map (fun x => Js.round (x * 1000000)) im
    = [0; 2000000; 0; -2000000]%Z.
Proof. vm_compute. split; reflexivity. Qed.

Example bit_reversal_of_eight :
  fst (bitrev_loop 7 8 1 0 [0; 1; 2; 3; 4; 5; 6; 7] (replicate 8 0))
  = [0; 4; 2; 6; 1; 5; 3; 7].
Proof. reflexivity. Qed.

Example lookup_examples :
  lookupLinearDensity "Luxilon" (Some "ALU Power"%string) 1.25 = Some (1.53 / 1000) /\
  lookupLinearDensity "Luxilon" (Some "ALU Power"%string) 1.1 = Some (1.53 / 1000) /\
  lookupLinearDensity "Luxilon" (Some "ALU Power"%string) 1.4 = Some (1.66 / 1000) /\
  lookupLinearDensity "Luxilon" (Some "ALU Powder"%string) 1.25 = None /\
  lookupLinearDensity "Luxilon" None 1.25 = None.
Proof. repeat split; vm_compute; reflexivity. Qed.

(** Four consistent readings, an outlier, and five more: the buffer is
    down to the outlier alone after the fifth estimate and the lock comes
    with the ninth. *)
Example outlier_reset :
  let h4 := feed example_loop [440; 441; 441; 441] (example_hook [] None) in
  let h5 := feed example_loop [500] h4 in
  let h8 := feed example_loop [501; 500; 499] h5 in
  let h9 := feed example_loop [500] h8 in
  lockReadingsRef h4 = [440; 441; 441; 441] /\ lockedRef h4 = false /\
  lockReadingsRef h5 = [500] /\ lockedRef h5 = false /\
  lockReadingsRef h8 = [500; 501; 500; 499] /\ lockedRef h8 = false /\
  lockedRef h9 = true /\ status (state h9) = locked /\
  frequency (state h9) = Some (round1 (average [500; 501; 500; 499; 500])).
Proof. vm_compute. repeat split; reflexivity. Qed.

(** A session: start, the stream is granted, a silent frame, reset, stop. *)
Example session_example :
  let h1 := run (H := RationalMath)
              [StartCall None true; StartGranted {| sampleRate := 48000 |};
               Frame 1000 silent_buffer] in
  status (state h1) = listening /\ lastDetectionRef h1 = 1000 /\
  rafIdRef h1 <> None /\
  status (state (step h1 ResetCall)) = listening /\
  step (step h1 ResetCall) StopCall = initial.
Proof. vm_compute. repeat split; try reflexivity; discriminate. Qed.

(** ** Comparisons, floor and rounding *)

Lemma ltb_lt (x y : Q) : (x <? y) = true <-> x < y.
Proof. unfold Js.ltb, Qlt. apply Z.ltb_lt. Qed.

Lemma ltb_ge (x y : Q) : (x <? y) = false <-> y <= x.
Proof. unfold Js.ltb, Qle. rewrite Z.ltb_ge. reflexivity. Qed.

Lemma leb_le (x y : Q) : (x <=? y) = true <-> x <= y.
Proof. apply Qle_bool_iff. Qed.

Lemma leb_gt (x y : Q) : (x <=? y) = false <-> y < x.
Proof.
  unfold Js.leb. split; intros Hxy.
  - apply Qnot_le_lt. intros Hle. apply Qle_bool_iff in Hle. congruence.
  - destruct (Qle_bool x y) eqn:E; [|reflexivity].
    apply Qle_bool_iff in E. exfalso. apply (Qlt_not_le _ _ Hxy E).
Qed.

Lemma eqb_eq (x y : Q) : (x =? y) = true <-> x == y.
Proof. apply Qeq_bool_iff. Qed.

Lemma neqb_true (x y : Q) : (x !=? y) = true <-> ~ x == y.
Proof.
  unfold Js.neqb. rewrite negb_true_iff. split.
  - intros E Heq. apply Qeq_bool_iff in Heq. congruence.
  - intros Hne. destruct (Qeq_bool x y) eqn:E; [|reflexivity].
    apply Qeq_bool_iff in E. contradiction.
Qed.

Lemma neqb_false (x y : Q) : (x !=? y) = false <-> x == y.
Proof. unfold Js.neqb. rewrite negb_false_iff. apply Qeq_bool_iff. Qed.

Lemma truthy_nonzero (f : Q) : Js.truthy f = true <-> ~ f == 0.
Proof. apply neqb_true. Qed.

Lemma floor_cases (v : Q) (a b : Z) :
  inject_Z a <= v -> v < inject_Z b -> (a <= Js.floor v < b)%Z.
Proof.
  intros Hlo Hhi. unfold Js.floor.
  pose proof (Qfloor_le v) as H1. pose proof (Qlt_floor v) as H2.
  split.
  - assert (Ha : (a < Qfloor v + 1)%Z)
      by (rewrite Zlt_Qlt; eapply Qle_lt_trans; eauto).
    lia.
  - rewrite Zlt_Qlt. eapply Qle_lt_trans; eauto.
Qed.

Lemma floor_between (v : Q) (n : Z) :
  inject_Z n <= v -> v < inject_Z (n + 1) -> Js.floor v = n.
Proof. intros Hlo Hhi. pose proof (floor_cases v n (n + 1) Hlo Hhi). lia. Qed.

Lemma round_between (x : Q) (k : Z) :
  inject_Z k - 0.5 <= x -> x < inject_Z k + 0.5 -> Js.round x = k.
Proof.
  intros Hlo Hhi. unfold Js.round.
  apply (floor_between (x + 0.5) k); [lra|].
  rewrite inject_Z_plus. change (inject_Z 1) with 1. lra.
Qed.

Lemma round1_nearest (x : Q) : nearest_tenth x (round1 x).
Proof.
  unfold nearest_tenth, round1, Js.round.
  exists (Qfloor (x * 10 + 0.5)). split; [reflexivity|].
  pose proof (Qfloor_le (x * 10 + 0.5)) as H1.
  pose proof (Qlt_floor (x * 10 + 0.5)) as H2.
  rewrite inject_Z_plus in H2.
  set (k := inject_Z (Qfloor (x * 10 + 0.5))) in *.
  change (inject_Z 1) with 1 in H2.
  clearbody k. div_consts. split; lra.
Qed.

Lemma round1_comp (x y : Q) : x == y -> round1 x = round1 y.
Proof.
  intros E. unfold round1, Js.round.
  rewrite (Qfloor_comp (x * 10 + 0.5) (y * 10 + 0.5)); [reflexivity|].
  rewrite E. reflexivity.
Qed.

(** ** normalizeGaugeMm *)

Lemma gauge_table (n : Z) :
  GAUGE_TO_MM !! n =
    if (n =? 15)%Z then Some 1.45
    else if (n =? 16)%Z then Some 1.30
    else if (n =? 17)%Z then Some 1.20
    else if (n =? 18)%Z then Some 1.10
    else if (n =? 19)%Z then Some 1.00
    else None.
Proof.
  unfold GAUGE_TO_MM.
  destruct (Z.eqb_spec n 15) as [->|?]; [reflexivity|].
  destruct (Z.eqb_spec n 16) as [->|?]; [reflexivity|].
  destruct (Z.eqb_spec n 17) as [->|?]; [reflexivity|].
  destruct (Z.eqb_spec n 18) as [->|?]; [reflexivity|].
  destruct (Z.eqb_spec n 19) as [->|?]; [reflexivity|].
  rewrite !lookup_insert_ne by lia.
  apply lookup_singleton_ne. lia.
Qed.

Lemma normalize_below_3 (v : Q) : v < 3 -> normalizeGaugeMm v = v.
Proof.
  intros Hv. unfold normalizeGaugeMm.
  apply ltb_lt in Hv. rewrite Hv. reflexivity.
Qed.

Lemma normalize_at_floor (v : Q) (n : Z) :
  3 <= v -> Js.floor v = n ->
  normalizeGaugeMm v =
    match defined_nonzero (GAUGE_TO_MM !! n) with
    | Some mm =>
        if v !=? inject_Z n then
          match defined_nonzero (GAUGE_TO_MM !! (n + 1)%Z) with
          | Some nextMm => mm + (nextMm - mm) * (v - inject_Z n)
          | None => mm
          end
        else mm
    | None => 1.25
    end.
Proof.
  intros Hv Hn. unfold normalizeGaugeMm.
  apply ltb_ge in Hv. rewrite Hv, Hn. reflexivity.
Qed.

(** C10. [normalizeGaugeMm] returns a value below 3 unchanged; for
    [15 <= v < 19] it returns the diameter tabulated for [floor v],
    moved toward the diameter of the next gauge in proportion to the
    fractional part of [v]; on [19, 20) it returns 1.00; and for every
    other value ([3 <= v < 15] or [20 <= v]) it returns 1.25. *)
Theorem normalizeGaugeMm_cases (v : Q) :
  (v < 3 -> normalizeGaugeMm v = v) /\
  (15 <= v /\ v < 19 ->
     exists mm nextMm,
       GAUGE_TO_MM !! Js.floor v = Some mm /\
       GAUGE_TO_MM !! (Js.floor v + 1)%Z = Some nextMm /\
       normalizeGaugeMm v == mm + (nextMm - mm) * (v - inject_Z (Js.floor v))) /\
  (19 <= v /\ v < 20 -> normalizeGaugeMm v == 1.00) /\
  ((3 <= v /\ v < 15) \/ 20 <= v -> normalizeGaugeMm v == 1.25).
Proof.
  split; [apply normalize_below_3|].
  split; [|split].
  - intros [Hlo Hhi].
    assert (H3 : 3 <= v) by lra.
    destruct (floor_cases v 15 19 Hlo Hhi) as [Ha Hb].
    rewrite (normalize_at_floor v (Js.floor v) H3 eq_refl).
    rewrite !gauge_table.
    assert (Hc : Js.floor v = 15%Z \/ Js.floor v = 16%Z \/ Js.floor v = 17%Z
                 \/ Js.floor v = 18%Z) by lia.
    destruct Hc as [E|[E|[E|E]]]; rewrite E;
      cbn [Z.eqb Z.add Pos.eqb Pos.add Pos.succ];
      (eexists; eexists; split; [reflexivity|]; split; [reflexivity|]);
      cbn [defined_nonzero];
      destruct (v !=? _) eqn:Hne.
    all: try reflexivity.
    all: apply neqb_false in Hne; rewrite Hne; vm_compute; reflexivity.
  - intros [Hlo Hhi].
    assert (H3 : 3 <= v) by lra.
    assert (E : Js.floor v = 19%Z)
      by (pose proof (floor_cases v 19 20 Hlo Hhi); lia).
    rewrite (normalize_at_floor v 19 H3 E).
    rewrite !gauge_table. cbn.
    destruct (v !=? _); reflexivity.
  - intros Hv.
    assert (H3 : 3 <= v) by lra.
    rewrite (normalize_at_floor v (Js.floor v) H3 eq_refl).
    rewrite gauge_table.
    assert (Hc : (Js.floor v < 15 \/ 20 <= Js.floor v)%Z).
    { destruct Hv as [[_ Hv]|Hv].
      - left. unfold Js.floor. rewrite Zlt_Qlt.
        eapply Qle_lt_trans; [apply Qfloor_le|exact Hv].
      - right. unfold Js.floor. rewrite <- (Qfloor_Z 20).
        apply Qfloor_resp_le. exact Hv. }
    destruct (Z.eqb_spec (Js.floor v) 15); [lia|].
    destruct (Z.eqb_spec (Js.floor v) 16); [lia|].
    destruct (Z.eqb_spec (Js.floor v) 17); [lia|].
    destruct (Z.eqb_spec (Js.floor v) 18); [lia|].
    destruct (Z.eqb_spec (Js.floor v) 19); [lia|].
    reflexivity.
Qed.

(** The four cases at 1.25 mm, gauge 16.5 ("16L"), 19.5 and 14. *)
Lemma normalizeGaugeMm_cases_witness :
  normalizeGaugeMm 1.25 = 1.25 /\
  normalizeGaugeMm 16.5 == 1.30 + (1.20 - 1.30) * (16.5 - 16) /\
  normalizeGaugeMm 19.5 == 1.00 /\
  normalizeGaugeMm 14 == 1.25.
Proof.
  split; [apply (normalizeGaugeMm_cases 1.25); reflexivity|].
  split.
  - destruct (normalizeGaugeMm_cases 16.5) as (_ & Hmid & _).
    destruct Hmid as (mm & nextMm & E1 & E2 & Hv).
    + split; [discriminate|reflexivity].
    + change (Js.floor 16.5) with 16%Z in *.
      vm_compute in E1. vm_compute in E2.
      injection E1 as <-. injection E2 as <-. exact Hv.
  - split.
    + apply (normalizeGaugeMm_cases 19.5). split; [discriminate|reflexivity].
    + apply (normalizeGaugeMm_cases 14). left. split; [discriminate|reflexivity].
Defined.

(** ** The consensus state machine *)

Section TickFacts.
Context `{Math}.

Lemma isConsistent_spec (readings : list Q) (f : Q) :
  isConsistent readings f = true <-> consistent_with readings f.
Proof.
  unfold isConsistent, consistent_with.
  rewrite orb_true_iff, forallb_forall, Forall_forall.
  split.
  - intros [Hlen|Hall].
    + left. apply Z.eqb_eq in Hlen. unfold Js.len in Hlen.
      destruct readings; [reflexivity|discriminate].
    + right. intros r Hr. apply ltb_lt. apply Hall.
      apply list_elem_of_In. exact Hr.
  - intros [->|Hall].
    + left. reflexivity.
    + right. intros r Hr. apply ltb_lt. apply Hall.
      apply list_elem_of_In. exact Hr.
Qed.

Lemma push_reading_consistent (readings : list Q) (f : Q) :
  consistent_with readings f -> push_reading readings f = readings ++ [f].
Proof.
  intros Hc. apply isConsistent_spec in Hc.
  unfold push_reading. rewrite Hc. reflexivity.
Qed.

Lemma push_reading_inconsistent (readings : list Q) (f : Q) :
  ~ consistent_with readings f -> push_reading readings f = [f].
Proof.
  intros Hc. unfold push_reading.
  destruct (isConsistent readings f) eqn:E; [|reflexivity].
  apply isConsistent_spec in E. contradiction.
Qed.

(** A tick that is due hands its estimate to [tick_freq]. *)
Lemma tick_due loop now data h :
  lockedRef h = false ->
  DETECTION_INTERVAL_MS <= now - lastDetectionRef h ->
  tick loop now data h =
  tick_freq loop (tick_estimate (snd loop) data) (set_lastDetection now h).
Proof.
  intros Hl Hdue. unfold tick. apply leb_le in Hdue.
  rewrite Hl, Hdue. reflexivity.
Qed.

(** An estimate that is not zero and not rejected is accepted. *)
Lemma tick_freq_accepted loop h f :
  ~ f == 0 -> not_rejected h f ->
  tick_freq loop (Some f) h = tick_accept loop f h.
Proof.
  intros Hf Hv. unfold tick_freq.
  apply truthy_nonzero in Hf. rewrite Hf.
  unfold not_rejected in Hv. destruct (validateRef h) as [v|]; [|reflexivity].
  rewrite Hv. reflexivity.
Qed.

Lemma lockReadingsRef_tick_accept loop f h :
  lockReadingsRef (tick_accept loop f h) = push_reading (lockReadingsRef h) f.
Proof.
  unfold tick_accept.
  destruct (LOCK_COUNT <=? _)%Z; reflexivity.
Qed.

(** C1. An estimate [f] that a tick processes (not zero, not rejected by
    the validator) is consistent if and only if the reading buffer is
    empty or every reading [r] in it satisfies [|r - f| / r < 0.03]; when
    it is consistent it is appended to the buffer, and when it is not the
    buffer is restarted with [f] alone. *)
Theorem consensus_update loop h f :
  ~ f == 0 ->
  not_rejected h f ->
  let readings := lockReadingsRef h in
  let h' := tick_freq loop (Some f) h in
  (isConsistent readings f = true <-> consistent_with readings f) /\
  (consistent_with readings f -> lockReadingsRef h' = readings ++ [f]) /\
  (~ consistent_with readings f -> lockReadingsRef h' = [f]).
Proof.
  intros Hf Hv readings h'. subst h'.
  rewrite (tick_freq_accepted loop h f Hf Hv).
  rewrite lockReadingsRef_tick_accept.
  split; [apply isConsistent_spec|].
  split; [apply push_reading_consistent|apply push_reading_inconsistent].
Qed.

Lemma fold_left_Qplus (l : list Q) (a : Q) :
  fold_left Qplus l a == a + fold_right Qplus 0 l.
Proof.
  revert a. induction l as [|x l IH]; intros a; cbn [fold_left fold_right].
  - ring.
  - rewrite IH. ring.
Qed.

Lemma average_mean (l : list Q) : average l == mean l.
Proof.
  unfold average, mean, Js.len. rewrite fold_left_Qplus.
  apply Qdiv_comp; [ring|reflexivity].
Qed.

Lemma tick_locked loop now data h :
  lockedRef h = true -> tick loop now data h = h.
Proof. intros Hl. unfold tick. rewrite Hl. reflexivity. Qed.

Lemma step_frame loop now data h :
  rafIdRef h = Some loop ->
  step h (Frame now data) = tick loop now data (set_rafId None h).
Proof. intros Hr. cbn [step]. rewrite Hr. reflexivity. Qed.

Lemma step_no_frame now data h :
  rafIdRef h = None -> step h (Frame now data) = h.
Proof. intros Hr. cbn [step]. rewrite Hr. reflexivity. Qed.

Lemma reset_clears h :
  lockedRef (reset h) = false /\
  lockReadingsRef (reset h) = [] /\
  status (state (reset h)) = listening.
Proof.
  unfold reset. cbn.
  destruct (analyserRef h), (audioContextRef h); cbn; auto.
Qed.

Lemma reset_restarts h analyser ctx :
  analyserRef h = Some analyser -> audioContextRef h = Some ctx ->
  rafIdRef (reset h) = Some (analyser, ctx).
Proof. intros Ha Hx. unfold reset. cbn. rewrite Ha, Hx. reflexivity. Qed.

(** C2. When an accepted reading [f] is appended to four buffered
    readings, the buffer reaches the lock count of 5: the hook is locked,
    the state is [locked], and the frequency reported is the arithmetic
    mean of the five readings rounded to one decimal place.  No frame is
    requested any more and a tick in the locked state does nothing, until
    [reset] clears the lock and the buffer and starts the loop again. *)
Theorem lock_transition loop h f r1 r2 r3 r4 :
  ~ f == 0 ->
  not_rejected h f ->
  lockReadingsRef h = [r1; r2; r3; r4] ->
  consistent_with [r1; r2; r3; r4] f ->
  rafIdRef h = None ->
  let h' := tick_freq loop (Some f) h in
  let readings := [r1; r2; r3; r4; f] in
  lockedRef h' = true /\
  status (state h') = locked /\
  lockReadingsRef h' = readings /\
  lockReadings (state h') = readings /\
  frequency (state h') = Some (round1 (mean readings)) /\
  mean readings == (r1 + r2 + r3 + r4 + f) / 5 /\
  nearest_tenth (mean readings) (round1 (mean readings)) /\
  rafIdRef h' = None /\
  (forall loop' now data, tick loop' now data h' = h') /\
  (forall now data, step h' (Frame now data) = h') /\
  lockedRef (reset h') = false /\
  lockReadingsRef (reset h') = [] /\
  status (state (reset h')) = listening /\
  (forall analyser ctx,
      analyserRef h = Some analyser -> audioContextRef h = Some ctx ->
      rafIdRef (reset h') = Some (analyser, ctx)).
Proof.
  intros Hf Hv Hr Hc Hraf h' readings.
  assert (Eh : h' = tick_accept loop f h)
    by (apply tick_freq_accepted; assumption).
  assert (Ep : push_reading (lockReadingsRef h) f = readings)
    by (rewrite Hr; apply push_reading_consistent; exact Hc).
  unfold tick_accept in Eh. rewrite Ep in Eh.
  change (LOCK_COUNT <=? Js.len readings)%Z with true in Eh.
  cbv iota in Eh.
  rewrite (round1_comp _ _ (average_mean readings)) in Eh.
  clearbody h'. subst h'.
  split; [reflexivity|]. split; [reflexivity|]. split; [reflexivity|].
  split; [reflexivity|]. split; [reflexivity|].
  split.
  { unfold mean, readings. cbn [fold_right length].
    change (inject_Z (Z.of_nat 5)) with 5. field. }
  split; [apply round1_nearest|].
  split; [exact Hraf|].
  split; [intros; apply tick_locked; reflexivity|].
  split; [intros; apply step_no_frame; exact Hraf|].
  split; [apply reset_clears|]. split; [apply reset_clears|].
  split; [apply reset_clears|].
  intros analyser ctx Ha Hx. apply reset_restarts; assumption.
Qed.


(** C6. An estimate that the configured validator rejects is shown (the
    frequency of the state becomes the estimate rounded to one decimal
    place) but the reading buffer, its snapshot in the state, the status
    and the lock flag stay as they were, and the next frame is
    requested. *)
Theorem rejected_estimate_shown loop h f validate :
  ~ f == 0 ->
  validateRef h = Some validate ->
  validate f = false ->
  let h' := tick_freq loop (Some f) h in
  frequency (state h') = Some (round1 f) /\
  lockReadingsRef h' = lockReadingsRef h /\
  lockReadings (state h') = lockReadings (state h) /\
  status (state h') = status (state h) /\
  lockedRef h' = lockedRef h /\
  rafIdRef h' = Some loop.
Proof.
  intros Hf Hv Hrej h'. subst h'. unfold tick_freq.
  apply truthy_nonzero in Hf.
  rewrite Hf, Hv, Hrej. cbn. repeat split; reflexivity.
Qed.

(** *** The buffer never holds more than five readings *)

Lemma push_reading_length (l : list Q) (f : Q) :
  (length (push_reading l f) <= S (length l))%nat.
Proof.
  unfold push_reading. destruct (isConsistent l f).
  - rewrite length_app. cbn. lia.
  - cbn. lia.
Qed.

Lemma push_reading_nonzero (l : list Q) (f : Q) :
  Forall (fun r => ~ r == 0) l -> ~ f == 0 ->
  Forall (fun r => ~ r == 0) (push_reading l f).
Proof.
  intros Hl Hf. unfold push_reading. destruct (isConsistent l f).
  - apply Forall_app. split; [exact Hl|]. constructor; [exact Hf|constructor].
  - constructor; [exact Hf|constructor].
Qed.

Lemma buffer_inv_tick_accept loop f h :
  buffer_inv h -> lockedRef h = false -> ~ f == 0 ->
  buffer_inv (tick_accept loop f h).
Proof.
  intros (H5 & H4 & Hs & Hnz) Hl Hf. specialize (H4 Hl).
  pose proof (push_reading_length (lockReadingsRef h) f) as Hp.
  pose proof (push_reading_nonzero (lockReadingsRef h) f Hnz Hf) as Hq.
  unfold tick_accept.
  destruct (Z.leb_spec LOCK_COUNT (Js.len (push_reading (lockReadingsRef h) f)))
    as [Hge|Hlt]; unfold buffer_inv; cbn.
  - split; [lia|]. split; [discriminate|]. split; [lia|exact Hq].
  - unfold LOCK_COUNT, Js.len in Hlt.
    split; [lia|]. split; [lia|]. split; [lia|exact Hq].
Qed.

Lemma buffer_inv_tick_freq loop freq h :
  buffer_inv h -> lockedRef h = false -> buffer_inv (tick_freq loop freq h).
Proof.
  intros Hi Hl. unfold tick_freq.
  destruct freq as [f|]; [|apply Hi].
  destruct (Js.truthy f) eqn:Hf; [|apply Hi].
  apply truthy_nonzero in Hf.
  pose proof (buffer_inv_tick_accept loop f h Hi Hl Hf) as Ha.
  destruct (validateRef h) as [v|]; [|exact Ha].
  destruct (v f); cbn [negb]; [exact Ha|].
  destruct Hi as (H5 & H4 & Hs & Hnz). repeat split; assumption.
Qed.

Lemma buffer_inv_tick loop now data h :
  buffer_inv h -> buffer_inv (tick loop now data h).
Proof.
  intros Hi. unfold tick.
  destruct (lockedRef h) eqn:Hl; [exact Hi|].
  destruct (DETECTION_INTERVAL_MS <=? _); [|apply Hi].
  apply buffer_inv_tick_freq; [apply Hi|exact Hl].
Qed.

Lemma buffer_inv_fresh s a st an r t v :
  (length (lockReadings s) <= 5)%nat ->
  buffer_inv {| state := s; audioContextRef := a; streamRef := st;
                analyserRef := an; rafIdRef := r; lockReadingsRef := [];
                lockedRef := false; lastDetectionRef := t; validateRef := v |}.
Proof.
  intros Hs. unfold buffer_inv. cbn.
  split; [lia|]. split; [lia|]. split; [exact Hs|constructor].
Qed.

Lemma buffer_inv_step h e : buffer_inv h -> buffer_inv (step h e).
Proof.
  intros Hi. destruct e as [now data| | |validate media|ctx|message]; cbn [step].
  - destruct (rafIdRef h); [|exact Hi].
    apply buffer_inv_tick. apply Hi.
  - apply buffer_inv_fresh. cbn. lia.
  - unfold reset. cbn.
    destruct (analyserRef h), (audioContextRef h);
      apply buffer_inv_fresh; cbn; lia.
  - unfold start_call.
    destruct validate, (negb media); apply buffer_inv_fresh; cbn; lia.
  - unfold start_granted. apply buffer_inv_fresh. cbn. lia.
  - destruct Hi as (H5 & H4 & Hs & Hnz). repeat split; assumption.
Qed.

Lemma buffer_inv_run_from (events : list event) (h : Hook) :
  buffer_inv h -> buffer_inv (fold_left step events h).
Proof.
  revert h. induction events as [|e events IH]; intros h Hi; cbn [fold_left].
  - exact Hi.
  - apply IH. apply buffer_inv_step. exact Hi.
Qed.

Lemma buffer_inv_run (events : list event) : buffer_inv (run events).
Proof. apply buffer_inv_run_from. apply buffer_inv_fresh. cbn. lia. Qed.

(** C9. After any sequence of frames, stops, resets and starts from the
    initial state, the reading buffer of the hook holds at most 5
    readings, and so does the snapshot of it in the React state. *)
Theorem lock_buffer_bounded (events : list event) :
  (length (lockReadingsRef (run events)) <= 5)%nat /\
  (length (lockReadings (state (run events))) <= 5)%nat.
Proof.
  destruct (buffer_inv_run events) as (H5 & _ & Hs & _).
  split; assumption.
Qed.

(** No reading of the buffer is zero: the consistency test never divides
    by zero. *)
Lemma readings_nonzero (events : list event) :
  Forall (fun r => ~ r == 0) (lockReadingsRef (run events)).
Proof. apply buffer_inv_run. Qed.

End TickFacts.

(** Two readings and a third within 3% of both. *)
Lemma consensus_update_witness :
  lockReadingsRef
    (tick_freq example_loop (Some 442) (example_hook [440; 441] None))
  = [440; 441; 442].
Proof.
  destruct (consensus_update example_loop
              (example_hook [440; 441] None) 442) as (_ & Happend & _).
  - discriminate.
  - exact I.
  - apply Happend. apply isConsistent_spec.
    vm_compute. reflexivity.
Defined.

(** Four readings around 440 Hz and a fifth: the lock is at 441.0. *)
Lemma lock_transition_witness :
  let h' := tick_freq example_loop (Some 442)
              (example_hook [440; 441; 441; 441] None) in
  lockedRef h' = true /\ frequency (state h') = Some (round1 (mean [440; 441; 441; 441; 442])).
Proof.
  destruct (@lock_transition RationalMath example_loop
              (example_hook [440; 441; 441; 441] None) 442 440 441 441 441)
    as (Hlocked & _ & _ & _ & Hfreq & _).
  - discriminate.
  - exact I.
  - reflexivity.
  - apply isConsistent_spec. vm_compute. reflexivity.
  - reflexivity.
  - split; [exact Hlocked|exact Hfreq].
Defined.


(** A validator that rejects everything. *)
Lemma rejected_estimate_shown_witness :
  let h' := tick_freq example_loop (Some 442.26)
              (example_hook [440; 441] (Some (fun _ => false))) in
  frequency (state h') = Some (round1 442.26) /\
  lockReadingsRef h' = [440; 441].
Proof.
  destruct (rejected_estimate_shown example_loop
              (example_hook [440; 441] (Some (fun _ => false))) 442.26
              (fun _ => false)) as (Hfreq & Hbuf & _).
  - discriminate.
  - reflexivity.
  - reflexivity.
  - split; [exact Hfreq|exact Hbuf].
Defined.

(** ** The signal window selector *)

Section ArgMax.
Variable score : Z -> Q.

(** A scan that replaces its best on strict improvement ends on the first
    index of the highest score, if a score exceeds the initial one. *)
Lemma improve_fold (l : list Z) (best : Z * Q) :
  let r := fold_left (improve score) l best in
  snd best <= snd r /\
  (forall i, In i l -> score i <= snd r) /\
  (r = best \/
   exists l1 l2, l = l1 ++ fst r :: l2 /\ snd r = score (fst r) /\
     snd best < snd r /\ forall i, In i l1 -> score i < snd r).
Proof.
  revert best. induction l as [|x l IH]; intros best; cbn [fold_left].
  - split; [apply Qle_refl|]. split; [intros i []|]. left. reflexivity.
  - destruct (IH (improve score best x)) as (Hle & Hall & Hcase).
    set (r := fold_left (improve score) l (improve score best x)) in *.
    clearbody r.
    unfold improve in Hle, Hcase.
    destruct (snd best <? score x) eqn:E; cbn [snd fst] in *.
    + apply ltb_lt in E.
      assert (Hlt : snd best < snd r) by (eapply Qlt_le_trans; eauto).
      split; [apply Qlt_le_weak; exact Hlt|].
      split; [intros i [<-|Hi]; [exact Hle|apply Hall; exact Hi]|].
      right. destruct Hcase as [->|(l1 & l2 & -> & Hs & Hlt' & Hl1)].
      * exists [], l. cbn. repeat split; try assumption. intros i [].
      * exists (x :: l1), l2. cbn [app]. repeat split; try assumption.
        intros i [<-|Hi]; [exact Hlt'|apply Hl1; exact Hi].
    + apply ltb_ge in E.
      split; [exact Hle|].
      split; [intros i [<-|Hi]; [eapply Qle_trans; eauto|apply Hall; exact Hi]|].
      destruct Hcase as [->|(l1 & l2 & -> & Hs & Hlt' & Hl1)];
        [left; reflexivity|].
      right. exists (x :: l1), l2. cbn [app]. repeat split; try assumption.
      intros i [<-|Hi]; [eapply Qle_lt_trans; eauto|apply Hl1; exact Hi].
Qed.

End ArgMax.

Section WindowFacts.
Context `{Math}.

Lemma scan_fold (fuel : nat) (buf : list Q) (off : Z) (best : Z * Q) :
  scan fuel buf off best =
  fold_left (improve (chunk_rms buf)) (offsets_from fuel off) best.
Proof.
  revert off best. induction fuel as [|fuel IH]; intros off best; cbn.
  - reflexivity.
  - destruct (0 <=? off)%Z; [|reflexivity]. cbn [fold_left]. apply IH.
Qed.

Lemma offsets_from_sound (fuel : nat) (off o : Z) :
  In o (offsets_from fuel off) ->
  (0 <= o <= off)%Z /\ ((off - o) mod 4096 = 0)%Z.
Proof.
  revert off. induction fuel as [|fuel IH]; intros off; cbn; [intros []|].
  destruct (Z.leb_spec 0 off) as [Hoff|Hoff]; [|intros []].
  intros [<-|Hin].
  - split; [lia|]. rewrite Z.sub_diag. reflexivity.
  - destruct (IH _ Hin) as [Hr Hm]. split; [lia|].
    replace (off - o)%Z with (off - 4096 - o + 1 * 4096)%Z by lia.
    rewrite Z.mod_add by lia. exact Hm.
Qed.

(** The fuel of the scan is enough: the loop ends on its own test. *)
Lemma offsets_from_complete (fuel : nat) (off o : Z) :
  (0 <= o <= off)%Z -> ((off - o) mod 4096 = 0)%Z ->
  (off - o < 4096 * Z.of_nat fuel)%Z ->
  In o (offsets_from fuel off).
Proof.
  revert off. induction fuel as [|fuel IH]; intros off Hr Hm Hf; [lia|].
  cbn [offsets_from].
  destruct (Z.leb_spec 0 off) as [Hoff|Hoff]; [|lia].
  destruct (Z.eq_dec o off) as [->|Hne]; [left; reflexivity|].
  right.
  assert (Hd : (off - o = 4096 * ((off - o) / 4096))%Z).
  { pose proof (Z.div_mod (off - o) 4096). lia. }
  apply IH; try lia.
  replace (off - 4096 - o)%Z with (off - o + (-1) * 4096)%Z by lia.
  rewrite Z.mod_add by lia. exact Hm.
Qed.

Lemma scan_offsets_spec (buf : list Q) (o : Z) :
  In o (scan_offsets buf) <->
  (0 <= o <= first_offset buf)%Z /\ ((first_offset buf - o) mod 4096 = 0)%Z.
Proof.
  unfold scan_offsets. split.
  - apply offsets_from_sound.
  - intros [Hr Hm]. apply offsets_from_complete; try assumption.
    set (s := first_offset buf) in *.
    assert (0 <= s)%Z by lia.
    pose proof (Z.div_mod s 4096). pose proof (Z.mod_pos_bound s 4096).
    assert (0 <= s / 4096)%Z by (apply Z.div_pos; lia).
    lia.
Qed.

(** Offsets are visited from the highest to the lowest. *)
Lemma offsets_from_split (fuel : nat) (off b : Z) (l1 l2 : list Z) :
  offsets_from fuel off = l1 ++ b :: l2 ->
  forall o, In o (offsets_from fuel off) -> (b < o)%Z -> In o l1.
Proof.
  revert off l1. induction fuel as [|fuel IH]; intros off l1; cbn.
  - destruct l1; discriminate.
  - destruct (0 <=? off)%Z; [|destruct l1; discriminate].
    destruct l1 as [|a l1]; cbn [app]; intros E; injection E as -> E.
    + intros o [<-|Hin] Hlt; [lia|].
      apply offsets_from_sound in Hin. lia.
    + intros o [<-|Hin] Hlt; [left; reflexivity|].
      right. eapply IH; eauto.
Qed.

Lemma select_window_fold (buf : list Q) :
  select_window buf =
  fold_left (improve (chunk_rms buf)) (scan_offsets buf) (first_offset buf, 0).
Proof. unfold select_window, scan_offsets. apply scan_fold. Qed.

(** C3, as the code has it.  The selector scans the offsets
    [first, first - 4096, ...] down to the last one that is not
    negative, where [first = max 0 (len - 16384)]; at each offset it
    computes the RMS of the chunk of [min 4096 (len - off)] samples that
    starts there ([chunk_rms], not the RMS of the 16384-sample window); it
    keeps the offset of the highest chunk RMS, replacing only on strict
    improvement, so that among equal chunks the highest offset wins; and
    when no chunk has a positive RMS it keeps the first offset with an
    RMS of 0. *)
Theorem select_window_loudest_chunk (buf : list Q) :
  let bestOffset := fst (select_window buf) in
  let bestRms := snd (select_window buf) in
  (forall o, In o (scan_offsets buf) <->
     (0 <= o <= first_offset buf)%Z /\
     ((first_offset buf - o) mod 4096 = 0)%Z) /\
  (forall o, In o (scan_offsets buf) -> chunk_rms buf o <= bestRms) /\
  ((exists o, In o (scan_offsets buf) /\ 0 < chunk_rms buf o) ->
     In bestOffset (scan_offsets buf) /\
     bestRms = chunk_rms buf bestOffset /\
     forall o, In o (scan_offsets buf) -> (bestOffset < o)%Z ->
               chunk_rms buf o < bestRms) /\
  ((forall o, In o (scan_offsets buf) -> chunk_rms buf o <= 0) ->
     bestOffset = first_offset buf /\ bestRms = 0).
Proof.
  intros bestOffset bestRms. subst bestOffset bestRms.
  rewrite select_window_fold.
  pose proof (improve_fold (chunk_rms buf) (scan_offsets buf)
                (first_offset buf, 0)) as (Hle & Hall & Hcase).
  cbn [snd fst] in *.
  set (r := fold_left _ _ _) in *. clearbody r.
  split; [apply scan_offsets_spec|].
  split; [exact Hall|].
  split.
  - intros (o & Hin & Hpos).
    destruct Hcase as [->|(l1 & l2 & E & Hs & Hlt & Hl1)].
    + exfalso. cbn [snd] in Hall. apply (Qlt_not_le _ _ Hpos). apply Hall, Hin.
    + split; [rewrite E; apply in_or_app; right; left; reflexivity|].
      split; [exact Hs|].
      intros o' Hin' Hlt'. apply Hl1.
      eapply offsets_from_split; eauto.
  - intros Hnone.
    destruct Hcase as [->|(l1 & l2 & E & Hs & Hlt & Hl1)]; [split; reflexivity|].
    exfalso. apply (Qlt_not_le _ _ Hlt). rewrite Hs. apply Hnone.
    rewrite E. apply in_or_app. right. left. reflexivity.
Qed.

End WindowFacts.

(** On [loud_start_buffer] the offsets are 16384, 12288, 8192, 4096, 0
    and the chunk at 0 is the loudest. *)
Lemma select_window_loudest_chunk_witness :
  scan_offsets loud_start_buffer = [16384; 12288; 8192; 4096; 0]%Z /\
  fst (select_window loud_start_buffer) = 0%Z /\
  snd (select_window loud_start_buffer) = chunk_rms loud_start_buffer 0 /\
  forall o, In o (scan_offsets loud_start_buffer) -> (0 < o)%Z ->
            chunk_rms loud_start_buffer o < snd (select_window loud_start_buffer).
Proof.
  split; [vm_compute; reflexivity|].
  split; [vm_compute; reflexivity|].
  destruct (@select_window_loudest_chunk RationalMath loud_start_buffer)
    as (_ & _ & Hsome & _).
  destruct Hsome as (_ & Hrms & Hties).
  - exists 0%Z. split; [vm_compute; tauto|vm_compute; reflexivity].
  - split; [exact Hrms|].
    intros o Hin Hpos. apply Hties; [exact Hin|].
    change (fst (select_window loud_start_buffer)) with 0%Z. exact Hpos.
Defined.

(** C3, as the specification has it, fails on [loud_start_buffer]: the
    selector keeps the offset 0, whose 16384-sample window is quieter
    than the window at the candidate offset 12288, and the RMS it keeps is
    not the RMS of the window at 0. *)
Lemma loud_start_buffer_misjudged :
  Js.len loud_start_buffer = 32768%Z /\
  fst (select_window loud_start_buffer) = 0%Z /\
  In 12288%Z (scan_offsets loud_start_buffer) /\
  window_rms loud_start_buffer 0 < window_rms loud_start_buffer 12288 /\
  ~ snd (select_window loud_start_buffer) == window_rms loud_start_buffer 0.
Proof.
  split; [vm_compute; reflexivity|].
  split; [vm_compute; reflexivity|].
  split; [vm_compute; tauto|].
  split; [vm_compute; reflexivity|].
  vm_compute. discriminate.
Qed.

(** ** The spectral estimator *)

Section DetectFacts.
Context `{Math}.

Lemma peak_search_fold (re im : list Q) (l : list Z) (m0 : Q) (i0 : Z) :
  fold_left (peak_step re im) l (m0, i0) =
  (snd (fold_left (improve (power re im)) l (i0, m0)),
   fst (fold_left (improve (power re im)) l (i0, m0))).
Proof.
  revert m0 i0. induction l as [|x l IH]; intros m0 i0; cbn [fold_left].
  - reflexivity.
  - unfold peak_step at 2, improve at 2 4. cbn [fst snd].
    destruct (m0 <? power re im x); apply IH.
Qed.

(** For a sample rate up to 6553600 Hz the band starts above bin 0, and
    from 1501 Hz on it ends below the last bin of the half spectrum: the
    peak has both its neighbours. *)
Lemma minBin_ge_1 (sr : Q) : 0 < sr -> sr <= 6553600 -> (1 <= minBin sr)%Z.
Proof.
  intros Hpos Hsr. unfold minBin, Js.floor.
  rewrite <- (Qfloor_Z 1). apply Qfloor_resp_le.
  apply Qle_shift_div_l; [exact Hpos|].
  change (200 * inject_Z fftSize) with 6553600.
  change (inject_Z 1) with 1. lra.
Qed.

Lemma maxBin_le (sr : Q) : 1501 <= sr -> (maxBin sr <= fftSize / 2 - 2)%Z.
Proof.
  intros Hsr. unfold maxBin, Js.ceil, Qceiling.
  change (fftSize / 2 - 2)%Z with 16382%Z.
  etransitivity; [apply Z.le_min_l|].
  assert (Hx : Qopp 16382 <= - ((750 * inject_Z fftSize) / sr)).
  { apply Qopp_le_compat. apply Qle_shift_div_r; [lra|].
    change (750 * inject_Z fftSize) with 24576000. lra. }
  apply Qfloor_resp_le in Hx.
  change (Qfloor (Qopp 16382)) with (-16382)%Z in Hx.
  lia.
Qed.

Lemma In_seqZ (k m n : Z) : In k (seqZ m n) <-> (m <= k < m + n)%Z.
Proof. rewrite <- list_elem_of_In. apply elem_of_seqZ. Qed.

Lemma parabolic_delta_eq (prev cur next : Q) :
  (if prev - 2 * cur + next !=? 0
   then 0.5 * (prev - next) / (prev - 2 * cur + next) else 0)
  = parabolic_delta prev cur next.
Proof.
  unfold parabolic_delta, Js.neqb, Js.eqb.
  destruct (Qeq_bool _ _); reflexivity.
Qed.

(** What [detect_peak] returns, by the position of the band. *)
Lemma detect_peak_cases (re im : list Q) (sr : Q) :
  (1 <= minBin sr)%Z -> (maxBin sr <= fftSize / 2 - 2)%Z ->
  match detect_peak re im sr with
  | None =>
      forall k, (minBin sr <= k <= maxBin sr)%Z -> power re im k <= 0
  | Some f =>
      exists peakBin,
        (minBin sr <= peakBin <= maxBin sr)%Z /\
        0 < power re im peakBin /\
        (forall k, (minBin sr <= k <= maxBin sr)%Z ->
                   power re im k <= power re im peakBin) /\
        f = ((inject_Z peakBin
              + parabolic_delta (magnitude re im (peakBin - 1))
                  (magnitude re im peakBin) (magnitude re im (peakBin + 1)))
             * sr) / inject_Z fftSize
  end.
Proof.
  intros Hmin Hmax. unfold detect_peak, peak_search.
  rewrite peak_search_fold.
  pose proof (improve_fold (power re im)
                (seqZ (minBin sr) (maxBin sr - minBin sr + 1)) ((-1)%Z, 0))
    as (Hle & Hall & Hcase).
  set (r := fold_left _ _ _) in *. clearbody r.
  destruct r as [maxIndex maxMag]. cbn [fst snd] in *.
  destruct Hcase as [E|(l1 & l2 & E & Hs & Hlt & Hl1)].
  - injection E as -> ->. change (-1 <? 0)%Z with true. cbv iota.
    intros k Hk. apply Hall. apply In_seqZ. lia.
  - assert (Hin : In maxIndex (seqZ (minBin sr) (maxBin sr - minBin sr + 1)))
      by (rewrite E; apply in_or_app; right; left; reflexivity).
    apply In_seqZ in Hin.
    destruct (Z.ltb_spec maxIndex 0) as [Hneg|_]; [lia|].
    exists maxIndex.
    split; [lia|].
    split; [rewrite <- Hs; exact Hlt|].
    split; [intros k Hk; rewrite <- Hs; apply Hall; apply In_seqZ; lia|].
    unfold interpolate, magnitude.
    destruct (Z.ltb_spec 0 maxIndex) as [_|?]; [|lia].
    destruct (Z.ltb_spec maxIndex (fftSize / 2 - 1)) as [_|?];
      [|change (fftSize / 2 - 2)%Z with 16382%Z in Hmax;
        change (fftSize / 2 - 1)%Z with 16383%Z in *; lia].
    rewrite parabolic_delta_eq. rewrite <- Hs. reflexivity.
Qed.

Lemma parabolic_delta_cases (prev cur next : Q) :
  (~ prev - 2 * cur + next == 0 ->
   parabolic_delta prev cur next
   = 0.5 * (prev - next) / (prev - 2 * cur + next)) /\
  (prev - 2 * cur + next == 0 -> parabolic_delta prev cur next = 0).
Proof.
  unfold parabolic_delta. split.
  - intros Hne. apply neqb_true in Hne. unfold Js.neqb in Hne.
    apply negb_true_iff in Hne. unfold Js.eqb. rewrite Hne. reflexivity.
  - intros Hz. apply eqb_eq in Hz. rewrite Hz. reflexivity.
Qed.

(** C5. For every spectrum and every sample rate from 1501 Hz to
    6553600 Hz (the rates for which the band lies inside the half
    spectrum), an estimate that [detect_peak] returns is
    [(peakBin + delta) * sampleRate / F], where [peakBin] is a bin of
    highest power in the band and [delta] is
    [0.5 * (mag[i-1] - mag[i+1]) / (mag[i-1] - 2 * mag[i] + mag[i+1])] on
    the three magnitudes around it; when that denominator is zero,
    [delta] is 0 and the estimate is the frequency of the bin, for every
    spectrum.  ([detectFundamentalFrequency] is [detect_peak] on the
    spectrum of the windowed samples.) *)
Theorem detect_peak_parabolic (re im : list Q) (sr : Q) :
  1501 <= sr -> sr <= 6553600 ->
  match detect_peak re im sr with
  | None =>
      forall k, (minBin sr <= k <= maxBin sr)%Z -> power re im k <= 0
  | Some f =>
      exists peakBin,
        (minBin sr <= peakBin <= maxBin sr)%Z /\
        0 < power re im peakBin /\
        (forall k, (minBin sr <= k <= maxBin sr)%Z ->
                   power re im k <= power re im peakBin) /\
        let prev := magnitude re im (peakBin - 1) in
        let cur := magnitude re im peakBin in
        let next := magnitude re im (peakBin + 1) in
        f = ((inject_Z peakBin + parabolic_delta prev cur next) * sr)
            / inject_Z fftSize /\
        (~ prev - 2 * cur + next == 0 ->
         parabolic_delta prev cur next
         = 0.5 * (prev - next) / (prev - 2 * cur + next)) /\
        (prev - 2 * cur + next == 0 ->
         parabolic_delta prev cur next = 0 /\
         f == inject_Z peakBin * sr / inject_Z fftSize)
  end.
Proof.
  intros Hlo Hhi.
  assert (Hpos : 0 < sr) by lra.
  pose proof (detect_peak_cases re im sr (minBin_ge_1 sr Hpos Hhi)
                (maxBin_le sr Hlo)) as Hc.
  destruct (detect_peak re im sr) as [f|]; [|exact Hc].
  destruct Hc as (peakBin & Hband & Hpow & Hmax & Hf).
  exists peakBin.
  split; [exact Hband|]. split; [exact Hpow|]. split; [exact Hmax|].
  cbv zeta.
  split; [exact Hf|].
  split; [apply parabolic_delta_cases|].
  intros Hz. destruct (parabolic_delta_cases
                         (magnitude re im (peakBin - 1)) (magnitude re im peakBin)
                         (magnitude re im (peakBin + 1))) as [_ Hd].
  specialize (Hd Hz). split; [exact Hd|].
  rewrite Hf, Hd. apply Qdiv_comp; [|reflexivity]. ring.
Qed.

(** The same for [detectFundamentalFrequency], on the spectrum of the
    windowed samples. *)
Corollary detectFundamentalFrequency_parabolic (samples : list Q) (sr : Q) :
  1501 <= sr -> sr <= 6553600 ->
  let re := fst (spectrum samples) in
  let im := snd (spectrum samples) in
  match detectFundamentalFrequency samples sr with
  | None =>
      forall k, (minBin sr <= k <= maxBin sr)%Z -> power re im k <= 0
  | Some f =>
      exists peakBin,
        (minBin sr <= peakBin <= maxBin sr)%Z /\
        0 < power re im peakBin /\
        (forall k, (minBin sr <= k <= maxBin sr)%Z ->
                   power re im k <= power re im peakBin) /\
        f = ((inject_Z peakBin
              + parabolic_delta (magnitude re im (peakBin - 1))
                  (magnitude re im peakBin) (magnitude re im (peakBin + 1)))
             * sr) / inject_Z fftSize
  end.
Proof.
  intros Hlo Hhi re im. subst re im.
  assert (Hpos : 0 < sr) by lra.
  unfold detectFundamentalFrequency.
  destruct (spectrum samples) as [re im]. cbn [fst snd].
  apply detect_peak_cases; [apply minBin_ge_1; assumption|apply maxBin_le; exact Hlo].
Qed.

End DetectFacts.

(** A peak at bin 300 between the magnitudes 1 and 2: delta is 1/6 and
    the estimate is 439.7 Hz. *)
Example detect_peak_peaked :
  Js.len peaked_re = fftSize /\ Js.len zero_im = fftSize /\
  minBin 48000 = 136%Z /\ maxBin 48000 = 512%Z /\
  exists f, detect_peak peaked_re zero_im 48000 = Some f /\
            f == (300 + (1 # 6)) * 48000 / 32768.
Proof.
  split; [vm_compute; reflexivity|]. split; [vm_compute; reflexivity|].
  split; [reflexivity|]. split; [reflexivity|].
  eexists. split; [vm_compute; reflexivity|]. vm_compute. reflexivity.
Qed.

(** A plateau across the lower edge of the band: the peak is bin 136,
    the denominator is zero and the estimate is the frequency of the
    bin. *)
Example detect_peak_flat :
  exists f, detect_peak flat_re zero_im 48000 = Some f /\
            f == 136 * 48000 / 32768.
Proof.
  eexists. split; [vm_compute; reflexivity|]. vm_compute. reflexivity.
Qed.

Lemma detect_peak_parabolic_witness :
  exists f peakBin,
    detect_peak peaked_re zero_im 48000 = Some f /\
    (minBin 48000 <= peakBin <= maxBin 48000)%Z /\
    f = ((inject_Z peakBin
          + parabolic_delta (magnitude peaked_re zero_im (peakBin - 1))
              (magnitude peaked_re zero_im peakBin)
              (magnitude peaked_re zero_im (peakBin + 1)))
         * 48000) / inject_Z fftSize.
Proof.
  pose proof (@detect_peak_parabolic RationalMath peaked_re zero_im 48000) as Hd.
  destruct (detect_peak peaked_re zero_im 48000) as [f|] eqn:E.
  - destruct Hd as (peakBin & Hband & _ & _ & Hf & _).
    + discriminate.
    + discriminate.
    + exists f, peakBin. split; [reflexivity|]. split; [exact Hband|exact Hf].
  - exfalso. vm_compute in E. discriminate.
Defined.

(** ** The density lookup *)

Section LookupFacts.
Context `{Math}.

Lemma database_well_formed (e : StringModel) :
  In e STRING_DATABASE -> well_formed e = true.
Proof.
  assert (Hall : forallb well_formed STRING_DATABASE = true)
    by (vm_compute; reflexivity).
  rewrite forallb_forall in Hall. apply Hall.
Qed.

Lemma database_keys_unique (e : StringModel) :
  In e STRING_DATABASE -> find_entry (brand e) (Some (name e)) = Some e.
Proof.
  unfold STRING_DATABASE. cbn [In]. intros Hin.
  repeat (destruct Hin as [<-|Hin]; [vm_compute; reflexivity|]).
  destruct Hin.
Qed.

Lemma find_entry_in (b : string) (n : option string) (e : StringModel) :
  find_entry b n = Some e -> In e STRING_DATABASE.
Proof. unfold find_entry. intros Hf. apply find_some in Hf. apply Hf. Qed.

Lemma spaced_tail (a : Gauge) (t : list Gauge) :
  spaced (a :: t) = true -> spaced t = true.
Proof. destruct t; cbn; [reflexivity|]. intros Hs. apply andb_true_iff in Hs. apply Hs. Qed.

Lemma spaced_head (a : Gauge) (t : list Gauge) :
  spaced (a :: t) = true -> forall g, In g t -> mm a + 0.01 <= mm g.
Proof.
  revert a. induction t as [|b t IH]; intros a Hs g Hin; [destruct Hin|].
  cbn [spaced] in Hs. apply andb_true_iff in Hs. destruct Hs as [Hab Ht].
  apply leb_le in Hab. destruct Hin as [<-|Hin]; [exact Hab|].
  specialize (IH b Ht g Hin). lra.
Qed.

Lemma spaced_app_r (l1 l2 : list Gauge) :
  spaced (l1 ++ l2) = true -> spaced l2 = true.
Proof.
  induction l1 as [|a l1 IH]; cbn [app]; [auto|].
  intros Hs. apply IH. eapply spaced_tail; eauto.
Qed.

(** In a spaced list, what stands before is smaller. *)
Lemma spaced_before (l1 l2 : list Gauge) (a : Gauge) :
  spaced (l1 ++ a :: l2) = true -> forall g, In g l1 -> mm g + 0.01 <= mm a.
Proof.
  induction l1 as [|x l1 IH]; cbn [app]; intros Hs g Hin; [destruct Hin|].
  destruct Hin as [->|Hin].
  - apply (spaced_head g _ Hs). apply in_or_app. right. left. reflexivity.
  - apply IH; [eapply spaced_tail; eauto|exact Hin].
Qed.

Lemma insert_gauge_last (g : Gauge) (acc : list Gauge) :
  (forall x, In x acc -> mm x <= mm g) -> insert_gauge g acc = acc ++ [g].
Proof.
  induction acc as [|h t IH]; intros Hle; cbn; [reflexivity|].
  assert (E : (mm g <? mm h) = false) by (apply ltb_ge; apply Hle; left; reflexivity).
  rewrite E, IH; [reflexivity|].
  intros x Hx. apply Hle. right. exact Hx.
Qed.

Lemma sort_spaced_from (gs acc : list Gauge) :
  spaced gs = true ->
  (forall x g, In x acc -> In g gs -> mm x <= mm g) ->
  fold_left (fun acc g => insert_gauge g acc) gs acc = acc ++ gs.
Proof.
  revert acc. induction gs as [|g gs IH]; intros acc Hs Hle; cbn [fold_left].
  - rewrite app_nil_r. reflexivity.
  - rewrite insert_gauge_last by (intros x Hx; apply Hle; [exact Hx|left; reflexivity]).
    rewrite IH.
    + rewrite <- app_assoc. reflexivity.
    + eapply spaced_tail; eauto.
    + intros x g' Hx Hg'. apply in_app_or in Hx. destruct Hx as [Hx|[<-|[]]].
      * apply Hle; [exact Hx|right; exact Hg'].
      * pose proof (spaced_head g gs Hs g' Hg'). lra.
Qed.

Lemma sort_spaced (gs : list Gauge) : spaced gs = true -> sort_gauges gs = gs.
Proof.
  intros Hs. unfold sort_gauges. rewrite sort_spaced_from; [reflexivity|exact Hs|].
  intros x g [].
Qed.

Lemma near_far (x y q : Q) :
  x + 0.01 <= y -> Qabs (y - q) < 0.005 -> ~ Qabs (x - q) < 0.005.
Proof.
  intros Hxy Hy Hx.
  apply Qabs_Qlt_condition in Hy. apply Qabs_Qlt_condition in Hx. lra.
Qed.

Lemma exact_gauge_unique (gs : list Gauge) (g : Gauge) (q : Q) :
  spaced gs = true -> In g gs -> Qabs (mm g - q) < 0.005 ->
  exact_gauge gs q = Some g.
Proof.
  induction gs as [|h t IH]; intros Hs Hin Hnear; [destruct Hin|].
  unfold exact_gauge. cbn [find]. fold (exact_gauge t q).
  destruct Hin as [->|Hin].
  - apply ltb_lt in Hnear. unfold Js.abs. rewrite Hnear. reflexivity.
  - assert (Hfar : ~ Qabs (mm h - q) < 0.005).
    { apply (near_far _ (mm g)); [|exact Hnear]. eapply spaced_head; eauto. }
    destruct (Js.abs (mm h - q) <? 0.005) eqn:E.
    + apply ltb_lt in E. contradiction.
    + apply IH; [eapply spaced_tail; eauto|exact Hin|exact Hnear].
Qed.

Lemma exact_gauge_none (gs : list Gauge) (q : Q) :
  (forall g, In g gs -> 0.005 <= Qabs (mm g - q)) -> exact_gauge gs q = None.
Proof.
  intros Hfar. unfold exact_gauge.
  destruct (find _ gs) as [g|] eqn:E; [|reflexivity].
  apply find_some in E. destruct E as [Hin Hlt]. apply ltb_lt in Hlt.
  specialize (Hfar g Hin). unfold Js.abs in Hlt. lra.
Qed.

Lemma interpolate_between_found (l1 l2 : list Gauge) (a b : Gauge) (q : Q) :
  spaced (l1 ++ a :: b :: l2) = true -> mm a < q -> q <= mm b ->
  interpolate_between (l1 ++ a :: b :: l2) q = Some (linear_interpolation a b q).
Proof.
  intros Hs Ha Hb. induction l1 as [|x l1 IH]; cbn [app] in *.
  - cbn [interpolate_between].
    assert (E1 : (mm a <=? q) = true) by (apply leb_le; lra).
    assert (E2 : (q <=? mm b) = true) by (apply leb_le; exact Hb).
    rewrite E1, E2. reflexivity.
  - assert (Hx : forall y, In y (l1 ++ [a]) -> mm y <= mm a).
    { intros y Hy. apply in_app_or in Hy. destruct Hy as [Hy|[<-|[]]]; [|lra].
      pose proof (spaced_before l1 (b :: l2) a (spaced_tail _ _ Hs) y Hy). lra. }
    specialize (IH (spaced_tail _ _ Hs)).
    destruct l1 as [|y l1]; cbn [app] in *.
    + cbn [interpolate_between] in *.
      assert (E : (q <=? mm a) = false) by (apply leb_gt; exact Ha).
      rewrite E, andb_false_r. exact IH.
    + change (interpolate_between (x :: y :: l1 ++ a :: b :: l2) q)
        with (if (mm x <=? q) && (q <=? mm y)
              then Some (linear_interpolation x y q)
              else interpolate_between (y :: l1 ++ a :: b :: l2) q).
      assert (E : (q <=? mm y) = false).
      { apply leb_gt. specialize (Hx y (or_introl eq_refl)). lra. }
      rewrite E, andb_false_r. exact IH.
Qed.

Lemma last_gauge_app (g0 last : Gauge) (init : list Gauge) :
  last_gauge g0 (init ++ [last]) = last.
Proof. unfold last_gauge. apply last_last. Qed.




Lemma far_below (y q : Q) : y + 0.005 <= q -> 0.005 <= Qabs (y - q).
Proof.
  intros Hy. rewrite Qabs_neg by lra. lra.
Qed.

Lemma far_above (y q : Q) : q + 0.005 <= y -> 0.005 <= Qabs (y - q).
Proof.
  intros Hy. rewrite Qabs_pos by lra. lra.
Qed.

Lemma last_gauge_in (g0 : Gauge) (l : list Gauge) :
  l <> [] -> In (last_gauge g0 l) l.
Proof.
  unfold last_gauge. induction l as [|a l IH]; [congruence|].
  intros _. destruct l as [|b l]; [left; reflexivity|].
  right. apply IH. discriminate.
Qed.

Lemma spaced_last_max (l : list Gauge) (d x : Gauge) :
  spaced l = true -> In x l -> mm x <= mm (List.last l d).
Proof.
  induction l as [|h t IH]; intros Hs Hx; [destruct Hx|].
  destruct t as [|h' t].
  - destruct Hx as [->|[]]. cbn. lra.
  - change (List.last (h :: h' :: t) d) with (List.last (h' :: t) d).
    destruct Hx as [->|Hx]; [|apply IH; [eapply spaced_tail; eauto|exact Hx]].
    assert (Hin : In (List.last (h' :: t) d) (h' :: t))
      by (apply (last_gauge_in d (h' :: t)); discriminate).
    pose proof (spaced_head x _ Hs _ Hin). lra.
Qed.

Lemma interpolate_between_total (a d : Gauge) (t : list Gauge) (q : Q) :
  t <> [] -> mm a <= q -> q <= mm (List.last (a :: t) d) ->
  interpolate_between (a :: t) q <> None.
Proof.
  revert a. induction t as [|b t IH]; intros a Hne Ha Hlast; [congruence|].
  cbn [interpolate_between].
  destruct (mm a <=? q) eqn:E1; [|apply leb_gt in E1; lra].
  destruct (q <=? mm b) eqn:E2; cbn [andb]; [discriminate|].
  apply leb_gt in E2.
  destruct t as [|c t].
  - exfalso. cbn in Hlast. lra.
  - apply IH; [discriminate|lra|exact Hlast].
Qed.

Lemma entry_density_total (e : StringModel) (q : Q) :
  well_formed e = true -> entryLinearDensity e q <> None.
Proof.
  unfold well_formed, entryLinearDensity. intros Hwf.
  destruct (exact_gauge (gauges e) q) as [g|] eqn:Ex; [discriminate|].
  destruct (gauges e) as [|first rest] eqn:Eg; [discriminate|].
  rewrite (sort_spaced _ Hwf).
  destruct (q <? mm first) eqn:E1; [discriminate|].
  destruct (mm (last_gauge first (first :: rest)) <? q) eqn:E2; [discriminate|].
  apply ltb_ge in E1. apply ltb_ge in E2.
  destruct rest as [|b rest].
  - exfalso. cbn in E2.
    unfold exact_gauge in Ex. cbn [find] in Ex.
    assert (Hz : (Js.abs (mm first - q) <? 0.005) = true).
    { apply ltb_lt. unfold Js.abs. rewrite Qabs_pos by lra. lra. }
    rewrite Hz in Ex. discriminate.
  - apply (interpolate_between_total first first);
      [discriminate|exact E1|exact E2].
Qed.

Lemma lookup_in_table (e : StringModel) (q : Q) :
  In e STRING_DATABASE ->
  lookupLinearDensity (brand e) (Some (name e)) q = entryLinearDensity e q.
Proof.
  intros Hin. unfold lookupLinearDensity.
  rewrite (database_keys_unique e Hin). reflexivity.
Qed.

Lemma entry_near (e : StringModel) (q : Q) (g : Gauge) :
  well_formed e = true -> In g (gauges e) -> Qabs (mm g - q) < 0.005 ->
  entryLinearDensity e q = Some (linearDensityGM g / 1000).
Proof.
  unfold well_formed, entryLinearDensity. intros Hwf Hin Hnear.
  destruct (gauges e) as [|first rest] eqn:Eg; [discriminate|].
  rewrite (exact_gauge_unique _ g q Hwf Hin Hnear). reflexivity.
Qed.

Lemma entry_between (e : StringModel) (q : Q) l1 a b l2 :
  well_formed e = true -> gauges e = l1 ++ a :: b :: l2 ->
  mm a + 0.005 <= q -> q <= mm b - 0.005 ->
  entryLinearDensity e q = Some (linear_interpolation a b q).
Proof.
  unfold well_formed, entryLinearDensity. intros Hwf Eg Ha Hb.
  rewrite Eg in *.
  assert (Hs : spaced (l1 ++ a :: b :: l2) = true)
    by (destruct (l1 ++ a :: b :: l2); [discriminate|exact Hwf]).
  assert (Hl : forall g, In g (l1 ++ [a]) -> mm g <= mm a).
  { intros g Hg. apply in_app_or in Hg. destruct Hg as [Hg|[<-|[]]]; [|lra].
    pose proof (spaced_before l1 (b :: l2) a Hs g Hg). lra. }
  assert (Hr : forall g, In g (b :: l2) -> mm b <= mm g).
  { intros g [<-|Hg]; [lra|].
    pose proof (spaced_head b l2 (spaced_app_r (l1 ++ [a]) (b :: l2)
                 ltac:(rewrite <- app_assoc; exact Hs)) g Hg). lra. }
  assert (Hsplit : forall g, In g (l1 ++ a :: b :: l2) ->
                             In g (l1 ++ [a]) \/ In g (b :: l2)).
  { intros g Hg. apply in_app_or in Hg. destruct Hg as [Hg|[<-|Hg]].
    - left. apply in_or_app. left. exact Hg.
    - left. apply in_or_app. right. left. reflexivity.
    - right. exact Hg. }
  rewrite exact_gauge_none.
  2:{ intros g Hg. destruct (Hsplit g Hg) as [Hg'|Hg'].
      - apply far_below. specialize (Hl g Hg'). lra.
      - apply far_above. specialize (Hr g Hg'). lra. }
  rewrite (sort_spaced _ Hs).
  destruct (l1 ++ a :: b :: l2) as [|first rest] eqn:El;
    [destruct l1; discriminate|].
  assert (Hfirst : mm first <= mm a).
  { destruct l1 as [|x l1]; cbn [app] in El; injection El as -> _; [lra|].
    apply Hl. left. reflexivity. }
  assert (Hlast : mm b <= mm (last_gauge first (first :: rest))).
  { apply spaced_last_max; [exact Hs|].
    rewrite <- El. apply in_or_app. right. right. left. reflexivity. }
  assert (E1 : (q <? mm first) = false) by (apply ltb_ge; lra).
  assert (E2 : (mm (last_gauge first (first :: rest)) <? q) = false)
    by (apply ltb_ge; lra).
  rewrite E1, E2.
  rewrite <- El.
  apply interpolate_between_found; [rewrite El; exact Hs|lra|lra].
Qed.

Lemma entry_below (e : StringModel) (q : Q) first rest :
  well_formed e = true -> gauges e = first :: rest ->
  q <= mm first - 0.005 ->
  entryLinearDensity e q = Some (linearDensityGM first / 1000).
Proof.
  unfold well_formed, entryLinearDensity. intros Hwf Eg Hq.
  rewrite Eg in *.
  rewrite exact_gauge_none.
  2:{ intros g [<-|Hg]; apply far_above; [lra|].
      pose proof (spaced_head first rest Hwf g Hg). lra. }
  rewrite (sort_spaced _ Hwf).
  assert (E1 : (q <? mm first) = true) by (apply ltb_lt; lra).
  rewrite E1. reflexivity.
Qed.

Lemma entry_above (e : StringModel) (q : Q) init last :
  well_formed e = true -> gauges e = init ++ [last] ->
  mm last + 0.005 <= q ->
  entryLinearDensity e q = Some (linearDensityGM last / 1000).
Proof.
  unfold well_formed, entryLinearDensity. intros Hwf Eg Hq.
  rewrite Eg in *.
  assert (Hs : spaced (init ++ [last]) = true)
    by (destruct (init ++ [last]); [discriminate|exact Hwf]).
  assert (Hmax : forall g, In g (init ++ [last]) -> mm g <= mm last).
  { intros g Hg. apply in_app_or in Hg. destruct Hg as [Hg|[<-|[]]]; [|lra].
    pose proof (spaced_before init [] last Hs g Hg). lra. }
  rewrite exact_gauge_none.
  2:{ intros g Hg. apply far_below. specialize (Hmax g Hg). lra. }
  rewrite (sort_spaced _ Hs).
  destruct (init ++ [last]) as [|first rest] eqn:El;
    [destruct init; discriminate|].
  assert (E1 : (q <? mm first) = false).
  { apply ltb_ge. specialize (Hmax first (or_introl eq_refl)). lra. }
  assert (E3 : last_gauge first (first :: rest) = last)
    by (rewrite <- El; apply last_gauge_app).
  rewrite E1, E3.
  assert (E2 : (mm last <? q) = true) by (apply ltb_lt; lra).
  rewrite E2. reflexivity.
Qed.

Lemma cylinder_when_absent (settings : TensionSettings) (q : Q) :
  stringKey settings = EmptyString \/
  find_entry (fst (split_key (stringKey settings)))
             (snd (split_key (stringKey settings))) = None ->
  linearDensityOf settings q = cylinderDensity settings q.
Proof.
  unfold linearDensityOf. intros [->|Hnone]; [reflexivity|].
  destruct (negb _); [|reflexivity].
  destruct (split_key _) as [b n]. cbn [fst snd] in Hnone.
  unfold lookupLinearDensity. rewrite Hnone. reflexivity.
Qed.

Lemma table_when_present (settings : TensionSettings) (q : Q) (e : StringModel) :
  In e STRING_DATABASE ->
  stringKey settings <> EmptyString ->
  split_key (stringKey settings) = (brand e, Some (name e)) ->
  Some (linearDensityOf settings q)
  = lookupLinearDensity (brand e) (Some (name e)) q.
Proof.
  intros Hin Hkey Hsplit. unfold linearDensityOf.
  destruct (String.eqb_spec (stringKey settings) "") as [E|_]; [contradiction|].
  cbn [negb]. rewrite Hsplit.
  destruct (lookupLinearDensity _ _ q) as [d|] eqn:El; [reflexivity|].
  exfalso. rewrite (lookup_in_table e q Hin) in El.
  apply (entry_density_total e q (database_well_formed e Hin) El).
Qed.

(** C8, as the code has it.  For every string of the reference table and
    every queried gauge: a gauge within 0.005 mm of a tabulated gauge
    gets the tabulated density (the code's "exact match"); a gauge
    between two neighbouring tabulated gauges, at least 0.005 mm from
    both, gets the linear interpolation between them; a gauge at least
    0.005 mm below the smallest or above the largest tabulated gauge gets
    the density of that endpoint; the lookup never comes back empty, so
    [computeTension] takes the density of the table whenever the string
    key names a string of the table, and the solid-cylinder estimate only
    when the key is empty or names no string of the table. *)
Theorem lookup_precedence (e : StringModel) (q : Q) :
  In e STRING_DATABASE ->
  let result := lookupLinearDensity (brand e) (Some (name e)) q in
  (forall g, In g (gauges e) -> Qabs (mm g - q) < 0.005 ->
     result = Some (linearDensityGM g / 1000)) /\
  (forall l1 a b l2, gauges e = l1 ++ a :: b :: l2 ->
     mm a + 0.005 <= q -> q <= mm b - 0.005 ->
     result = Some (linear_interpolation a b q)) /\
  (forall first rest, gauges e = first :: rest ->
     q <= mm first - 0.005 ->
     result = Some (linearDensityGM first / 1000)) /\
  (forall init last, gauges e = init ++ [last] ->
     mm last + 0.005 <= q ->
     result = Some (linearDensityGM last / 1000)) /\
  result <> None /\
  (forall settings,
     stringKey settings <> EmptyString ->
     split_key (stringKey settings) = (brand e, Some (name e)) ->
     Some (linearDensityOf settings q) = result) /\
  (forall settings,
     stringKey settings = EmptyString \/
     find_entry (fst (split_key (stringKey settings)))
                (snd (split_key (stringKey settings))) = None ->
     linearDensityOf settings q = cylinderDensity settings q).
Proof.
  intros Hin result. subst result.
  pose proof (database_well_formed e Hin) as Hwf.
  rewrite (lookup_in_table e q Hin).
  split; [intros g; apply entry_near; exact Hwf|].
  split; [intros l1 a b l2; apply entry_between; exact Hwf|].
  split; [intros first rest; apply entry_below; exact Hwf|].
  split; [intros init last; apply entry_above; exact Hwf|].
  split; [apply entry_density_total; exact Hwf|].
  split.
  - intros settings Hkey Hsplit. rewrite <- (lookup_in_table e q Hin).
    apply table_when_present; assumption.
  - intros settings. apply cylinder_when_absent.
Qed.

End LookupFacts.

(** ALU Power is tabulated at 1.25 and 1.30 mm: at 1.27 mm the density is
    interpolated, and it is the density that [computeTension] uses. *)
Lemma lookup_precedence_witness :
  lookupLinearDensity "Luxilon" (Some "ALU Power"%string) 1.27
  = Some (linear_interpolation (G 1.25 1.53) (G 1.30 1.66) 1.27) /\
  Some (linearDensityOf (H := RationalMath) alu_power_settings 1.27)
  = lookupLinearDensity "Luxilon" (Some "ALU Power"%string) 1.27.
Proof.
  destruct (@lookup_precedence RationalMath alu_power 1.27)
    as (_ & Hbetween & _ & _ & _ & Hkey & _).
  - left. reflexivity.
  - split.
    + apply (Hbetween [] (G 1.25 1.53) (G 1.30 1.66) []).
      * reflexivity.
      * discriminate.
      * discriminate.
    + apply Hkey.
      * discriminate.
      * reflexivity.
Defined.

(** C8, as the specification has it, fails at 1.253 mm for ALU Power: the
    gauge lies between the tabulated 1.25 and 1.30 mm and is neither of
    them, yet the lookup returns the density tabulated for 1.25 mm, which
    is not the interpolated one. *)
Lemma alu_power_near_gauge_not_interpolated :
  In alu_power STRING_DATABASE /\
  1.25 < 1.253 /\ 1.253 < 1.30 /\ ~ 1.253 == 1.25 /\
  lookupLinearDensity "Luxilon" (Some "ALU Power"%string) 1.253
    = Some (1.53 / 1000) /\
  ~ 1.53 / 1000 == linear_interpolation (G 1.25 1.53) (G 1.30 1.66) 1.253.
Proof.
  split; [left; reflexivity|].
  split; [reflexivity|]. split; [reflexivity|].
  split; [discriminate|].
  split; [vm_compute; reflexivity|].
  vm_compute. discriminate.
Qed.

(** ** The example scenario *)

Section ExampleScenario.
Context `{Math}.
Hypothesis HPI : accurate_PI.
Hypothesis Hsqrt : accurate_sqrt.

Lemma example_density_bounds :
  0.0016935147 <= calculateLinearDensity 1.25 1380 /\
  calculateLinearDensity 1.25 1380 <= 0.0016935148.
Proof.
  destruct HPI as [Hlo Hhi]. unfold calculateLinearDensity.
  div_consts. split; lra.
Qed.

Lemma sqrt_between (x lo hi : Q) :
  0 <= x -> x <= 1 -> 0 <= lo -> 0 <= hi ->
  lo * lo <= x - 0.000000001 -> x + 0.000000001 <= hi * hi ->
  lo <= Math_sqrt x /\ Math_sqrt x <= hi.
Proof.
  intros Hx0 Hx1 Hlo0 Hhi0 Hlo Hhi.
  destruct (Hsqrt x Hx0 Hx1) as (Hs0 & Hs1 & Hs2).
  set (s := Math_sqrt x) in *. clearbody s.
  split.
  - destruct (Qlt_le_dec s lo) as [Hlt|Hge]; [|exact Hge].
    exfalso. assert (s * s < lo * lo) by nra. lra.
  - destruct (Qlt_le_dec hi s) as [Hlt|Hge]; [|exact Hge].
    exfalso. assert (hi * hi < s * s) by nra. lra.
Qed.

Lemma example_length_bounds :
  0.331317 <= estimateStringLength 100 /\ estimateStringLength 100 <= 0.331318.
Proof.
  destruct HPI as [Hlo Hhi]. unfold estimateStringLength.
  set (x := 100 * 0.00064516 * 1.45 / Math_PI).
  assert (Hx : 0.0297773168 <= x /\ x <= 0.0297773171).
  { subst x. split.
    - apply Qle_shift_div_l; [lra|]. lra.
    - apply Qle_shift_div_r; [lra|]. lra. }
  destruct (sqrt_between x 0.1725610 0.1725611) as [Hs1 Hs2]; lra.
Qed.

(** What [computeTension] makes of the settings of the example. *)
Lemma example_inputs :
  normalizeGaugeMm (Js.or_default (Js.parseFloat (gaugeMm DEFAULT_SETTINGS)) 1.25)
    = 1.25 /\
  linearDensityOf DEFAULT_SETTINGS 1.25 = calculateLinearDensity 1.25 1380 /\
  crossStringMassLoadingFactor
    (crosses (parseStringPattern (stringPattern DEFAULT_SETTINGS))) == 1 /\
  stringLengthOf DEFAULT_SETTINGS = estimateStringLength 100.
Proof.
  split; [vm_compute; reflexivity|].
  split; [reflexivity|].
  split; [vm_compute; reflexivity|].
  reflexivity.
Qed.

Lemma mult_between (a a1 a2 b b1 b2 : Q) :
  0 <= a1 -> a1 <= a -> a <= a2 -> 0 <= b1 -> b1 <= b -> b <= b2 ->
  a1 * b1 <= a * b /\ a * b <= a2 * b2.
Proof.
  intros Ha0 Ha1 Ha2 Hb0 Hb1 Hb2. split.
  - apply Qmult_le_compat_nonneg; split; assumption.
  - apply Qmult_le_compat_nonneg; split; try assumption; lra.
Qed.

Lemma example_tension :
  computeTension DEFAULT_SETTINGS 420
  = {| tensionNewtons := inject_Z 13117 / 100;
       tensionLbs := inject_Z 2949 / 100 |}.
Proof.
  destruct example_inputs as (Eg & Ed & Ec & El).
  destruct example_density_bounds as [Hd1 Hd2].
  destruct example_length_bounds as [Hl1 Hl2].
  unfold computeTension. rewrite Eg, Ed, El.
  set (mu := calculateLinearDensity 1.25 1380) in *.
  set (L := estimateStringLength 100) in *.
  set (c := crossStringMassLoadingFactor _) in *.
  clearbody mu L c.
  unfold calculateTension.
  assert (Hy : 131.1701 <= mu * c * (2 * L * 420) ^ 2 /\
               mu * c * (2 * L * 420) ^ 2 <= 131.1710).
  { rewrite Ec. change ((2 * L * 420) ^ 2) with ((2 * L * 420) * (2 * L * 420)).
    destruct (mult_between (2 * L * 420) 278.30628 278.30712
                (2 * L * 420) 278.30628 278.30712) as [Hq1 Hq2]; try lra.
    destruct (mult_between (mu * 1) 0.0016935147 0.0016935148
                ((2 * L * 420) * (2 * L * 420))
                (278.30628 * 278.30628) (278.30712 * 278.30712))
      as [Ht1 Ht2]; lra. }
  set (T := mu * c * (2 * L * 420) ^ 2) in *. clearbody T.
  f_equal; f_equal; f_equal; apply round_between;
    change (inject_Z 13117) with 13117; change (inject_Z 2949) with 2949; lra.
Qed.

(** C7, as the code has it.  For Polyester (1380 kg/m^3), a gauge of
    1.25 mm, a head of 100 sq in, the pattern 16x19 and 420.0 Hz, on a
    runtime whose pi and square root are accurate, the linear density is
    0.001694 kg/m to the last digit, the vibrating length of the head-size
    model is 0.3313 m to the last digit (not 0.2978 m), and the tension is
    131.17 N, that is 29.49 lbs, within 1 lb of 30.0 lbs. *)
Theorem example_scenario :
  Qabs (calculateLinearDensity 1.25 1380 - 0.001694) <= 0.0000005 /\
  Qabs (estimateStringLength 100 - 0.3313) <= 0.00005 /\
  linearDensityOf DEFAULT_SETTINGS 1.25 = calculateLinearDensity 1.25 1380 /\
  stringLengthOf DEFAULT_SETTINGS = estimateStringLength 100 /\
  tensionNewtons (computeTension DEFAULT_SETTINGS 420) == 131.17 /\
  tensionLbs (computeTension DEFAULT_SETTINGS 420) == 29.49 /\
  Qabs (tensionLbs (computeTension DEFAULT_SETTINGS 420) - 30.0) <= 1.
Proof.
  destruct example_density_bounds as [Hd1 Hd2].
  destruct example_length_bounds as [Hl1 Hl2].
  destruct example_inputs as (_ & Ed & _ & El).
  split; [apply Qabs_Qle_condition; split; lra|].
  split; [apply Qabs_Qle_condition; split; lra|].
  split; [exact Ed|]. split; [exact El|].
  rewrite example_tension. cbn [tensionNewtons tensionLbs].
  split; [reflexivity|]. split; [reflexivity|].
  vm_compute. discriminate.
Qed.

End ExampleScenario.

(** The rational runtime is accurate in this sense. *)
Lemma rational_PI_accurate : accurate_PI (H := RationalMath).
Proof. unfold accurate_PI. cbn. unfold RationalMathDefs.PI. split; lra. Qed.

Lemma rational_sqrt_accurate : accurate_sqrt (H := RationalMath).
Proof.
  intros x Hx0 Hx1. cbn [Math_sqrt RationalMath]. unfold RationalMathDefs.sqrt.
  set (N := Qfloor (x * inject_Z (10 ^ 24))).
  assert (HN1 : inject_Z N <= x * inject_Z (10 ^ 24)) by apply Qfloor_le.
  assert (HN2 : x * inject_Z (10 ^ 24) < inject_Z N + 1).
  { pose proof (Qlt_floor (x * inject_Z (10 ^ 24))) as Hf.
    rewrite inject_Z_plus in Hf. exact Hf. }
  assert (HN0 : (0 <= N)%Z).
  { subst N. rewrite <- (Qfloor_Z 0). apply Qfloor_resp_le.
    apply Qmult_le_0_compat; [exact Hx0|discriminate]. }
  assert (HNmax : (N <= 10 ^ 24)%Z).
  { subst N. rewrite <- (Qfloor_Z (10 ^ 24)) at 2. apply Qfloor_resp_le.
    rewrite <- (Qmult_1_l (inject_Z (10 ^ 24))) at 2.
    apply Qmult_le_compat_r; [exact Hx1|discriminate]. }
  pose proof (Z.sqrt_spec N HN0) as [Hr1 Hr2].
  assert (Hr0 : (0 <= Z.sqrt N)%Z) by apply Z.sqrt_nonneg.
  assert (Hrmax : (Z.sqrt N <= 10 ^ 12)%Z).
  { change (10 ^ 12)%Z with (Z.sqrt (10 ^ 24)). apply Z.sqrt_le_mono. exact HNmax. }
  set (r := Z.sqrt N) in *. clearbody r.
  assert (Q1 : inject_Z r * inject_Z r <= inject_Z N).
  { rewrite <- inject_Z_mult. rewrite <- Zle_Qle. exact Hr1. }
  assert (Q2 : inject_Z N + 1 <= inject_Z r * inject_Z r + 2 * inject_Z r + 1).
  { assert (Hz : (N + 1 <= r * r + 2 * r + 1)%Z) by lia.
    rewrite Zle_Qle in Hz.
    rewrite !inject_Z_plus, !inject_Z_mult in Hz. exact Hz. }
  assert (Q3 : inject_Z 0 <= inject_Z r) by (rewrite <- Zle_Qle; exact Hr0).
  change (inject_Z 0) with 0 in Q3.
  assert (Q4 : inject_Z r <= inject_Z (10 ^ 12)) by (rewrite <- Zle_Qle; exact Hrmax).
  clearbody N. set (R := inject_Z r) in *. set (n := inject_Z N) in *.
  clearbody R n.
  change (inject_Z (10 ^ 24)) with 1000000000000000000000000 in *.
  change (inject_Z (10 ^ 12)) with 1000000000000 in *.
  div_consts.
  set (RR := R * R) in *.
  assert (E : R * (1 # 1000000000000) * (R * (1 # 1000000000000))
              == RR * (1 # 1000000000000000000000000)) by (subst RR; ring).
  rewrite E. clearbody RR.
  split; [lra|]. split; lra.
Qed.

Lemma example_scenario_witness :
  Qabs (estimateStringLength (H := RationalMath) 100 - 0.3313) <= 0.00005 /\
  tensionLbs (computeTension (H := RationalMath) DEFAULT_SETTINGS 420) == 29.49.
Proof.
  destruct (@example_scenario RationalMath rational_PI_accurate
              rational_sqrt_accurate) as (_ & Hlen & _ & _ & _ & Hlbs & _).
  split; [exact Hlen|exact Hlbs].
Defined.

(** C7, as the specification has it, fails on the rational runtime, which
    is accurate: the vibrating length of a 100 sq in head is more than
    three centimetres away from 0.2978 m. *)
Lemma example_length_not_0_2978 :
  accurate_PI (H := RationalMath) /\
  accurate_sqrt (H := RationalMath) /\
  0.2978 + 0.03 < estimateStringLength (H := RationalMath) 100 /\
  ~ Qabs (estimateStringLength (H := RationalMath) 100 - 0.2978) <= 0.00005.
Proof.
  split; [exact rational_PI_accurate|].
  split; [exact rational_sqrt_accurate|].
  split; [vm_compute; reflexivity|].
  intros Habs. vm_compute in Habs. apply Habs. reflexivity.
Qed.

(** ** Invariants of the hook *)

Section HookInvariants.
Context `{Math}.

Lemma tick_tick_on loop now data h :
  tick loop now data h = tick_on loop now (tick_estimate (snd loop) data) h.
Proof. reflexivity. Qed.

Lemma reach_step h e : reach h -> reach (step h e).
Proof.
  intros Hr. destruct e as [now data| | |validate media|ctx|message]; cbn [step].
  - destruct (rafIdRef h) as [loop|] eqn:E; [|exact Hr].
    rewrite tick_tick_on. apply reach_frame; assumption.
  - apply reach_stop. exact Hr.
  - apply reach_reset. exact Hr.
  - apply reach_start_call. exact Hr.
  - apply reach_start_granted. exact Hr.
  - apply reach_start_failed. exact Hr.
Qed.

(** Every state of a run is a state of [reach]. *)
Lemma run_reach (events : list event) : reach (run events).
Proof.
  unfold run. generalize reach_initial. generalize initial.
  induction events as [|e events IH]; intros h Hr; cbn [fold_left].
  - exact Hr.
  - apply IH. apply reach_step. exact Hr.
Qed.

End HookInvariants.

Lemma round1_one_decimal (x : Q) : one_decimal (round1 x).
Proof. exists (Js.round (x * 10)). reflexivity. Qed.

Lemma push_reading_run (l : list Q) (f : Q) :
  consistent_run l -> consistent_run (push_reading l f).
Proof.
  intros Hl. unfold push_reading.
  destruct (isConsistent l f) eqn:E.
  - apply consistent_snoc; [exact Hl|].
    apply isConsistent_spec in E. destruct E as [->|E]; [constructor|exact E].
  - apply (consistent_snoc [] f); constructor.
Qed.

Lemma hook_inv_fresh s a st an r t v :
  lockReadings s = [] -> status s <> locked ->
  (forall q, frequency s = Some q -> one_decimal q) ->
  (error s <> None -> status s = idle) ->
  resources_coherent
    {| state := s; audioContextRef := a; streamRef := st;
       analyserRef := an; rafIdRef := r; lockReadingsRef := [];
       lockedRef := false; lastDetectionRef := t; validateRef := v |} ->
  hook_inv {| state := s; audioContextRef := a; streamRef := st;
              analyserRef := an; rafIdRef := r; lockReadingsRef := [];
              lockedRef := false; lastDetectionRef := t; validateRef := v |}.
Proof.
  intros Hs Hst Hf He Hres. unfold hook_inv. cbn.
  split; [apply buffer_inv_fresh; rewrite Hs; cbn; lia|].
  split; [exact Hs|]. split; [constructor|].
  split; [discriminate|]. split; [intros Hl; contradiction|].
  split; [exact Hf|]. split; [exact He|]. split; [exact Hres|discriminate].
Qed.

Lemma hook_inv_tick_accept loop f h :
  hook_inv h -> lockedRef h = false -> ~ f == 0 -> rafIdRef h = None ->
  analyserRef h = Some (fst loop) -> audioContextRef h = Some (snd loop) ->
  hook_inv (tick_accept loop f h).
Proof.
  intros (Hb & Hsnap & Hrun & Hfull & Hlocked & Hdec & Herr & Hres & Hstop) Hl Hf Hraf Ha Hc.
  pose proof (buffer_inv_tick_accept loop f h Hb Hl Hf) as Hb'.
  pose proof (push_reading_run (lockReadingsRef h) f Hrun) as Hrun'.
  pose proof (push_reading_length (lockReadingsRef h) f) as Hlen.
  destruct Hb as (_ & H4 & _). specialize (H4 Hl).
  assert (Hnl : status (state h) <> locked).
  { intros E. destruct (Hlocked E) as [E' _]. congruence. }
  destruct Hres as (Hr1 & Hr2 & Hr3).
  split; [exact Hb'|]. clear Hb'.
  unfold tick_accept.
  destruct (Z.leb_spec LOCK_COUNT (Js.len (push_reading (lockReadingsRef h) f)))
    as [Hge|Hlt]; cbn.
  - unfold LOCK_COUNT, Js.len in Hge.
    split; [reflexivity|]. split; [exact Hrun'|].
    split; [intros _; lia|]. split; [intros _; split; reflexivity|].
    split; [intros q E; injection E as <-; apply round1_one_decimal|].
    split; [intros E; contradiction|].
    split; [split; [exact Hr1|]; split; [exact Hr2|exact Hr3]|].
    intros _. exact Hraf.
  - split; [reflexivity|]. split; [exact Hrun'|].
    split; [intros E; congruence|]. split; [intros E; contradiction|].
    split; [intros q E; injection E as <-; apply round1_one_decimal|].
    split; [exact Herr|].
    split; [|intros E; congruence].
    split; [exact Hr1|]. split; [exact Hr2|].
    intros loop' E. injection E as <-. split; assumption.
Qed.

Lemma hook_inv_requestAnimationFrame loop h :
  hook_inv h -> lockedRef h = false ->
  analyserRef h = Some (fst loop) -> audioContextRef h = Some (snd loop) ->
  hook_inv (requestAnimationFrame loop h).
Proof.
  intros (Hb & Hsnap & Hrun & Hfull & Hlocked & Hdec & Herr & Hres & Hstop) Hl Ha Hc.
  destruct Hres as (Hr1 & Hr2 & Hr3).
  unfold hook_inv, resources_coherent. cbn.
  split; [destruct Hb as (H5 & H4 & Hs & Hnz); repeat split; assumption|].
  split; [exact Hsnap|]. split; [exact Hrun|]. split; [exact Hfull|].
  split; [exact Hlocked|]. split; [exact Hdec|]. split; [exact Herr|].
  split; [|intros E; congruence].
  split; [exact Hr1|]. split; [exact Hr2|].
  intros loop' E. injection E as <-. split; assumption.
Qed.

Lemma hook_inv_set_lastDetection t h : hook_inv h -> hook_inv (set_lastDetection t h).
Proof. intros Hi. exact Hi. Qed.

Lemma hook_inv_tick_freq loop freq h :
  hook_inv h -> lockedRef h = false -> rafIdRef h = None ->
  analyserRef h = Some (fst loop) -> audioContextRef h = Some (snd loop) ->
  hook_inv (tick_freq loop freq h).
Proof.
  intros Hi Hl Hnone Ha Hc. unfold tick_freq.
  pose proof (hook_inv_requestAnimationFrame loop h Hi Hl Ha Hc) as Hraf.
  destruct freq as [f|]; [|exact Hraf].
  destruct (Js.truthy f) eqn:Hf; [|exact Hraf].
  apply truthy_nonzero in Hf.
  pose proof (hook_inv_tick_accept loop f h Hi Hl Hf Hnone Ha Hc) as Hacc.
  destruct (validateRef h) as [v|]; [|exact Hacc].
  destruct (v f); cbn [negb]; [exact Hacc|].
  destruct Hi as (Hb & Hsnap & Hrun & Hfull & Hlocked & Hdec & Herr & Hres & Hstop).
  destruct Hres as (Hr1 & Hr2 & Hr3).
  assert (Hnl : status (state h) <> locked).
  { intros E. destruct (Hlocked E) as [E' _]. congruence. }
  unfold hook_inv, resources_coherent. cbn.
  split; [destruct Hb as (H5 & H4 & Hs & Hnz); repeat split; assumption|].
  split; [exact Hsnap|]. split; [exact Hrun|]. split; [exact Hfull|].
  split; [intros E; contradiction|].
  split; [intros q E; injection E as <-; apply round1_one_decimal|].
  split; [exact Herr|].
  split; [|intros E; congruence].
  split; [exact Hr1|]. split; [exact Hr2|].
  intros loop' E. injection E as <-. split; assumption.
Qed.

Lemma hook_inv_tick_on loop now freq h :
  hook_inv h -> rafIdRef h = Some loop ->
  hook_inv (tick_on loop now freq (set_rafId None h)).
Proof.
  intros Hi Hraf.
  assert (Hloop : analyserRef h = Some (fst loop) /\
                  audioContextRef h = Some (snd loop)).
  { destruct Hi as (_ & _ & _ & _ & _ & _ & _ & (_ & _ & Hr3) & _). apply Hr3, Hraf. }
  destruct Hloop as [Ha Hc].
  assert (Hi0 : hook_inv (set_rafId None h)).
  { destruct Hi as (Hb & Hsnap & Hrun & Hfull & Hlocked & Hdec & Herr & Hres & Hstop).
    destruct Hres as (Hr1 & Hr2 & Hr3).
    unfold hook_inv, resources_coherent. cbn.
    split; [destruct Hb as (H5 & H4 & Hs & Hnz); repeat split; assumption|].
    split; [exact Hsnap|]. split; [exact Hrun|]. split; [exact Hfull|].
    split; [exact Hlocked|]. split; [exact Hdec|]. split; [exact Herr|].
    split; [|reflexivity].
    split; [exact Hr1|]. split; [exact Hr2|]. intros loop' E. discriminate. }
  unfold tick_on. cbn [lockedRef set_rafId lastDetectionRef].
  destruct (lockedRef h) eqn:Hl; [exact Hi0|].
  destruct (DETECTION_INTERVAL_MS <=? _).
  - apply hook_inv_tick_freq; [exact Hi0|exact Hl|reflexivity|exact Ha|exact Hc].
  - apply hook_inv_requestAnimationFrame; [exact Hi0|exact Hl|exact Ha|exact Hc].
Qed.

Lemma hook_inv_reach (h0 : Hook) : reach h0 -> hook_inv h0.
Proof.
  induction 1 as [|h loop now freq Hr IH Hraf|h Hr IH|h Hr IH
                  |h validate media Hr IH|h ctx Hr IH|h message Hr IH].
  - apply hook_inv_fresh; fresh_side.
    unfold resources_coherent. cbn. repeat split; try discriminate; try tauto.
  - apply hook_inv_tick_on; assumption.
  - apply hook_inv_fresh; fresh_side.
    unfold resources_coherent. cbn. repeat split; try discriminate; try tauto.
  - destruct IH as (Hb & Hsnap & Hrun & Hfull & Hlocked & Hdec & Herr & Hres & Hstop).
    destruct Hres as (Hr1 & Hr2 & Hr3).
    unfold reset. cbn.
    destruct (analyserRef h) as [an|] eqn:Ea, (audioContextRef h) as [cx|] eqn:Ec;
      apply hook_inv_fresh; cbn; try discriminate; try reflexivity;
      try (intros E; contradiction);
      unfold resources_coherent; cbn; rewrite ?Ea, ?Ec.
    + split; [exact Hr1|]. split; [exact Hr2|].
      intros loop' E. injection E as <-. split; reflexivity.
    + split; [exact Hr1|]. split; [exact Hr2|exact Hr3].
    + split; [exact Hr1|]. split; [exact Hr2|exact Hr3].
    + split; [exact Hr1|]. split; [exact Hr2|exact Hr3].
  - unfold start_call.
    destruct validate, (negb media); apply hook_inv_fresh; cbn;
      try discriminate; try reflexivity; try (intros E; contradiction);
      unfold resources_coherent; cbn; repeat split; try discriminate; try tauto;
      intros E; contradiction.
  - unfold start_granted. apply hook_inv_fresh; cbn;
      try discriminate; try reflexivity; try (intros E; contradiction).
    unfold resources_coherent. cbn.
    repeat split; try discriminate; try tauto; intros; simplify_eq; reflexivity.
  - destruct IH as (Hb & Hsnap & Hrun & Hfull & Hlocked & Hdec & Herr & Hres & Hstop).
    unfold hook_inv. cbn.
    split; [destruct Hb as (H5 & H4 & Hs & Hnz); repeat split; assumption|].
    split; [exact Hsnap|]. split; [exact Hrun|]. split; [exact Hfull|].
    split; [discriminate|]. split; [exact Hdec|].
    split; [reflexivity|]. split; [exact Hres|exact Hstop].
Qed.



(** ** What holds in every state of the hook *)

Lemma reach_frame_on now f h : reach h -> reach (frame_on now f h).
Proof.
  intros Hr. unfold frame_on. destruct (rafIdRef h) as [loop|] eqn:E.
  - apply reach_frame; assumption.
  - exact Hr.
Qed.

Lemma reach_listening_hook : reach listening_hook.
Proof.
  unfold listening_hook.
  apply reach_start_granted, reach_start_call, reach_initial.
Qed.

Lemma reach_locked_hook : reach locked_hook.
Proof.
  unfold locked_hook. do 5 apply reach_frame_on. apply reach_listening_hook.
Qed.

Lemma locked_hook_buffer :
  lockReadingsRef locked_hook = [440; 441; 441; 441; 442] /\
  lockedRef locked_hook = true /\ status (state locked_hook) = locked.
Proof. vm_compute. repeat split. Qed.

Lemma consistent_run_pairs (l : list Q) :
  consistent_run l ->
  forall (i j : nat) (r f : Q),
    (i < j)%nat -> l !! i = Some r -> l !! j = Some f -> within_tolerance f r.
Proof.
  induction 1 as [|l f Hl IH Hf]; intros i j r g Hij Hi Hj.
  - rewrite lookup_nil in Hi. discriminate.
  - assert (Hjl : (j < length (l ++ [f]))%nat) by (apply lookup_lt_is_Some; eauto).
    rewrite length_app in Hjl. cbn in Hjl.
    assert (Hil : (i < length l)%nat) by lia.
    rewrite lookup_app_l in Hi by exact Hil.
    destruct (decide (j < length l)%nat) as [Hj'|Hj'].
    + rewrite lookup_app_l in Hj by exact Hj'. exact (IH i j r g Hij Hi Hj).
    + assert (j = length l) as -> by lia.
      rewrite lookup_app_r in Hj by lia.
      rewrite Nat.sub_diag in Hj. cbn in Hj. injection Hj as <-.
      exact (Forall_lookup_1 _ _ _ _ Hf Hi).
Qed.

(** X1.  The list of readings that the component is given
    ([state.lockReadings], whose length is the progress shown) is the
    buffer of the hook in every state. *)
Theorem snapshot_is_buffer (h : Hook) :
  reach h -> lockReadings (state h) = lockReadingsRef h.
Proof. intros Hr. apply (hook_inv_reach h Hr). Qed.

Lemma snapshot_is_buffer_witness :
  reach locked_hook /\
  lockReadings (state locked_hook) = lockReadingsRef locked_hook.
Proof.
  split; [apply reach_locked_hook|].
  apply (snapshot_is_buffer locked_hook). apply reach_locked_hook.
Defined.

(** X2.  In every state the buffer is a run of agreeing readings: each
    reading is within 3% of every later one, relative to the earlier. *)
Theorem buffer_pairwise_consistent (h : Hook) (i j : nat) (r f : Q) :
  reach h -> (i < j)%nat ->
  lockReadingsRef h !! i = Some r -> lockReadingsRef h !! j = Some f ->
  Qabs (r - f) / r < 0.03.
Proof.
  intros Hr Hij Hi Hj.
  destruct (hook_inv_reach h Hr) as (_ & _ & Hrun & _).
  exact (consistent_run_pairs _ Hrun i j r f Hij Hi Hj).
Qed.

Lemma buffer_pairwise_consistent_witness :
  reach locked_hook /\ (0 < 4)%nat /\
  lockReadingsRef locked_hook !! 0%nat = Some 440 /\
  lockReadingsRef locked_hook !! 4%nat = Some 442 /\
  Qabs (440 - 442) / 440 < 0.03.
Proof.
  split; [apply reach_locked_hook|]. split; [lia|].
  split; [reflexivity|]. split; [reflexivity|].
  apply (buffer_pairwise_consistent locked_hook 0 4 440 442);
    [apply reach_locked_hook|lia|reflexivity|reflexivity].
Defined.

(** X3.  The hook is locked exactly when the buffer holds five readings;
    before that it holds at most four. *)
Theorem locked_iff_five_readings (h : Hook) :
  reach h ->
  (lockedRef h = true <-> length (lockReadingsRef h) = 5%nat) /\
  (lockedRef h = false -> (length (lockReadingsRef h) <= 4)%nat).
Proof.
  intros Hr.
  destruct (hook_inv_reach h Hr) as ((_ & H4 & _) & _ & _ & Hfull & _).
  split; [split|exact H4].
  - exact Hfull.
  - intros H5. destruct (lockedRef h); [reflexivity|].
    specialize (H4 eq_refl). lia.
Qed.

Lemma locked_iff_five_readings_witness :
  reach locked_hook /\
  (lockedRef locked_hook = true <->
   length (lockReadingsRef locked_hook) = 5%nat).
Proof.
  split; [apply reach_locked_hook|].
  apply (locked_iff_five_readings locked_hook). apply reach_locked_hook.
Defined.

(** X4.  When the status is [locked], the frequency shown is the mean of
    the five readings shown, rounded to one decimal, and the loop has
    been locked. *)
Theorem locked_status_shows_mean (h : Hook) :
  reach h -> status (state h) = locked ->
  lockedRef h = true /\
  length (lockReadings (state h)) = 5%nat /\
  frequency (state h) = Some (round1 (average (lockReadings (state h)))) /\
  average (lockReadings (state h)) == mean (lockReadings (state h)).
Proof.
  intros Hr Hs.
  destruct (hook_inv_reach h Hr) as (_ & Hsnap & _ & Hfull & Hlocked & _).
  destruct (Hlocked Hs) as [Hl Hf].
  rewrite Hsnap.
  split; [exact Hl|]. split; [exact (Hfull Hl)|].
  split; [exact Hf|apply average_mean].
Qed.

Lemma locked_status_shows_mean_witness :
  reach locked_hook /\ status (state locked_hook) = locked /\
  frequency (state locked_hook) =
    Some (round1 (average (lockReadings (state locked_hook)))).
Proof.
  split; [apply reach_locked_hook|]. split; [reflexivity|].
  apply (locked_status_shows_mean locked_hook);
    [apply reach_locked_hook|reflexivity].
Defined.

(** X5.  A frequency that the hook reports has one decimal: it is a
    multiple of 0.1, whether it is a single estimate or the locked mean. *)
Theorem reported_frequency_one_decimal (h : Hook) (q : Q) :
  reach h -> frequency (state h) = Some q -> exists k : Z, q = inject_Z k / 10.
Proof.
  intros Hr Hq.
  destruct (hook_inv_reach h Hr) as (_ & _ & _ & _ & _ & Hdec & _).
  exact (Hdec q Hq).
Qed.

Lemma reported_frequency_one_decimal_witness :
  reach locked_hook /\
  exists q, frequency (state locked_hook) = Some q /\
            exists k : Z, q = inject_Z k / 10.
Proof.
  split; [apply reach_locked_hook|].
  exists (round1 (average (lockReadingsRef locked_hook))).
  split; [reflexivity|].
  apply (reported_frequency_one_decimal locked_hook);
    [apply reach_locked_hook|reflexivity].
Defined.

(** X6.  An error message is reported only with the status [idle]: while
    the hook is requesting, listening or locked there is none. *)
Theorem error_only_when_idle (h : Hook) (message : string) :
  reach h -> error (state h) = Some message -> status (state h) = idle.
Proof.
  intros Hr He.
  destruct (hook_inv_reach h Hr) as (_ & _ & _ & _ & _ & _ & Herr & _).
  apply Herr. rewrite He. discriminate.
Qed.

Lemma error_only_when_idle_witness :
  let h := start_failed "Permission denied"%string listening_hook in
  reach h /\ error (state h) = Some "Permission denied"%string /\
  status (state h) = idle.
Proof.
  split; [apply reach_start_failed, reach_listening_hook|].
  split; [reflexivity|].
  apply (error_only_when_idle _ "Permission denied"%string);
    [apply reach_start_failed, reach_listening_hook|reflexivity].
Defined.





(** ** Throttling and the way to the lock *)

Lemma lastDetectionRef_tick_freq loop freq h :
  lastDetectionRef (tick_freq loop freq h) = lastDetectionRef h.
Proof.
  unfold tick_freq, tick_accept.
  destruct freq as [f|]; [|reflexivity].
  destruct (Js.truthy f); [|reflexivity].
  destruct (validateRef h) as [v|]; [destruct (v f); cbn [negb]|];
    try reflexivity;
    destruct (LOCK_COUNT <=? _)%Z; reflexivity.
Qed.

Section Throttle.
Context `{Math}.

(** X9.  Detections are at least 350 ms apart: after a frame at [now] on
    which a detection was due, a frame less than 350 ms later changes
    neither the state reported nor the buffer, the lock or the time of the
    last detection, and (unless locked) only asks for the next frame. *)
Theorem detection_throttled (loop : AnalyserNode * AudioContext)
    (now now' : Q) (data data' : list Q) (h : Hook) :
  DETECTION_INTERVAL_MS <= now - lastDetectionRef h ->
  now' - now < DETECTION_INTERVAL_MS ->
  let h1 := tick loop now data h in
  let h2 := tick loop now' data' (set_rafId None h1) in
  state h2 = state h1 /\ lockReadingsRef h2 = lockReadingsRef h1 /\
  lockedRef h2 = lockedRef h1 /\ lastDetectionRef h2 = lastDetectionRef h1 /\
  (lockedRef h1 = false -> rafIdRef h2 = Some loop).
Proof.
  intros Hdue Hsoon h1 h2.
  assert (Hlast : lockedRef h1 = false -> lastDetectionRef h1 = now).
  { unfold h1, tick. destruct (lockedRef h) eqn:Hl; [congruence|].
    apply leb_le in Hdue. rewrite Hdue.
    rewrite lastDetectionRef_tick_freq. reflexivity. }
  clearbody h1. unfold h2, tick. cbn [lockedRef set_rafId lastDetectionRef].
  destruct (lockedRef h1) eqn:Hl1.
  - cbn. repeat split; try reflexivity; congruence.
  - rewrite (Hlast eq_refl).
    assert (Hnot : (DETECTION_INTERVAL_MS <=? now' - now) = false)
      by (apply leb_gt; exact Hsoon).
    rewrite Hnot. cbn.
    repeat split; try reflexivity; try (apply Hlast; reflexivity); congruence.
Qed.

End Throttle.

Lemma detection_throttled_witness :
  let h := example_hook [440] None in
  let h1 := tick example_loop 1000 silent_buffer h in
  let h2 := tick example_loop 1200 silent_buffer (set_rafId None h1) in
  DETECTION_INTERVAL_MS <= 1000 - lastDetectionRef h /\
  1200 - 1000 < DETECTION_INTERVAL_MS /\
  state h2 = state h1 /\ lockReadingsRef h2 = lockReadingsRef h1.
Proof.
  split; [vm_compute; discriminate|]. split; [reflexivity|].
  pose proof (@detection_throttled RationalMath example_loop 1000 1200
                silent_buffer silent_buffer (example_hook [440] None)) as Ht.
  cbv zeta in Ht.
  destruct Ht as (Hs & Hb & _); [vm_compute; discriminate|reflexivity|].
  split; [exact Hs|exact Hb].
Defined.

(** One accepted and agreeing estimate on a frame on which a detection
    is due. *)
Lemma tick_on_agreeing loop now f h :
  lockedRef h = false ->
  DETECTION_INTERVAL_MS <= now - lastDetectionRef h ->
  ~ f == 0 -> not_rejected h f ->
  isConsistent (lockReadingsRef h) f = true ->
  let h1 := tick_on loop now (Some f) (set_rafId None h) in
  lockReadingsRef h1 = lockReadingsRef h ++ [f] /\
  lockReadings (state h1) = lockReadingsRef h ++ [f] /\
  validateRef h1 = validateRef h /\
  ((length (lockReadingsRef h) < 4)%nat ->
     lockedRef h1 = false /\ lastDetectionRef h1 = now) /\
  (length (lockReadingsRef h) = 4%nat ->
     lockedRef h1 = true /\ status (state h1) = locked /\
     frequency (state h1) = Some (round1 (average (lockReadingsRef h ++ [f])))).
Proof.
  intros Hl Hdue Hf Hv Hc h1. unfold h1, tick_on.
  cbn [lockedRef set_rafId lastDetectionRef]. rewrite Hl.
  apply leb_le in Hdue. rewrite Hdue.
  rewrite tick_freq_accepted; [|exact Hf|exact Hv].
  unfold tick_accept. cbn [lockReadingsRef set_lastDetection set_rafId].
  unfold push_reading. rewrite Hc.
  unfold Js.len, LOCK_COUNT. rewrite length_app. cbn [length].
  destruct (Z.leb_spec 5 (Z.of_nat (length (lockReadingsRef h) + 1))) as [H5|H5];
    cbn; repeat split; try reflexivity; intros; try lia; exact Hl.
Qed.

Lemma detections_agreeing loop (l : list (Q * Q)) :
  forall h : Hook,
    lockedRef h = false ->
    (length (lockReadingsRef h) <= 4)%nat ->
    (length (lockReadingsRef h) + length l <= 5)%nat ->
    due_times (lastDetectionRef h) (map fst l) ->
    Forall (fun f => ~ f == 0 /\ not_rejected h f) (map snd l) ->
    agreeing (lockReadingsRef h) (map snd l) = true ->
    (forall k : nat,
       (length (lockReadingsRef h) + k < 5)%nat -> (k <= length l)%nat ->
       lockedRef (detections loop (take k l) h) = false /\
       lockReadingsRef (detections loop (take k l) h) =
         lockReadingsRef h ++ map snd (take k l)) /\
    ((length (lockReadingsRef h) + length l = 5)%nat ->
     let h' := detections loop l h in
     lockedRef h' = true /\ status (state h') = locked /\
     lockReadings (state h') = lockReadingsRef h ++ map snd l /\
     frequency (state h') =
       Some (round1 (average (lockReadingsRef h ++ map snd l)))).
Proof.
  induction l as [|[now f] l IH]; intros h Hl H4 H5 Hdue Hok Hag.
  - cbn [length] in *. split.
    + intros k Hk Hk0. assert (k = 0%nat) as -> by lia. cbn.
      rewrite app_nil_r. split; [exact Hl|reflexivity].
    + intros E. lia.
  - cbn [map fst snd due_times agreeing length] in *.
    destruct Hdue as [Hnow Hdue].
    apply Forall_cons in Hok. destruct Hok as [[Hf Hv] Hok].
    apply andb_true_iff in Hag. destruct Hag as [Hc Hag].
    pose proof (tick_on_agreeing loop now f h Hl Hnow Hf Hv Hc) as Hstep.
    cbv zeta in Hstep.
    destruct Hstep as (Hbuf & Hsnap & Hval & Hless & Hfour).
    set (h1 := tick_on loop now (Some f) (set_rafId None h)) in *.
    destruct (decide (length (lockReadingsRef h) = 4%nat)) as [E4|E4].
    + assert (l = []) as -> by (destruct l; [reflexivity|cbn in H5; lia]).
      destruct (Hfour E4) as (Hl1 & Hs1 & Hf1).
      split.
      * intros k Hk Hk1. assert (k = 0%nat) as -> by lia. cbn.
        rewrite app_nil_r. split; [exact Hl|reflexivity].
      * intros _. cbn. fold h1.
        split; [exact Hl1|]. split; [exact Hs1|].
        split; [exact Hsnap|exact Hf1].
    + destruct Hless as [Hl1 Ht1]; [lia|].
      assert (Hok1 : Forall (fun f => ~ f == 0 /\ not_rejected h1 f) (map snd l)).
      { eapply Forall_impl; [exact Hok|]. intros g [Hg Hvg].
        split; [exact Hg|]. unfold not_rejected in *. rewrite Hval. exact Hvg. }
      specialize (IH h1 Hl1).
      rewrite Hbuf, Ht1, length_app in IH. cbn [length] in IH.
      destruct IH as [IHk IH5]; [lia|lia|exact Hdue|exact Hok1|exact Hag|].
      split.
      * intros [|k] Hk Hkl.
        -- cbn. rewrite app_nil_r. split; [exact Hl|reflexivity].
        -- cbn [take detections fold_left fst snd map]. fold h1.
           change (fold_left _ (take k l) h1) with (detections loop (take k l) h1).
           destruct (IHk k) as [Ha Hb]; [lia|lia|].
           split; [exact Ha|]. rewrite Hb, <- app_assoc. reflexivity.
      * intros E5. cbn [detections fold_left fst snd]. fold h1.
        change (fold_left _ l h1) with (detections loop l h1).
        destruct IH5 as (Ha & Hb & Hc' & Hd); [lia|].
        split; [exact Ha|]. split; [exact Hb|].
        rewrite <- !app_assoc in Hc', Hd. split; [exact Hc'|exact Hd].
Qed.

(** X10.  Five agreeing estimates lock, and not before the fifth.  From
    an empty buffer, five detections that are due, whose estimates are
    non-zero, pass the validator and each agree with those before, leave
    the hook unlocked with the estimates so far in the buffer after each of
    the first four, and locked after the fifth, with their mean to one
    decimal as the frequency. *)
Theorem five_agreeing_estimates_lock (loop : AnalyserNode * AudioContext)
    (l : list (Q * Q)) (h : Hook) :
  lockedRef h = false -> lockReadingsRef h = [] -> length l = 5%nat ->
  due_times (lastDetectionRef h) (map fst l) ->
  Forall (fun f => ~ f == 0 /\ not_rejected h f) (map snd l) ->
  agreeing [] (map snd l) = true ->
  (forall k : nat, (k < 5)%nat ->
     lockedRef (detections loop (take k l) h) = false /\
     lockReadingsRef (detections loop (take k l) h) = map snd (take k l)) /\
  lockedRef (detections loop l h) = true /\
  status (state (detections loop l h)) = locked /\
  lockReadings (state (detections loop l h)) = map snd l /\
  frequency (state (detections loop l h)) =
    Some (round1 (average (map snd l))).
Proof.
  intros Hl Hb H5 Hdue Hok Hag.
  pose proof (detections_agreeing loop l h Hl) as Hd.
  rewrite Hb in Hd. cbn [length app] in Hd.
  destruct Hd as [Hk Hfull]; [lia|lia|exact Hdue|exact Hok|exact Hag|].
  split.
  - intros k Hk5. apply Hk; lia.
  - apply Hfull. lia.
Qed.

Lemma five_agreeing_estimates_lock_witness :
  let h := example_hook [] None in
  lockedRef h = false /\ lockReadingsRef h = [] /\
  length five_detections = 5%nat /\
  agreeing [] (map snd five_detections) = true /\
  lockedRef (detections example_loop five_detections h) = true /\
  frequency (state (detections example_loop five_detections h)) =
    Some (round1 (average (map snd five_detections))).
Proof.
  split; [reflexivity|]. split; [reflexivity|]. split; [reflexivity|].
  split; [reflexivity|].
  destruct (five_agreeing_estimates_lock example_loop five_detections
              (example_hook [] None)) as (_ & Hl & _ & _ & Hf);
    [reflexivity|reflexivity|reflexivity| |
     |reflexivity|split; [exact Hl|exact Hf]].
  - vm_compute. repeat split; discriminate.
  - repeat constructor; try exact I; vm_compute; discriminate.
Defined.

(** ** The analysis window and the spectrum *)

Lemma zeros_get (a : list Q) (i : Z) : zeros a -> Js.get a i == 0.
Proof.
  intros Ha. unfold Js.get.
  destruct (nth_in_or_default (Z.to_nat i) a 0) as [Hin| ->]; [|reflexivity].
  unfold zeros in Ha. rewrite List.Forall_forall in Ha. apply Ha, Hin.
Qed.

Lemma zeros_set (a : list Q) (i : Z) (v : Q) :
  zeros a -> v == 0 -> zeros (Js.set a i v).
Proof. intros Ha Hv. unfold Js.set. apply Forall_insert; assumption. Qed.

Lemma zeros_swap (a : list Q) (i j : Z) : zeros a -> zeros (swap a i j).
Proof.
  intros Ha. unfold swap.
  apply zeros_set; [apply zeros_set; [exact Ha|]|]; apply zeros_get, Ha.
Qed.

Lemma zeros_bitrev_loop (count : nat) :
  forall n i j re im,
    zeros re -> zeros im ->
    zeros (fst (bitrev_loop count n i j re im)) /\
    zeros (snd (bitrev_loop count n i j re im)).
Proof.
  induction count as [|count IH]; intros n i j re im Hre Him; cbn [bitrev_loop].
  - split; assumption.
  - destruct (bitrev_carry _ _ _) as [j1 bit1].
    destruct (i <? Z.lxor j1 bit1)%Z.
    + apply IH; apply zeros_swap; assumption.
    + apply IH; assumption.
Qed.

Lemma length_set (a : list Q) (i : Z) (v : Q) :
  length (Js.set a i v) = length a.
Proof. unfold Js.set. apply length_insert. Qed.

Lemma length_swap (a : list Q) (i j : Z) : length (swap a i j) = length a.
Proof. unfold swap. rewrite !length_set. reflexivity. Qed.

Lemma length_bitrev_loop (count : nat) :
  forall n i j re im,
    length (fst (bitrev_loop count n i j re im)) = length re /\
    length (snd (bitrev_loop count n i j re im)) = length im.
Proof.
  induction count as [|count IH]; intros n i j re im; cbn [bitrev_loop].
  - split; reflexivity.
  - destruct (bitrev_carry _ _ _) as [j1 bit1].
    destruct (i <? Z.lxor j1 bit1)%Z.
    + destruct (IH n (i + 1)%Z (Z.lxor j1 bit1)
                  (swap re i (Z.lxor j1 bit1)) (swap im i (Z.lxor j1 bit1)))
        as [H1 H2].
      rewrite H1, H2, !length_swap. split; reflexivity.
    + apply IH.
Qed.

Section SpectrumFacts.
Context `{Math}.

Lemma butterfly_inner_inv (count : nat) :
  forall i j halfLen wRe wIm curRe curIm re im,
    let r := butterfly_inner count i j halfLen wRe wIm curRe curIm re im in
    (length (fst r) = length re /\ length (snd r) = length im) /\
    (zeros re -> zeros im -> zeros (fst r) /\ zeros (snd r)).
Proof.
  induction count as [|count IH];
    intros i j halfLen wRe wIm curRe curIm re im; cbn [butterfly_inner].
  - cbn. repeat split; auto.
  - cbv zeta.
    match goal with
    | |- context [butterfly_inner count i ?j' halfLen wRe wIm ?c1 ?c2 ?re2 ?im2] =>
        destruct (IH i j' halfLen wRe wIm c1 c2 re2 im2) as [[L1 L2] Z];
        set (r := butterfly_inner count i j' halfLen wRe wIm c1 c2 re2 im2) in *
    end.
    split.
    + rewrite L1, L2, !length_set. split; reflexivity.
    + intros Hre Him. apply Z.
      * apply zeros_set; [apply zeros_set; [exact Hre|]|].
        -- rewrite (zeros_get re _ Hre), (zeros_get re _ Hre), (zeros_get im _ Him).
           ring.
        -- rewrite (zeros_get (Js.set re _ _) (i + j)).
           ++ rewrite (zeros_get re _ Hre), (zeros_get im _ Him). ring.
           ++ apply zeros_set; [exact Hre|].
              rewrite (zeros_get re _ Hre), (zeros_get re _ Hre),
                (zeros_get im _ Him). ring.
      * apply zeros_set; [apply zeros_set; [exact Him|]|].
        -- rewrite (zeros_get im _ Him), (zeros_get im _ Him), (zeros_get re _ Hre).
           ring.
        -- rewrite (zeros_get (Js.set im _ _) (i + j)).
           ++ rewrite (zeros_get re _ Hre), (zeros_get im _ Him). ring.
           ++ apply zeros_set; [exact Him|].
              rewrite (zeros_get im _ Him), (zeros_get im _ Him),
                (zeros_get re _ Hre). ring.
Qed.

Lemma butterfly_blocks_inv (count : nat) :
  forall i len halfLen wRe wIm re im,
    let r := butterfly_blocks count i len halfLen wRe wIm re im in
    (length (fst r) = length re /\ length (snd r) = length im) /\
    (zeros re -> zeros im -> zeros (fst r) /\ zeros (snd r)).
Proof.
  induction count as [|count IH]; intros i len halfLen wRe wIm re im;
    cbn [butterfly_blocks].
  - cbn. repeat split; auto.
  - pose proof (butterfly_inner_inv (Z.to_nat halfLen) i 0 halfLen wRe wIm 1 0
                  re im) as Hin.
    cbv zeta in Hin.
    destruct (butterfly_inner _ _ _ _ _ _ _ _ _ _) as [re1 im1].
    cbn [fst snd] in Hin. destruct Hin as [[L1 L2] Z].
    cbv zeta.
    destruct (IH (i + len)%Z len halfLen wRe wIm re1 im1) as [[M1 M2] Z'].
    split.
    + rewrite M1, M2, L1, L2. split; reflexivity.
    + intros Hre Him. destruct (Z Hre Him) as [Z1 Z2]. apply Z'; assumption.
Qed.

Lemma butterfly_passes_inv (fuel : nat) :
  forall n len re im,
    let r := butterfly_passes fuel n len re im in
    (length (fst r) = length re /\ length (snd r) = length im) /\
    (zeros re -> zeros im -> zeros (fst r) /\ zeros (snd r)).
Proof.
  induction fuel as [|fuel IH]; intros n len re im; cbn [butterfly_passes].
  - cbn. repeat split; auto.
  - destruct (len <=? n)%Z; [|cbn; repeat split; auto].
    cbv zeta.
    match goal with
    | |- context [butterfly_blocks ?c 0 len ?hl ?wr ?wi re im] =>
        pose proof (butterfly_blocks_inv c 0 len hl wr wi re im) as Hb;
        cbv zeta in Hb;
        destruct (butterfly_blocks c 0 len hl wr wi re im) as [re1 im1]
    end.
    cbn [fst snd] in Hb. destruct Hb as [[L1 L2] Z].
    destruct (IH n (len * 2)%Z re1 im1) as [[M1 M2] Z'].
    split.
    + rewrite M1, M2, L1, L2. split; reflexivity.
    + intros Hre Him. destruct (Z Hre Him) as [Z1 Z2]. apply Z'; assumption.
Qed.

Lemma fft_inv (re im : list Q) :
  (length (fst (fft re im)) = length re /\
   length (snd (fft re im)) = length im) /\
  (zeros re -> zeros im -> zeros (fst (fft re im)) /\ zeros (snd (fft re im))).
Proof.
  unfold fft. destruct (Js.len re <=? 1)%Z; [cbn; repeat split; auto|].
  pose proof (length_bitrev_loop (Z.to_nat (Js.len re - 1)) (Js.len re) 1 0 re im)
    as [L1 L2].
  pose proof (zeros_bitrev_loop (Z.to_nat (Js.len re - 1)) (Js.len re) 1 0 re im)
    as Z.
  destruct (bitrev_loop _ _ _ _ _ _) as [re1 im1]. cbn [fst snd] in *.
  destruct (butterfly_passes_inv (S (Z.to_nat (Z.log2 (Js.len re))))
              (Js.len re) 2 re1 im1) as [[M1 M2] Z'].
  split.
  - rewrite M1, M2, L1, L2. split; reflexivity.
  - intros Hre Him. destruct (Z Hre Him) as [Z1 Z2]. apply Z'; assumption.
Qed.

Lemma length_subarray (a : list Q) (b e : Z) :
  length (Js.subarray a b e)
  = Nat.min (Z.to_nat (e - b)) (length a - Z.to_nat b).
Proof. unfold Js.subarray. rewrite length_take, length_drop. reflexivity. Qed.

Lemma length_windowed (samples : list Q) :
  length (windowed samples) = Z.to_nat fftSize.
Proof.
  unfold windowed. cbv zeta.
  rewrite length_app, length_imap, length_subarray, length_replicate.
  unfold Js.len, fftSize. lia.
Qed.

Lemma zeros_replicate (n : nat) : zeros (replicate n 0).
Proof. apply Forall_replicate. reflexivity. Qed.

Lemma zeros_subarray (a : list Q) (b e : Z) : zeros a -> zeros (Js.subarray a b e).
Proof. intros Ha. unfold Js.subarray. apply Forall_take, Forall_drop, Ha. Qed.

Lemma zeros_windowed (samples : list Q) : zeros samples -> zeros (windowed samples).
Proof.
  intros Hs. unfold windowed. cbv zeta. apply Forall_app. split.
  - pose proof (zeros_subarray samples
      (Z.max 0 (Js.len samples - Z.min (Js.len samples) fftSize))
      (Z.max 0 (Js.len samples - Z.min (Js.len samples) fftSize)
       + Z.min (Js.len samples) fftSize) Hs) as Hsub.
    set (l := Js.subarray _ _ _) in *. clearbody l.
    set (w := hannWindow _). clearbody w.
    unfold zeros in *. rewrite Forall_lookup in *. intros i x Hx.
    rewrite list_lookup_imap in Hx.
    destruct (l !! i) as [s|] eqn:E; [|discriminate].
    cbn in Hx. injection Hx as <-. rewrite (Hsub i s E). ring.
  - apply zeros_replicate.
Qed.

Lemma peak_search_zeros (re im : list Q) (sr : Q) :
  (forall k, power re im k <= 0) -> peak_search re im sr = (0, (-1)%Z).
Proof.
  intros Hp. unfold peak_search.
  generalize (seqZ (minBin sr) (maxBin sr - minBin sr + 1)).
  intros l. induction l as [|k l IH]; [reflexivity|].
  cbn [fold_left]. unfold peak_step at 2. cbn [fst].
  assert (E : (0 <? power re im k) = false) by (apply ltb_ge, Hp).
  rewrite E. exact IH.
Qed.

Lemma power_zeros (re im : list Q) (k : Z) :
  zeros re -> zeros im -> power re im k <= 0.
Proof.
  intros Hre Him. unfold power.
  rewrite (zeros_get re k Hre), (zeros_get im k Him). lra.
Qed.

(** X11.  The two arrays of the spectrum have 32768 entries, however many
    samples are given: the samples are cut or padded to the size of the
    transform, and the transform keeps the sizes of its arrays. *)
Theorem spectrum_size (samples : list Q) :
  Js.len (windowed samples) = fftSize /\
  Js.len (fst (spectrum samples)) = fftSize /\
  Js.len (snd (spectrum samples)) = fftSize /\
  forall re im : list Q,
    Js.len (fst (fft re im)) = Js.len re /\ Js.len (snd (fft re im)) = Js.len im.
Proof.
  assert (Hw : Js.len (windowed samples) = fftSize).
  { unfold Js.len. rewrite length_windowed. reflexivity. }
  split; [exact Hw|].
  unfold spectrum.
  destruct (fft_inv (windowed samples) (replicate (Z.to_nat fftSize) 0))
    as [[L1 L2] _].
  unfold Js.len in *. rewrite L1, L2, length_replicate.
  split; [exact Hw|]. split; [reflexivity|].
  intros re im. destruct (fft_inv re im) as [[M1 M2] _].
  rewrite M1, M2. split; reflexivity.
Qed.

(** X12.  Samples that are all zero give no estimate, whatever the
    implementation of the square root, the cosine and the sine: the
    transform of zeros is zeros, no bin of the band has a positive power,
    and [detectFundamentalFrequency] returns [null]; so does the detection
    of a tick, whether the signal gate lets the window through or not. *)
Theorem silent_samples_no_estimate (samples : list Q) (sr : Q)
    (ctx : AudioContext) :
  Forall (fun x => x == 0) samples ->
  detectFundamentalFrequency samples sr = None /\
  tick_estimate ctx samples = None.
Proof.
  intros Hs.
  assert (Hd : forall l r, zeros l -> detectFundamentalFrequency l r = None).
  { intros l r Hl. unfold detectFundamentalFrequency, spectrum.
    destruct (fft_inv (windowed l) (replicate (Z.to_nat fftSize) 0))
      as [_ Hz].
    destruct Hz as [Z1 Z2]; [apply zeros_windowed, Hl|apply zeros_replicate|].
    destruct (fft _ _) as [re im]. cbn [fst snd] in *.
    unfold detect_peak. rewrite peak_search_zeros; [reflexivity|].
    intros k. apply power_zeros; assumption. }
  split; [apply Hd, Hs|].
  unfold tick_estimate. destruct (select_window samples) as [bo br].
  destruct (MIN_SIGNAL_RMS <=? br); [|reflexivity].
  apply Hd, zeros_subarray, Hs.
Qed.

(** X13.  The window that the selector returns lies inside the buffer:
    its offset is one of the scanned ones, between 0 and
    [max 0 (len - 16384)], and its RMS is not negative; so the clamp of the
    window start changes nothing, the analysis buffer has
    [min len 16384] samples, and the estimate of the tick is that of the
    samples from the selected offset on. *)
Theorem analysis_window_in_range (ctx : AudioContext) (buf : list Q) :
  let bestOffset := fst (select_window buf) in
  let bestRms := snd (select_window buf) in
  let len := Js.len buf in
  (0 <= bestOffset <= first_offset buf)%Z /\
  ((first_offset buf - bestOffset) mod 4096 = 0)%Z /\
  0 <= bestRms /\
  Z.max 0 (Z.min bestOffset (len - analysisSize)) = bestOffset /\
  Js.len (Js.subarray buf bestOffset (bestOffset + analysisSize))
    = Z.min len analysisSize /\
  tick_estimate ctx buf =
    if MIN_SIGNAL_RMS <=? bestRms
    then detectFundamentalFrequency
           (Js.subarray buf bestOffset (bestOffset + analysisSize))
           (sampleRate ctx)
    else None.
Proof.
  intros bestOffset bestRms len.
  assert (Hin : (0 <= bestOffset <= first_offset buf)%Z /\
                ((first_offset buf - bestOffset) mod 4096 = 0)%Z /\
                0 <= bestRms).
  { unfold bestOffset, bestRms. rewrite select_window_fold.
    pose proof (improve_fold (chunk_rms buf) (scan_offsets buf)
                  (first_offset buf, 0)) as (Hle & _ & Hcase).
    cbn [fst snd] in *.
    set (r := fold_left _ _ _) in *. clearbody r.
    split; [|split; [|exact Hle]].
    - destruct Hcase as [->|(l1 & l2 & E & _)].
      + cbn. unfold first_offset. lia.
      + apply (scan_offsets_spec buf (fst r)).
        rewrite E. apply in_or_app. right. left. reflexivity.
    - destruct Hcase as [->|(l1 & l2 & E & _)].
      + cbn. rewrite Z.sub_diag. reflexivity.
      + apply (scan_offsets_spec buf (fst r)).
        rewrite E. apply in_or_app. right. left. reflexivity. }
  destruct Hin as (Hr & Hm & Hrms).
  assert (Hclamp : Z.max 0 (Z.min bestOffset (len - analysisSize)) = bestOffset).
  { unfold first_offset in Hr. fold len in Hr. lia. }
  split; [exact Hr|]. split; [exact Hm|]. split; [exact Hrms|].
  split; [exact Hclamp|]. split.
  - unfold Js.len. rewrite length_subarray.
    unfold first_offset, Js.len, analysisSize in *. lia.
  - unfold tick_estimate. fold len.
    unfold bestOffset, bestRms in *.
    destruct (select_window buf) as [bo br]. cbn [fst snd] in *.
    rewrite Hclamp. reflexivity.
Qed.

End SpectrumFacts.

Lemma silent_samples_no_estimate_witness :
  Forall (fun x => x == 0) silent_buffer /\
  detectFundamentalFrequency silent_buffer 48000 = None /\
  tick_estimate (snd example_loop) silent_buffer = None.
Proof.
  assert (Hz : Forall (fun x => x == 0) silent_buffer)
    by (apply Forall_replicate; reflexivity).
  split; [exact Hz|].
  apply (@silent_samples_no_estimate RationalMath silent_buffer 48000
           (snd example_loop) Hz).
Defined.

(** ** The interpolated estimate stays near the peak *)

Lemma parabolic_delta_half (prev cur next : Q) :
  prev <= cur -> next <= cur ->
  -(1 # 2) <= parabolic_delta prev cur next /\
  parabolic_delta prev cur next <= 1 # 2.
Proof.
  intros Hp Hn. unfold parabolic_delta.
  destruct (prev - 2 * cur + next =? 0) eqn:E; [split; lra|].
  assert (Hne : ~ prev - 2 * cur + next == 0).
  { intros Hz. apply eqb_eq in Hz. congruence. }
  assert (Hneg : 0 < - (prev - 2 * cur + next)) by lra.
  set (d := prev - 2 * cur + next) in *.
  assert (Ed : 0.5 * (prev - next) / d == (0.5 * (next - prev)) / (- d)).
  { field. exact Hne. }
  rewrite Ed. split.
  - apply Qle_shift_div_l; [exact Hneg|]. unfold d. lra.
  - apply Qle_shift_div_r; [exact Hneg|]. unfold d. lra.
Qed.

Section PeakFacts.
Context `{Math}.

Lemma detect_peak_at (re im : list Q) (sr : Q) :
  1501 <= sr -> sr <= 6553600 ->
  let peakBin := snd (peak_search re im sr) in
  (0 <= peakBin)%Z ->
  (minBin sr <= peakBin <= maxBin sr)%Z /\
  detect_peak re im sr =
    Some (((inject_Z peakBin
            + parabolic_delta (magnitude re im (peakBin - 1))
                (magnitude re im peakBin) (magnitude re im (peakBin + 1)))
           * sr) / inject_Z fftSize).
Proof.
  intros Hlo Hhi peakBin Hfound.
  assert (Hpos : 0 < sr) by lra.
  pose proof (minBin_ge_1 sr Hpos Hhi) as Hmin.
  pose proof (maxBin_le sr Hlo) as Hmax.
  unfold detect_peak. unfold peakBin in *. clear peakBin.
  unfold peak_search in *. rewrite peak_search_fold in *.
  pose proof (improve_fold (power re im)
                (seqZ (minBin sr) (maxBin sr - minBin sr + 1)) ((-1)%Z, 0))
    as (_ & _ & Hcase).
  set (r := fold_left _ _ _) in *. clearbody r.
  destruct r as [maxIndex maxMag]. cbn [fst snd] in *.
  destruct Hcase as [E|(l1 & l2 & E & Hs & _)].
  - injection E as -> ->. lia.
  - assert (Hin : In maxIndex (seqZ (minBin sr) (maxBin sr - minBin sr + 1)))
      by (rewrite E; apply in_or_app; right; left; reflexivity).
    apply In_seqZ in Hin.
    split; [lia|].
    destruct (Z.ltb_spec maxIndex 0) as [Hneg|_]; [lia|].
    unfold interpolate, magnitude.
    destruct (Z.ltb_spec 0 maxIndex) as [_|?]; [|lia].
    destruct (Z.ltb_spec maxIndex (fftSize / 2 - 1)) as [_|?];
      [|change (fftSize / 2 - 2)%Z with 16382%Z in Hmax;
        change (fftSize / 2 - 1)%Z with 16383%Z in *; lia].
    rewrite parabolic_delta_eq. rewrite <- Hs. reflexivity.
Qed.

(** X14.  For a sample rate from 1501 Hz to 6553600 Hz, when the search
    finds a peak whose two neighbours have magnitudes that do not exceed
    its own, the interpolation moves the estimate by at most half a bin:
    the estimate lies within [sampleRate / (2 * 32768)] of the frequency of
    the peak bin, which is a bin of the band. *)
Theorem estimate_within_half_bin (re im : list Q) (sr : Q) :
  1501 <= sr -> sr <= 6553600 ->
  let peakBin := snd (peak_search re im sr) in
  (0 <= peakBin)%Z ->
  magnitude re im (peakBin - 1) <= magnitude re im peakBin ->
  magnitude re im (peakBin + 1) <= magnitude re im peakBin ->
  (minBin sr <= peakBin <= maxBin sr)%Z /\
  exists f, detect_peak re im sr = Some f /\
    (inject_Z peakBin - (1 # 2)) * sr / inject_Z fftSize <= f /\
    f <= (inject_Z peakBin + (1 # 2)) * sr / inject_Z fftSize.
Proof.
  intros Hlo Hhi peakBin Hfound Hprev Hnext.
  destruct (detect_peak_at re im sr Hlo Hhi Hfound) as [Hband Hf].
  fold peakBin in Hband, Hf.
  split; [exact Hband|].
  eexists. split; [exact Hf|].
  destruct (parabolic_delta_half _ _ _ Hprev Hnext) as [Hd1 Hd2].
  set (delta := parabolic_delta _ _ _) in *. clearbody delta.
  set (k := inject_Z peakBin). clearbody k.
  assert (Hsr : 0 <= sr) by lra.
  unfold Qdiv. split.
  - apply Qmult_le_compat_r; [|vm_compute; discriminate].
    apply Qmult_le_compat_r; [lra|exact Hsr].
  - apply Qmult_le_compat_r; [|vm_compute; discriminate].
    apply Qmult_le_compat_r; [lra|exact Hsr].
Qed.

End PeakFacts.

Lemma estimate_within_half_bin_witness :
  snd (peak_search peaked_re zero_im 48000) = 300%Z /\
  exists f, detect_peak peaked_re zero_im 48000 = Some f /\
    (300 - (1 # 2)) * 48000 / 32768 <= f /\
    f <= (300 + (1 # 2)) * 48000 / 32768.
Proof.
  split; [vm_compute; reflexivity|].
  destruct (@estimate_within_half_bin RationalMath peaked_re zero_im 48000)
    as (_ & f & Hf & Hlo & Hhi).
  - vm_compute; discriminate.
  - vm_compute; discriminate.
  - vm_compute; discriminate.
  - vm_compute; discriminate.
  - vm_compute; discriminate.
  - exists f. split; [exact Hf|].
    change (snd (peak_search peaked_re zero_im 48000))
      with (snd (300, 300%Z)) in Hlo, Hhi.
    split; [exact Hlo|exact Hhi].
Defined.

(** ** Gauge, pattern and tension *)

Lemma floor_bounds (v : Q) :
  inject_Z (Js.floor v) <= v /\ v < inject_Z (Js.floor v) + 1.
Proof.
  unfold Js.floor. pose proof (Qfloor_le v) as H1. pose proof (Qlt_floor v) as H2.
  rewrite inject_Z_plus in H2. change (inject_Z 1) with 1 in H2.
  split; assumption.
Qed.

(** The value of [normalizeGaugeMm] on a gauge number, by its floor. *)
Lemma normalize_piece (v : Q) :
  3 <= v ->
  let n := Js.floor v in
  normalizeGaugeMm v ==
    if (n =? 15)%Z then 1.45 - 0.15 * (v - 15)
    else if (n =? 16)%Z then 1.30 - 0.10 * (v - 16)
    else if (n =? 17)%Z then 1.20 - 0.10 * (v - 17)
    else if (n =? 18)%Z then 1.10 - 0.10 * (v - 18)
    else if (n =? 19)%Z then 1.00
    else 1.25.
Proof.
  intros H3 n. rewrite (normalize_at_floor v n H3 eq_refl).
  rewrite !gauge_table.
  destruct (Z.eqb_spec n 15) as [E|?];
    [|destruct (Z.eqb_spec n 16) as [E|?];
      [|destruct (Z.eqb_spec n 17) as [E|?];
        [|destruct (Z.eqb_spec n 18) as [E|?];
          [|destruct (Z.eqb_spec n 19) as [E|?]; [|reflexivity]]]]].
  all: rewrite E;
       repeat match goal with
              | |- context [defined_nonzero ?x] =>
                  let y := eval vm_compute in (defined_nonzero x) in
                  change (defined_nonzero x) with y
              end;
       cbv beta iota;
       destruct (v !=? _) eqn:Hne;
       [|apply neqb_false in Hne; try rewrite Hne; vm_compute; reflexivity].
  all: try reflexivity.
  all: match goal with
       | |- context [inject_Z ?z] =>
           let q := eval vm_compute in (inject_Z z) in
           change (inject_Z z) with q
       end; ring.
Qed.

(** X15.  A gauge number (a value from 3 on) is normalised to a diameter
    from 1.00 to 1.45 mm, so that normalising twice is normalising
    once. *)
Theorem normalizeGaugeMm_idempotent (v : Q) :
  (3 <= v -> 1 <= normalizeGaugeMm v /\ normalizeGaugeMm v <= 1.45) /\
  normalizeGaugeMm (normalizeGaugeMm v) = normalizeGaugeMm v.
Proof.
  assert (Hr : 3 <= v -> 1 <= normalizeGaugeMm v /\ normalizeGaugeMm v <= 1.45).
  { intros H3. pose proof (normalize_piece v H3) as Hp. cbv zeta in Hp.
    destruct (floor_bounds v) as [Hlo Hhi].
    rewrite Hp. clear Hp.
    destruct (Z.eqb_spec (Js.floor v) 15) as [E|?];
      [|destruct (Z.eqb_spec (Js.floor v) 16) as [E|?];
        [|destruct (Z.eqb_spec (Js.floor v) 17) as [E|?];
          [|destruct (Z.eqb_spec (Js.floor v) 18) as [E|?];
            [|destruct (Z.eqb_spec (Js.floor v) 19) as [E|?]]]]];
      try (rewrite E in Hlo, Hhi;
           match type of Hlo with
           | context [inject_Z ?z] =>
               let q := eval vm_compute in (inject_Z z) in
               change (inject_Z z) with q in Hlo, Hhi
           end);
      split; lra. }
  split; [exact Hr|].
  destruct (Qlt_le_dec v 3) as [Hlt|Hge].
  - rewrite (normalize_below_3 v Hlt). apply normalize_below_3, Hlt.
  - apply normalize_below_3. destruct (Hr Hge). lra.
Qed.

(** X16.  Between the gauge numbers 15 and 20 the normalised diameter
    does not increase with the gauge number: a higher gauge number is a
    thinner string. *)
Theorem normalizeGaugeMm_antitone (v w : Q) :
  15 <= v -> v <= w -> w < 20 ->
  normalizeGaugeMm w <= normalizeGaugeMm v.
Proof.
  intros Hv Hvw Hw.
  assert (H3v : 3 <= v) by lra. assert (H3w : 3 <= w) by lra.
  pose proof (normalize_piece v H3v) as Pv. pose proof (normalize_piece w H3w) as Pw.
  cbv zeta in Pv, Pw.
  destruct (floor_bounds v) as [Lv Uv]. destruct (floor_bounds w) as [Lw Uw].
  assert (Hfv : (15 <= Js.floor v < 20)%Z).
  { apply (floor_cases v 15 20); [exact Hv|]. change (inject_Z 20) with 20. lra. }
  assert (Hfw : (15 <= Js.floor w < 20)%Z).
  { apply (floor_cases w 15 20); [|exact Hw]. change (inject_Z 15) with 15. lra. }
  rewrite Pv, Pw. clear Pv Pw.
  assert (Cv : Js.floor v = 15%Z \/ Js.floor v = 16%Z \/ Js.floor v = 17%Z \/
               Js.floor v = 18%Z \/ Js.floor v = 19%Z) by lia.
  assert (Cw : Js.floor w = 15%Z \/ Js.floor w = 16%Z \/ Js.floor w = 17%Z \/
               Js.floor w = 18%Z \/ Js.floor w = 19%Z) by lia.
  destruct Cv as [Ev|[Ev|[Ev|[Ev|Ev]]]]; rewrite Ev in *;
    destruct Cw as [Ew|[Ew|[Ew|[Ew|Ew]]]]; rewrite Ew in *;
    cbn [Z.eqb Pos.eqb];
    repeat match goal with
           | H : context [inject_Z ?z] |- _ =>
               let q := eval vm_compute in (inject_Z z) in
               change (inject_Z z) with q in H
           end; lra.
Qed.

Lemma normalizeGaugeMm_antitone_witness :
  15 <= 16 /\ 16 <= 17.5 /\ 17.5 < 20 /\
  normalizeGaugeMm 17.5 <= normalizeGaugeMm 16.
Proof.
  split; [vm_compute; discriminate|]. split; [vm_compute; discriminate|].
  split; [reflexivity|].
  apply (normalizeGaugeMm_antitone 16 17.5);
    [vm_compute; discriminate|vm_compute; discriminate|reflexivity].
Defined.

(** *** The pattern of the string bed *)

Lemma span_app (p : ascii -> bool) (s : list ascii) :
  s = fst (Js.span p s) ++ snd (Js.span p s) /\
  forallb p (fst (Js.span p s)) = true /\
  match snd (Js.span p s) with
  | c :: _ => p c = false
  | [] => True
  end.
Proof.
  induction s as [|c s IH]; cbn [Js.span].
  - repeat split.
  - destruct (p c) eqn:E.
    + destruct (Js.span p s) as [l r]. cbn [fst snd] in *.
      destruct IH as (-> & Hl & Hr).
      split; [reflexivity|]. split; [cbn; rewrite E; exact Hl|exact Hr].
    + cbn. repeat split. exact E.
Qed.

Lemma span_prefix (p : ascii -> bool) (l r : list ascii) :
  forallb p l = true ->
  match r with c :: _ => p c = false | [] => True end ->
  Js.span p (l ++ r) = (l, r).
Proof.
  intros Hl Hr. induction l as [|c l IH]; cbn [app].
  - destruct r as [|c r]; [reflexivity|]. cbn [Js.span]. rewrite Hr. reflexivity.
  - cbn [forallb] in Hl. apply andb_true_iff in Hl. destruct Hl as [Hc Hl].
    cbn [Js.span]. rewrite Hc, (IH Hl). reflexivity.
Qed.

Lemma space_not_digit (c : ascii) :
  Js.is_space c = true -> Js.is_digit c = false.
Proof. destruct c as [[] [] [] [] [] [] [] []]; vm_compute; congruence. Qed.

Lemma digit_not_space (c : ascii) :
  Js.is_digit c = true -> Js.is_space c = false.
Proof. destruct c as [[] [] [] [] [] [] [] []]; vm_compute; congruence. Qed.

Lemma match_pattern_shape (s d1 d2 : list ascii) :
  match_pattern s = Some (d1, d2) <-> pattern_shape s d1 d2.
Proof.
  unfold match_pattern, pattern_shape. split.
  - pose proof (span_app Js.is_digit s) as (Es & Hd1 & Hr1).
    destruct (Js.span Js.is_digit s) as [a r1]. cbn [fst snd] in *.
    destruct a as [|a0 a]; [discriminate|].
    pose proof (span_app Js.is_space r1) as (Er1 & Hw1 & _).
    destruct (Js.span Js.is_space r1) as [w1 r1']. cbn [fst snd] in *.
    destruct r1' as [|c r2]; [discriminate|].
    destruct (Ascii.eqb_spec c "x") as [->|Hc];
      [|destruct c as [[] [] [] [] [] [] [] []]; try discriminate;
        exfalso; apply Hc; reflexivity].
    pose proof (span_app Js.is_space r2) as (Er2 & Hw2 & _).
    destruct (Js.span Js.is_space r2) as [w2 r2']. cbn [fst snd] in *.
    pose proof (span_app Js.is_digit r2') as (Er3 & Hd2 & _).
    destruct (Js.span Js.is_digit r2') as [b r3]. cbn [fst snd] in *.
    destruct b as [|b0 b]; [discriminate|].
    destruct r3; [|discriminate].
    intros E. injection E as <- <-.
    exists w1, w2. rewrite app_nil_r in Er3. subst r2' r2 r1 s.
    repeat split; try assumption; discriminate.
  - intros (w1 & w2 & -> & Hn1 & Hn2 & Hd1 & Hw1 & Hw2 & Hd2).
    assert (Hx : forall t, match w1 ++ "x"%char :: t with
                           | c :: _ => Js.is_digit c = false
                           | [] => True
                           end).
    { intros t. destruct w1 as [|c w1]; [reflexivity|].
      cbn [forallb] in Hw1. apply andb_true_iff in Hw1. destruct Hw1 as [Hc _].
      cbn [app]. apply space_not_digit, Hc. }
    rewrite (span_prefix Js.is_digit d1 _ Hd1 (Hx _)).
    destruct d1 as [|c1 d1]; [contradiction|].
    rewrite (span_prefix Js.is_space w1 ("x"%char :: w2 ++ d2) Hw1 eq_refl).
    cbn [snd].
    assert (Hy : match d2 with
                 | c :: _ => Js.is_space c = false
                 | [] => True
                 end).
    { destruct d2 as [|c d2]; [exact I|].
      cbn [forallb] in Hd2. apply andb_true_iff in Hd2. destruct Hd2 as [Hc _].
      apply digit_not_space, Hc. }
    rewrite (span_prefix Js.is_space w2 d2 Hw2 Hy). cbn [snd].
    rewrite <- (app_nil_r d2) at 1.
    rewrite (span_prefix Js.is_digit d2 [] Hd2 I).
    destruct d2 as [|c2 d2]; [contradiction|]. reflexivity.
Qed.

Lemma parseInt_from_nonneg (digits : list ascii) (acc : Z) :
  (0 <= acc)%Z -> forallb Js.is_digit digits = true ->
  (0 <= fold_left (fun acc c => acc * 10 + (Z.of_nat (nat_of_ascii c) - 48))
          digits acc)%Z.
Proof.
  revert acc. induction digits as [|c digits IH]; intros acc Hacc Hd;
    cbn [fold_left].
  - exact Hacc.
  - cbn [forallb] in Hd. apply andb_true_iff in Hd. destruct Hd as [Hc Hd].
    apply IH; [|exact Hd].
    unfold Js.is_digit in Hc. apply andb_true_iff in Hc. destruct Hc as [Hc _].
    apply Nat.leb_le in Hc. lia.
Qed.

Lemma parseInt_nonneg (digits : list ascii) :
  forallb Js.is_digit digits = true -> (0 <= Js.parseInt digits)%Z.
Proof. apply parseInt_from_nonneg. lia. Qed.


(** X18.  The correction for the cross strings grows with their number
    and is 1 at 19 crosses: it is below 1 exactly for fewer than 19
    crosses, and for the pattern of any string at all it is at least
    0.9715, so the corrected density keeps its sign. *)
Theorem crossStringMassLoadingFactor_bounds (pattern : string) :
  let factor := crossStringMassLoadingFactor in
  0.9715 <= factor (crosses (parseStringPattern pattern)) /\
  (forall c1 c2 : Q, c1 < c2 -> factor c1 < factor c2) /\
  (forall c : Q, factor c < 1 <-> c < 19) /\
  factor 19 == 1.
Proof.
  cbv zeta. split; [|split; [|split]].
  - assert (Hc : 0 <= crosses (parseStringPattern pattern)).
    { unfold parseStringPattern.
      destruct (match_pattern (list_ascii_of_string pattern)) as [[d1 d2]|] eqn:E;
        cbn [crosses]; [|discriminate].
      apply match_pattern_shape in E.
      destruct E as (w1 & w2 & _ & _ & _ & _ & _ & _ & Hd2).
      rewrite <- (Zle_Qle 0). apply parseInt_nonneg. exact Hd2. }
    unfold crossStringMassLoadingFactor. cbv zeta. lra.
  - intros c1 c2 Hc. unfold crossStringMassLoadingFactor. cbv zeta. lra.
  - intros c. unfold crossStringMassLoadingFactor. cbv zeta. split; intros Hc; lra.
  - vm_compute. reflexivity.
Qed.

(** *** The tension *)

Lemma round_error (x : Q) :
  - (1 # 2) <= inject_Z (Js.round x) - x /\ inject_Z (Js.round x) - x <= 1 # 2.
Proof.
  unfold Js.round.
  pose proof (Qfloor_le (x + 0.5)) as H1. pose proof (Qlt_floor (x + 0.5)) as H2.
  rewrite inject_Z_plus in H2. change (inject_Z 1) with 1 in H2.
  split; lra.
Qed.

Lemma round_mono (x y : Q) : x <= y -> inject_Z (Js.round x) <= inject_Z (Js.round y).
Proof.
  intros Hxy. unfold Js.round. rewrite <- Zle_Qle.
  apply Qfloor_resp_le. lra.
Qed.

Lemma round_cents_error (x : Q) :
  Qabs (inject_Z (Js.round (x * 100)) / 100 - x) <= 0.005.
Proof.
  destruct (round_error (x * 100)) as [H1 H2].
  set (r := inject_Z (Js.round (x * 100))) in *. clearbody r.
  apply Qabs_Qle_condition. div_consts. split; lra.
Qed.

Lemma sq_nonneg (x : Q) : 0 <= x ^ 2.
Proof.
  cbn. destruct (Qlt_le_dec x 0) as [Hx|Hx].
  - assert (E : x * x == (- x) * (- x)) by ring.
    rewrite E. apply Qmult_le_0_compat; lra.
  - apply Qmult_le_0_compat; assumption.
Qed.

Lemma mult_le_l (c a b : Q) : 0 <= c -> a <= b -> c * a <= c * b.
Proof.
  intros Hc Hab. rewrite (Qmult_comm c a), (Qmult_comm c b).
  apply Qmult_le_compat_r; assumption.
Qed.

Lemma sq_mono (a b : Q) : 0 <= a -> a <= b -> a ^ 2 <= b ^ 2.
Proof.
  intros Ha Hab. cbn. apply Qmult_le_compat_nonneg; split; lra.
Qed.

(** X19.  The two tensions returned are the exact values of
    [mu * (2 * L * f) ^ 2] in newtons and of 0.224809 times that in
    pounds, each rounded to the nearest hundredth, so within 0.005 of
    them; both are rounded from the exact value, not one from the other.
    For a density and a length that are not negative they are not
    negative and do not decrease when the frequency rises. *)
Theorem calculateTension_rounding (f L mu : Q) :
  let exact := mu * (2 * L * f) ^ 2 in
  let t := calculateTension f L mu in
  Qabs (tensionNewtons t - exact) <= 0.005 /\
  Qabs (tensionLbs t - exact * 0.224809) <= 0.005 /\
  (0 <= mu -> 0 <= tensionNewtons t /\ 0 <= tensionLbs t) /\
  (forall f' : Q, 0 <= mu -> 0 <= L -> 0 <= f -> f <= f' ->
     tensionNewtons t <= tensionNewtons (calculateTension f' L mu) /\
     tensionLbs t <= tensionLbs (calculateTension f' L mu)).
Proof.
  intros exact t. unfold t, calculateTension. cbv zeta. cbn [tensionNewtons tensionLbs].
  fold exact.
  split; [apply round_cents_error|]. split; [apply round_cents_error|].
  split.
  - intros Hmu.
    assert (He : 0 <= exact).
    { unfold exact. apply Qmult_le_0_compat; [exact Hmu|].
      apply sq_nonneg. }
    split.
    + pose proof (round_mono 0 (exact * 100)) as Hr.
      change (inject_Z (Js.round 0)) with 0 in Hr.
      assert (0 <= inject_Z (Js.round (exact * 100))) by (apply Hr; lra).
      div_consts. lra.
    + pose proof (round_mono 0 (exact * 0.224809 * 100)) as Hr.
      change (inject_Z (Js.round 0)) with 0 in Hr.
      assert (0 <= inject_Z (Js.round (exact * 0.224809 * 100))) by (apply Hr; lra).
      div_consts. lra.
  - intros f' Hmu HL Hf Hff'.
    assert (Hsq : (2 * L * f) ^ 2 <= (2 * L * f') ^ 2).
    { apply sq_mono.
      - apply Qmult_le_0_compat; [lra|exact Hf].
      - apply mult_le_l; [lra|exact Hff']. }
    assert (He : exact <= mu * (2 * L * f') ^ 2).
    { unfold exact. apply mult_le_l; assumption. }
    set (exact' := mu * (2 * L * f') ^ 2) in *. clearbody exact' exact.
    split.
    + pose proof (round_mono (exact * 100) (exact' * 100)) as Hr.
      assert (inject_Z (Js.round (exact * 100)) <= inject_Z (Js.round (exact' * 100)))
        by (apply Hr; lra).
      div_consts. lra.
    + pose proof (round_mono (exact * 0.224809 * 100) (exact' * 0.224809 * 100)) as Hr.
      assert (inject_Z (Js.round (exact * 0.224809 * 100))
              <= inject_Z (Js.round (exact' * 0.224809 * 100)))
        by (apply Hr; lra).
      div_consts. lra.
Qed.

(** ** The validator and the inputs of the tension *)

Lemma lbs_mono (x y : Q) :
  x <= y ->
  inject_Z (Js.round (x * 0.224809 * 100)) / 100
  <= inject_Z (Js.round (y * 0.224809 * 100)) / 100.
Proof.
  intros Hxy.
  pose proof (round_mono (x * 0.224809 * 100) (y * 0.224809 * 100)) as Hr.
  assert (inject_Z (Js.round (x * 0.224809 * 100))
          <= inject_Z (Js.round (y * 0.224809 * 100))) by (apply Hr; lra).
  div_consts. lra.
Qed.

Lemma exact_tension_between (mu L f1 f f2 : Q) :
  0 <= f1 -> f1 <= f -> f <= f2 ->
  let T := fun f => mu * (2 * L * f) ^ 2 in
  (T f1 <= T f /\ T f <= T f2) \/ (T f2 <= T f /\ T f <= T f1).
Proof.
  intros H0 H1 H2 T.
  assert (E : forall x, T x == (mu * (4 * L ^ 2)) * x ^ 2).
  { intros x. unfold T. cbn. ring. }
  pose proof (sq_mono f1 f H0 H1) as S1.
  assert (Hf : 0 <= f) by lra.
  pose proof (sq_mono f f2 Hf H2) as S2.
  rewrite !E. set (K := mu * (4 * L ^ 2)). clearbody K.
  destruct (Qlt_le_dec K 0) as [HK|HK].
  - right. assert (HK' : 0 <= - K) by lra.
    pose proof (mult_le_l (- K) _ _ HK' S1).
    pose proof (mult_le_l (- K) _ _ HK' S2).
    split; lra.
  - left. split; apply mult_le_l; assumption.
Qed.

Section SettingsFacts.
Context `{Math}.

(** X20.  The frequencies that the validator of [handleStart] accepts
    form an interval: with two accepted frequencies, every frequency
    between them is accepted, for settings of any kind. *)
Theorem plausibleTension_interval (settings : TensionSettings) (f1 f f2 : Q) :
  0 <= f1 -> f1 <= f -> f <= f2 ->
  plausibleTension settings f1 = true ->
  plausibleTension settings f2 = true ->
  plausibleTension settings f = true.
Proof.
  intros H0 H1 H2. unfold plausibleTension, computeTension, calculateTension.
  cbv zeta. cbn [tensionLbs].
  set (mu := linearDensityOf settings _ * _). set (L := stringLengthOf settings).
  clearbody mu L.
  intros P1 P2.
  apply andb_true_iff in P1. destruct P1 as [A1 B1].
  apply andb_true_iff in P2. destruct P2 as [A2 B2].
  apply leb_le in A1, B1, A2, B2.
  apply andb_true_iff.
  destruct (exact_tension_between mu L f1 f f2 H0 H1 H2) as [[Ha Hb]|[Ha Hb]];
    cbv zeta beta in Ha, Hb;
    apply lbs_mono in Ha; apply lbs_mono in Hb;
    split; apply leb_le; lra.
Qed.

(** X21.  A measured string length that parses to a positive number is
    the length used, in metres, and the head size then has no part in the
    tension. *)
Theorem measured_length_overrides_head (settings : TensionSettings)
    (measuredMm f : Q) (head : string) :
  Js.parseFloat (stringLengthMm settings) = Some measuredMm ->
  0 < measuredMm ->
  stringLengthOf settings = measuredMm / 1000 /\
  computeTension (with_headSizeSqIn settings head) f = computeTension settings f.
Proof.
  intros Hp Hm.
  assert (Hl : forall s, stringLengthMm s = stringLengthMm settings ->
                         stringLengthOf s = measuredMm / 1000).
  { intros s Es. unfold stringLengthOf. cbv zeta. rewrite Es, Hp.
    apply ltb_lt in Hm. rewrite Hm. reflexivity. }
  split; [apply Hl; reflexivity|].
  unfold computeTension. cbv zeta.
  rewrite (Hl settings eq_refl), (Hl (with_headSizeSqIn settings head) eq_refl).
  reflexivity.
Qed.

End SettingsFacts.

Lemma plausibleTension_interval_witness :
  0 <= 350 /\ 350 <= 420 /\ 420 <= 600 /\
  plausibleTension DEFAULT_SETTINGS 350 = true /\
  plausibleTension DEFAULT_SETTINGS 600 = true /\
  plausibleTension DEFAULT_SETTINGS 420 = true.
Proof.
  split; [vm_compute; discriminate|]. split; [vm_compute; discriminate|].
  split; [vm_compute; discriminate|].
  split; [vm_compute; reflexivity|]. split; [vm_compute; reflexivity|].
  apply (@plausibleTension_interval RationalMath DEFAULT_SETTINGS 350 420 600).
  - vm_compute; discriminate.
  - vm_compute; discriminate.
  - vm_compute; discriminate.
  - vm_compute; reflexivity.
  - vm_compute; reflexivity.
Defined.

Lemma measured_length_overrides_head_witness :
  Js.parseFloat (stringLengthMm measured_settings) = Some (320 * 10 ^ 0) /\
  computeTension (with_headSizeSqIn measured_settings "95") 420
  = computeTension measured_settings 420.
Proof.
  split; [reflexivity|].
  apply (@measured_length_overrides_head RationalMath measured_settings
           (320 * 10 ^ 0) 420 "95"); reflexivity.
Defined.

(** ** The density of a tabulated string *)

Lemma exact_gauge_in (gs : list Gauge) (q : Q) (g : Gauge) :
  exact_gauge gs q = Some g -> In g gs.
Proof. unfold exact_gauge. intros Hf. apply find_some in Hf. apply Hf. Qed.

Lemma insert_gauge_in (g x : Gauge) (l : list Gauge) :
  In x (insert_gauge g l) -> x = g \/ In x l.
Proof.
  induction l as [|h t IH]; cbn [insert_gauge].
  - intros [<-|[]]. left. reflexivity.
  - destruct (mm g <? mm h).
    + intros [<-|Hx]; [left; reflexivity|right; exact Hx].
    + intros [<-|Hx]; [right; left; reflexivity|].
      destruct (IH Hx) as [->|Hx']; [left; reflexivity|right; right; exact Hx'].
Qed.

Lemma sort_gauges_in (l : list Gauge) (x : Gauge) :
  In x (sort_gauges l) -> In x l.
Proof.
  unfold sort_gauges.
  assert (Hg : forall acc, In x (fold_left (fun acc g => insert_gauge g acc) l acc)
                           -> In x acc \/ In x l).
  { induction l as [|g l IH]; intros acc; cbn [fold_left].
    - intros Hx. left. exact Hx.
    - intros Hx. destruct (IH _ Hx) as [Hx'|Hx'].
      + destruct (insert_gauge_in _ _ _ Hx') as [->|Hx''];
          [right; left; reflexivity|left; exact Hx''].
      + right. right. exact Hx'. }
  intros Hx. destruct (Hg [] Hx) as [[]|Hx']. exact Hx'.
Qed.

Lemma interpolation_between (ra rb t : Q) :
  0 <= t -> t <= 1 ->
  (ra <= ra + t * (rb - ra) /\ ra + t * (rb - ra) <= rb) \/
  (rb <= ra + t * (rb - ra) /\ ra + t * (rb - ra) <= ra).
Proof.
  intros H0 H1. destruct (Qlt_le_dec rb ra) as [Hlt|Hle].
  - right. assert (Hd : 0 <= ra - rb) by lra.
    pose proof (mult_le_l (ra - rb) _ _ Hd H0) as M0.
    pose proof (mult_le_l (ra - rb) _ _ Hd H1) as M1.
    split; lra.
  - left. assert (Hd : 0 <= rb - ra) by lra.
    pose proof (mult_le_l (rb - ra) _ _ Hd H0) as M0.
    pose proof (mult_le_l (rb - ra) _ _ Hd H1) as M1.
    split; lra.
Qed.

Lemma fraction_unit (q a b : Q) :
  a <= q -> q <= b -> 0 <= (q - a) / (b - a) /\ (q - a) / (b - a) <= 1.
Proof.
  intros Ha Hb. destruct (Qlt_le_dec a b) as [Hlt|Hle].
  - split.
    + apply Qle_shift_div_l; lra.
    + apply Qle_shift_div_r; lra.
  - assert (E : b - a == 0) by lra.
    assert (Ez : (q - a) / (b - a) == 0).
    { unfold Qdiv. rewrite E. change (/ 0) with 0. ring. }
    rewrite Ez. split; lra.
Qed.

Lemma interpolate_between_bounded (sorted : list Gauge) (q d : Q) :
  interpolate_between sorted q = Some d ->
  exists g1 g2, In g1 sorted /\ In g2 sorted /\
    linearDensityGM g1 / 1000 <= d /\ d <= linearDensityGM g2 / 1000.
Proof.
  induction sorted as [|a rest IH]; [discriminate|].
  destruct rest as [|b rest]; [discriminate|].
  cbn [interpolate_between].
  destruct ((mm a <=? q) && (q <=? mm b)) eqn:E.
  - apply andb_true_iff in E. destruct E as [Ea Eb].
    apply leb_le in Ea, Eb.
    intros Hd. injection Hd as <-.
    destruct (fraction_unit q (mm a) (mm b) Ea Eb) as [T0 T1].
    set (t := (q - mm a) / (mm b - mm a)) in *. clearbody t.
    destruct (interpolation_between (linearDensityGM a) (linearDensityGM b) t T0 T1)
      as [[L U]|[L U]].
    + exists a, b. split; [left; reflexivity|]. split; [right; left; reflexivity|].
      div_consts. split; lra.
    + exists b, a. split; [right; left; reflexivity|]. split; [left; reflexivity|].
      div_consts. split; lra.
  - intros Hd. destruct (IH Hd) as (g1 & g2 & H1 & H2 & Hb).
    exists g1, g2. split; [right; exact H1|]. split; [right; exact H2|exact Hb].
Qed.

Lemma entry_density_bounded (e : StringModel) (q d : Q) :
  entryLinearDensity e q = Some d ->
  exists g1 g2, In g1 (gauges e) /\ In g2 (gauges e) /\
    linearDensityGM g1 / 1000 <= d /\ d <= linearDensityGM g2 / 1000.
Proof.
  unfold entryLinearDensity.
  destruct (exact_gauge (gauges e) q) as [g|] eqn:Ex.
  - intros Hd. injection Hd as <-. apply exact_gauge_in in Ex.
    exists g, g. repeat split; try assumption; apply Qle_refl.
  - cbv zeta. destruct (sort_gauges (gauges e)) as [|first rest] eqn:Es;
      [discriminate|].
    assert (Hin : forall x, In x (first :: rest) -> In x (gauges e)).
    { intros x Hx. apply sort_gauges_in. rewrite Es. exact Hx. }
    destruct (q <? mm first).
    + intros Hd. injection Hd as <-.
      exists first, first.
      repeat split; try (apply Hin; left; reflexivity); apply Qle_refl.
    + destruct (mm (last_gauge first (first :: rest)) <? q).
      * intros Hd. injection Hd as <-.
        assert (Hl : In (last_gauge first (first :: rest)) (first :: rest))
          by (apply last_gauge_in; discriminate).
        exists (last_gauge first (first :: rest)), (last_gauge first (first :: rest)).
        repeat split; try (apply Hin; exact Hl); apply Qle_refl.
      * intros Hd.
        destruct (interpolate_between_bounded _ _ _ Hd) as (g1 & g2 & H1 & H2 & Hb).
        exists g1, g2. split; [apply Hin, H1|]. split; [apply Hin, H2|exact Hb].
Qed.

Lemma database_densities (e : StringModel) (g : Gauge) :
  In e STRING_DATABASE -> In g (gauges e) ->
  1.20 <= linearDensityGM g /\ linearDensityGM g <= 1.77.
Proof.
  assert (Hall : forallb densities_in_range STRING_DATABASE = true)
    by (vm_compute; reflexivity).
  rewrite forallb_forall in Hall.
  intros He Hg. specialize (Hall e He).
  unfold densities_in_range in Hall. rewrite forallb_forall in Hall.
  specialize (Hall g Hg). apply andb_true_iff in Hall.
  destruct Hall as [Ha Hb]. apply leb_le in Ha, Hb. split; assumption.
Qed.

(** X22.  For a string of the reference table the lookup never
    extrapolates: whatever the gauge asked for, the density returned lies
    between the densities tabulated for two gauges of that string, and so
    between 1.20 and 1.77 g/m, the extremes of the table. *)
Theorem lookup_within_tabulated (e : StringModel) (q : Q) :
  In e STRING_DATABASE ->
  exists d g1 g2,
    lookupLinearDensity (brand e) (Some (name e)) q = Some d /\
    In g1 (gauges e) /\ In g2 (gauges e) /\
    linearDensityGM g1 / 1000 <= d /\ d <= linearDensityGM g2 / 1000 /\
    0.00120 <= d /\ d <= 0.00177.
Proof.
  intros Hin. rewrite (lookup_in_table e q Hin).
  destruct (entryLinearDensity e q) as [d|] eqn:Ed.
  - destruct (entry_density_bounded e q d Ed) as (g1 & g2 & H1 & H2 & L & U).
    exists d, g1, g2.
    split; [reflexivity|]. split; [exact H1|]. split; [exact H2|].
    split; [exact L|]. split; [exact U|].
    destruct (database_densities e g1 Hin H1) as [A1 _].
    destruct (database_densities e g2 Hin H2) as [_ B2].
    revert L U. div_consts. intros L U. split; lra.
  - exfalso. exact (entry_density_total e q (database_well_formed e Hin) Ed).
Qed.

Lemma lookup_within_tabulated_witness :
  In alu_power STRING_DATABASE /\
  exists d, lookupLinearDensity "Luxilon" (Some "ALU Power"%string) 1.27 = Some d /\
            0.00120 <= d /\ d <= 0.00177.
Proof.
  assert (Hin : In alu_power STRING_DATABASE) by (left; reflexivity).
  split; [exact Hin|].
  destruct (lookup_within_tabulated alu_power 1.27 Hin)
    as (d & g1 & g2 & Hd & _ & _ & _ & _ & L & U).
  exists d. split; [exact Hd|]. split; [exact L|exact U].
Defined.

(** ** The lists of the form *)

Lemma existsb_eqb_In (x : string) (l : list string) :
  existsb (String.eqb x) l = true <-> In x l.
Proof.
  rewrite existsb_exists. split.
  - intros (y & Hy & E). apply String.eqb_eq in E. subst y. exact Hy.
  - intros Hx. exists x. split; [exact Hx|apply String.eqb_refl].
Qed.

Lemma set_add_spec (set : list string) (x : string) :
  List.NoDup set ->
  List.NoDup (set_add set x) /\
  forall y, In y (set_add set x) <-> In y set \/ y = x.
Proof.
  intros Hnd. unfold set_add.
  destruct (existsb (String.eqb x) set) eqn:E.
  - apply existsb_eqb_In in E. split; [exact Hnd|].
    intros y. split; [tauto|]. intros [Hy| ->]; assumption.
  - assert (Hx : ~ In x set).
    { intros Hx. apply existsb_eqb_In in Hx. congruence. }
    split.
    + apply List.NoDup_app; [exact Hnd|repeat constructor; intros []|].
      intros y Hy [<-|[]]. contradiction.
    + intros y. rewrite in_app_iff. cbn. intuition congruence.
Qed.

Lemma set_of_from (l set : list string) :
  List.NoDup set ->
  List.NoDup (fold_left set_add l set) /\
  forall y, In y (fold_left set_add l set) <-> In y set \/ In y l.
Proof.
  revert set. induction l as [|x l IH]; intros set Hnd; cbn [fold_left].
  - split; [exact Hnd|]. intros y. cbn. tauto.
  - destruct (set_add_spec set x Hnd) as [Hnd' Hin].
    destruct (IH _ Hnd') as [Hnd'' Hin'].
    split; [exact Hnd''|].
    intros y. rewrite Hin', Hin. cbn. intuition congruence.
Qed.

Lemma set_of_spec (l : list string) :
  List.NoDup (set_of l) /\ forall y, In y (set_of l) <-> In y l.
Proof.
  destruct (set_of_from l [] (List.NoDup_nil _)) as [Hnd Hin].
  split; [exact Hnd|].
  intros y. split.
  - intros Hy. apply Hin in Hy. destruct Hy as [[]|Hy]. exact Hy.
  - intros Hy. apply Hin. right. exact Hy.
Qed.

Lemma models_of_brand (db : list StringModel) (b : string) (e : StringModel) :
  In e (List.filter (fun s => String.eqb (brand s) b) db) <->
  In e db /\ brand e = b.
Proof.
  split.
  - intros He. apply filter_In in He. destruct He as [He Eb].
    apply String.eqb_eq in Eb. split; assumption.
  - intros [He Eb]. apply filter_In. split; [exact He|].
    apply String.eqb_eq, Eb.
Qed.

Lemma brands_of (db : list StringModel) (b : string) :
  In b (set_of (map brand db)) <-> exists e, In e db /\ brand e = b.
Proof.
  destruct (set_of_spec (map brand db)) as [_ Hin]. split.
  - intros Hb. apply Hin in Hb. apply in_map_iff in Hb.
    destruct Hb as (e & Eb & He). exists e. split; assumption.
  - intros (e & He & Eb). apply Hin. apply in_map_iff.
    exists e. split; assumption.
Qed.

Lemma brand_has_model (db : list StringModel) (b : string) :
  In b (set_of (map brand db)) <->
  List.filter (fun s => String.eqb (brand s) b) db <> [].
Proof.
  split.
  - intros Hb Hnil. apply brands_of in Hb. destruct Hb as (e & He & Eb).
    assert (Hx : In e (List.filter (fun s => String.eqb (brand s) b) db))
      by (apply models_of_brand; split; assumption).
    rewrite Hnil in Hx. destruct Hx.
  - intros Hne.
    destruct (List.filter (fun s => String.eqb (brand s) b) db) as [|e l] eqn:E;
      [contradiction|].
    apply brands_of. exists e. apply (models_of_brand db b e).
    rewrite E. left. reflexivity.
Qed.

(** X23.  The brands offered are the brands of the table, each once; the
    models offered for a brand are the entries of the table with that
    brand; and the brands offered are those that have a model. *)
Theorem brands_and_models :
  List.NoDup getBrands /\
  (forall b, In b getBrands <-> exists e, In e STRING_DATABASE /\ brand e = b) /\
  (forall b e, In e (getModelsForBrand b) <-> In e STRING_DATABASE /\ brand e = b) /\
  (forall b, In b getBrands <-> getModelsForBrand b <> []).
Proof.
  split; [exact (proj1 (set_of_spec (map brand STRING_DATABASE)))|].
  split; [exact (brands_of STRING_DATABASE)|].
  split; [exact (models_of_brand STRING_DATABASE)|].
  exact (brand_has_model STRING_DATABASE).
Qed.

(** ** The form, the table and the tension *)

Lemma database_keys_read_back (e : StringModel) :
  In e STRING_DATABASE -> key_reads_back e = true.
Proof.
  assert (Hall : forallb key_reads_back STRING_DATABASE = true)
    by (vm_compute; reflexivity).
  rewrite forallb_forall in Hall. apply Hall.
Qed.

Lemma database_chips_read_back (e : StringModel) (g : Gauge) :
  In e STRING_DATABASE -> In g (gauges e) -> chip_reads_back g = true.
Proof.
  assert (Hall : forallb (fun e => forallb chip_reads_back (gauges e))
                   STRING_DATABASE = true)
    by (vm_compute; reflexivity).
  rewrite forallb_forall in Hall. intros He Hg.
  specialize (Hall e He). rewrite forallb_forall in Hall. apply Hall, Hg.
Qed.

Lemma key_selection (settings : TensionSettings) (e : StringModel) :
  In e STRING_DATABASE ->
  stringKey settings = (brand e ++ "|" ++ name e)%string ->
  stringKey settings <> EmptyString /\
  split_key (stringKey settings) = (brand e, Some (name e)) /\
  selectedBrand settings = brand e /\
  selectedEntry settings = Some e.
Proof.
  intros He Hk. pose proof (database_keys_read_back e He) as Hr.
  unfold key_reads_back in Hr.
  repeat (apply andb_true_iff in Hr; destruct Hr as [Hr ?]).
  destruct (split_key (brand e ++ "|" ++ name e)) as [b [n|]] eqn:Es;
    [|discriminate].
  apply andb_true_iff in Hr. destruct Hr as [Hb Hn].
  apply String.eqb_eq in Hb, Hn. subst b n.
  assert (Hne : negb (stringKey settings =? "")%string = true)
    by (rewrite Hk; assumption).
  split; [intros E; rewrite E in Hne; discriminate|].
  split; [rewrite Hk; exact Es|].
  unfold selectedBrand, selectedEntry, selection. rewrite Hne, Hk, Es.
  split; [reflexivity|].
  match goal with
  | H1 : negb (brand e =? "")%string = true,
    H2 : negb (name e =? "")%string = true |- _ => rewrite H1, H2
  end.
  cbn [andb]. apply database_keys_unique, He.
Qed.

Lemma select_model_selects (settings : TensionSettings) (e : StringModel) :
  In e STRING_DATABASE -> selects settings (select_model settings (brand e) e) e.
Proof.
  intros He.
  destruct (key_selection (select_model settings (brand e) e) e He eq_refl)
    as (_ & _ & _ & Hsel).
  unfold selects. split; [exact Hsel|]. split; [reflexivity|].
  split; [|repeat split].
  unfold availableGauges. rewrite Hsel.
  pose proof (database_well_formed e He) as Hwf. unfold well_formed in Hwf.
  unfold select_model. cbn [gaugeMm].
  destruct (gauges e) as [|g rest] eqn:Eg; [discriminate|].
  assert (Hc : chip_reads_back g = true).
  { apply (database_chips_read_back e g He). rewrite Eg. left. reflexivity. }
  unfold chip_reads_back in Hc. apply andb_true_iff in Hc. destruct Hc as [_ Hc].
  apply negb_true_iff in Hc. rewrite Hc. left. reflexivity.
Qed.

(** X24.  Choosing a brand of the list selects the first model of that
    brand, and choosing a model of the selected brand selects that model:
    the key written to the settings reads back as the brand and the name
    and finds the entry in the table, the material becomes that of the
    entry, the gauge becomes its first gauge, which is one of the chips
    then offered, and head size, pattern and measured length are kept.
    Choosing no brand clears the selection. *)
Theorem selection_resolves (settings : TensionSettings) :
  (forall b, In b BRANDS ->
     exists model rest,
       getModelsForBrand b = model :: rest /\
       selects settings (handleBrandChange settings b) model) /\
  (forall e, In e STRING_DATABASE -> selectedBrand settings = brand e ->
     selects settings (handleModelChange settings (name e)) e) /\
  selectedEntry (handleBrandChange settings "") = None /\
  availableGauges (handleBrandChange settings "") = [].
Proof.
  split; [|split].
  - intros b Hb.
    pose proof (proj1 (brand_has_model STRING_DATABASE b) Hb) as Hne.
    pose proof (models_of_brand STRING_DATABASE b) as Hm.
    unfold handleBrandChange, getModelsForBrand.
    set (models := List.filter _ STRING_DATABASE) in *. clearbody models.
    destruct models as [|model rest]; [contradiction|].
    destruct (proj1 (Hm model) (or_introl eq_refl)) as [He Eb].
    exists model, rest. split; [reflexivity|].
    destruct (String.eqb_spec b "") as [Eb0|_].
    + exfalso. pose proof (database_keys_read_back model He) as Hr.
      unfold key_reads_back in Hr.
      repeat (apply andb_true_iff in Hr; destruct Hr as [Hr ?]).
      rewrite Eb, Eb0 in *. discriminate.
    + rewrite <- Eb. apply select_model_selects, He.
  - intros e He Hsel. unfold handleModelChange.
    rewrite Hsel, (database_keys_unique e He).
    apply select_model_selects, He.
  - split; reflexivity.
Qed.

Lemma selection_resolves_witness :
  In "Babolat"%string BRANDS /\
  stringKey (handleBrandChange DEFAULT_SETTINGS "Babolat") = "Babolat|RPM Blast"%string /\
  exists model rest,
    getModelsForBrand "Babolat" = model :: rest /\
    selects DEFAULT_SETTINGS (handleBrandChange DEFAULT_SETTINGS "Babolat") model.
Proof.
  assert (Hb : In "Babolat"%string BRANDS) by (vm_compute; tauto).
  split; [exact Hb|]. split; [reflexivity|].
  destruct (selection_resolves DEFAULT_SETTINGS) as [H1 _].
  exact (H1 "Babolat"%string Hb).
Defined.

Lemma selectedEntry_key (settings : TensionSettings) (e : StringModel) :
  selectedEntry settings = Some e ->
  In e STRING_DATABASE /\
  stringKey settings <> EmptyString /\
  split_key (stringKey settings) = (brand e, Some (name e)).
Proof.
  unfold selectedEntry, selection.
  destruct (String.eqb_spec (stringKey settings) "") as [E|Hne]; cbn [negb].
  - cbn. discriminate.
  - destruct (split_key (stringKey settings)) as [b [n|]]; [|discriminate].
    destruct (negb (b =? "")%string && negb (n =? "")%string); [|discriminate].
    intros Hf. split; [exact (find_entry_in _ _ _ Hf)|]. split; [exact Hne|].
    unfold find_entry in Hf. apply find_some in Hf. destruct Hf as [_ Hf].
    apply andb_true_iff in Hf. destruct Hf as [Hb Hn].
    apply String.eqb_eq in Hb, Hn. subst b n. reflexivity.
Qed.

Section ChipFacts.
Context `{Math}.

(** X25.  With a string of the table selected, every gauge chip offered
    leads to the density measured for that gauge: after the chip is
    chosen the tension is computed with the tabulated density of the
    gauge, times the correction for the pattern, neither interpolated
    nor taken from the cylinder model. *)
Theorem gauge_chip_density (settings : TensionSettings) (e : StringModel)
    (g : Gauge) (f : Q) :
  selectedEntry settings = Some e -> In g (gauges e) ->
  let chip := JsNumber.toString (mm g) in
  In chip (availableGauges settings) /\
  computeTension (handleGaugeChip settings chip) f =
    calculateTension f (stringLengthOf settings)
      (linearDensityGM g / 1000
       * crossStringMassLoadingFactor
           (crosses (parseStringPattern (stringPattern settings)))).
Proof.
  intros Hsel Hg chip.
  destruct (selectedEntry_key settings e Hsel) as (He & Hne & Hsplit).
  split.
  { unfold availableGauges. rewrite Hsel. apply in_map_iff.
    exists g. split; [reflexivity|exact Hg]. }
  pose proof (database_chips_read_back e g He Hg) as Hc.
  unfold chip_reads_back in Hc. fold chip in Hc.
  apply andb_true_iff in Hc. destruct Hc as [Hc _].
  destruct (Js.parseFloat chip) as [v|] eqn:Ev; [|discriminate].
  repeat (apply andb_true_iff in Hc; destruct Hc as [Hc ?]).
  unfold computeTension. cbv zeta.
  change (gaugeMm (handleGaugeChip settings chip)) with chip.
  change (stringPattern (handleGaugeChip settings chip))
    with (stringPattern settings).
  change (stringLengthOf (handleGaugeChip settings chip))
    with (stringLengthOf settings).
  rewrite Ev. unfold Js.or_default.
  change (Js.truthy v) with (v !=? 0).
  match goal with Hnz : (v !=? 0) = true |- _ => rewrite Hnz end.
  match goal with Hlt : (v <? 3) = true |- _ =>
    apply ltb_lt in Hlt; rewrite (normalize_below_3 v Hlt) end.
  assert (Hd : linearDensityOf (handleGaugeChip settings chip) v
               = linearDensityGM g / 1000).
  { unfold linearDensityOf.
    change (stringKey (handleGaugeChip settings chip)) with (stringKey settings).
    destruct (String.eqb_spec (stringKey settings) "") as [E|_]; [contradiction|].
    cbn [negb]. rewrite Hsplit, (lookup_in_table e v He).
    rewrite (entry_near e v g (database_well_formed e He) Hg); [reflexivity|].
    apply eqb_eq in Hc. rewrite Hc.
    assert (E0 : mm g - mm g == 0) by ring.
    rewrite E0. reflexivity. }
  rewrite Hd. reflexivity.
Qed.

End ChipFacts.

Lemma gauge_chip_density_witness :
  selectedEntry babolat_settings
    = Some (SM "Babolat" "RPM Blast" Polyester
              [G 1.20 1.36; G 1.25 1.48; G 1.30 1.63; G 1.35 1.74]) /\
  In "1.3"%string (availableGauges babolat_settings) /\
  computeTension (handleGaugeChip babolat_settings "1.3") 420 =
    calculateTension 420 (stringLengthOf babolat_settings)
      (1.63 / 1000
       * crossStringMassLoadingFactor
           (crosses (parseStringPattern (stringPattern babolat_settings)))).
Proof.
  split; [reflexivity|].
  apply (@gauge_chip_density RationalMath babolat_settings
           (SM "Babolat" "RPM Blast" Polyester
              [G 1.20 1.36; G 1.25 1.48; G 1.30 1.63; G 1.35 1.74])
           (G 1.30 1.63) 420).
  - reflexivity.
  - right. right. left. reflexivity.
Defined.

(** X26.  Every option that the form offers is understood where the
    tension is computed, so that no fallback value stands in for a
    choice: the patterns match the pattern syntax, the head sizes read as
    positive numbers, the materials have a density that is not zero, and
    the material of every string of the table is one of them. *)
Theorem form_options_recognised :
  (forall p, In p PATTERNS ->
     exists d1 d2, pattern_shape (list_ascii_of_string p) d1 d2) /\
  (forall s, In s HEAD_SIZES -> exists v, Js.parseFloat s = Some v /\ 0 < v) /\
  (forall m, In m MATERIALS ->
     exists rho, MATERIAL_DENSITIES !! m = Some rho /\ 0 < rho /\
                 Js.or_default (MATERIAL_DENSITIES !! m) 1380 = rho) /\
  (forall e, In (material_name (StringDatabase.material e)) MATERIALS).
Proof.
  split; [|split; [|split]].
  - intros p Hp.
    assert (Hm : exists d1 d2, match_pattern (list_ascii_of_string p) = Some (d1, d2)).
    { unfold PATTERNS in Hp. cbn [In] in Hp.
      repeat (destruct Hp as [<-|Hp]; [eexists; eexists; vm_compute; reflexivity|]).
      destruct Hp. }
    destruct Hm as (d1 & d2 & Hm). exists d1, d2.
    apply match_pattern_shape, Hm.
  - intros s Hs. unfold HEAD_SIZES in Hs. cbn [In] in Hs.
    repeat (destruct Hs as [<-|Hs];
            [eexists; split; [vm_compute; reflexivity|reflexivity]|]).
    destruct Hs.
  - intros m Hm. unfold MATERIALS in Hm. cbn [In] in Hm.
    repeat (destruct Hm as [<-|Hm];
            [eexists; split; [vm_compute; reflexivity|split; reflexivity]|]).
    destruct Hm.
  - intros e. destruct (StringDatabase.material e); vm_compute; tauto.
Qed.

(** ** The status line *)

Lemma status_locked_only (hasFreq : bool) (n : Z) :
  getStatusMessage hasFreq n = "Frequency locked!"%string <-> (5 <= n)%Z.
Proof.
  unfold getStatusMessage. destruct (Z.leb_spec 5 n) as [H5|H5].
  - tauto.
  - split; [|lia]. destruct (0 <? n)%Z; [cbn; discriminate|].
    destruct hasFreq; discriminate.
Qed.

(** X27.  In every state of the hook the status line tells the lock:
    it reads "Frequency locked!" exactly when the hook is locked; while
    the hook is not locked and has readings it reads
    "Locking in... n/5 readings" with the number [n] of readings in the
    buffer, from 1 to 4; and the two other messages appear with an empty
    buffer only. *)
Theorem status_line_tells_lock (h : Hook) :
  reach h ->
  let n := Js.len (lockReadingsRef h) in
  (statusMsg (state h) = "Frequency locked!"%string <-> lockedRef h = true) /\
  (lockedRef h = false -> lockReadingsRef h <> [] ->
   (1 <= n <= 4)%Z /\
   statusMsg (state h)
   = ("Locking in... " ++ JsNumber.toString (inject_Z n) ++ "/5 readings")%string) /\
  (lockReadingsRef h = [] ->
   statusMsg (state h)
   = match frequency (state h) with
     | Some _ => "Frequency detected — keep plucking"%string
     | None => "Tap or pluck a string to begin"%string
     end).
Proof.
  intros Hr n.
  destruct (hook_inv_reach h Hr) as ((H5 & H4 & _) & Hsnap & _ & Hfull & _).
  unfold statusMsg. rewrite Hsnap. fold n.
  assert (Hn : (0 <= n <= 5)%Z) by (unfold n, Js.len; lia).
  split; [|split].
  - rewrite status_locked_only. split.
    + intros Hge. destruct (lockedRef h); [reflexivity|].
      specialize (H4 eq_refl). unfold n, Js.len in Hge. lia.
    + intros Hl. specialize (Hfull Hl). unfold n, Js.len. lia.
  - intros Hl Hne. specialize (H4 Hl).
    assert (Hpos : (1 <= n <= 4)%Z).
    { unfold n, Js.len. destruct (lockReadingsRef h); [congruence|].
      cbn [length] in *. lia. }
    split; [exact Hpos|]. unfold getStatusMessage.
    destruct (Z.leb_spec 5 n); [lia|].
    destruct (Z.ltb_spec 0 n); [reflexivity|lia].
  - intros Hnil. unfold n. rewrite Hnil.
    destruct (frequency (state h)); reflexivity.
Qed.

Lemma status_line_tells_lock_witness :
  reach two_readings_hook /\
  lockedRef two_readings_hook = false /\
  statusMsg (state two_readings_hook) = "Locking in... 2/5 readings"%string.
Proof.
  assert (Hr : reach two_readings_hook).
  { unfold two_readings_hook. do 2 apply reach_frame_on.
    apply reach_listening_hook. }
  split; [exact Hr|]. split; [reflexivity|].
  destruct (status_line_tells_lock two_readings_hook Hr) as (_ & Hmsg & _).
  destruct Hmsg as [_ Hmsg]; [reflexivity|vm_compute; discriminate|].
  exact Hmsg.
Defined.

(** ** The peak does not depend on the loudness *)

Lemma scaled_length (c : Q) (l l' : list Q) :
  scaled c l l' -> length l' = length l.
Proof. intros Hs. symmetry. exact (Forall2_length _ _ _ Hs). Qed.

Lemma scaled_get (c : Q) (l l' : list Q) (i : Z) :
  scaled c l l' -> Js.get l' i == c * Js.get l i.
Proof.
  intros Hs. unfold Js.get. revert l l' Hs.
  induction (Z.to_nat i) as [|n IH]; intros l l' Hs;
    destruct Hs as [|x y l l' Hxy Hs]; cbn [nth]; try ring.
  - exact Hxy.
  - apply IH, Hs.
Qed.

Lemma scaled_set (c : Q) (l l' : list Q) (i : Z) (v v' : Q) :
  scaled c l l' -> v' == c * v -> scaled c (Js.set l i v) (Js.set l' i v').
Proof. intros Hs Hv. unfold Js.set. apply Forall2_insert; assumption. Qed.

Lemma scaled_swap (c : Q) (l l' : list Q) (i j : Z) :
  scaled c l l' -> scaled c (swap l i j) (swap l' i j).
Proof.
  intros Hs. unfold swap.
  apply scaled_set; [apply scaled_set; [exact Hs|]|]; apply scaled_get, Hs.
Qed.

Lemma scaled_bitrev_loop (c : Q) (count : nat) :
  forall n i j re im re' im',
    scaled c re re' -> scaled c im im' ->
    scaled c (fst (bitrev_loop count n i j re im))
             (fst (bitrev_loop count n i j re' im')) /\
    scaled c (snd (bitrev_loop count n i j re im))
             (snd (bitrev_loop count n i j re' im')).
Proof.
  induction count as [|count IH]; intros n i j re im re' im' Hre Him;
    cbn [bitrev_loop].
  - split; assumption.
  - destruct (bitrev_carry _ _ _) as [j1 bit1].
    destruct (i <? Z.lxor j1 bit1)%Z.
    + apply IH; apply scaled_swap; assumption.
    + apply IH; assumption.
Qed.

Section ScaleFacts.
Context `{Math}.

Lemma scaled_butterfly_inner (c : Q) (count : nat) :
  forall i j halfLen wRe wIm curRe curIm re im re' im',
    scaled c re re' -> scaled c im im' ->
    scaled c (fst (butterfly_inner count i j halfLen wRe wIm curRe curIm re im))
             (fst (butterfly_inner count i j halfLen wRe wIm curRe curIm re' im')) /\
    scaled c (snd (butterfly_inner count i j halfLen wRe wIm curRe curIm re im))
             (snd (butterfly_inner count i j halfLen wRe wIm curRe curIm re' im')).
Proof.
  induction count as [|count IH];
    intros i j halfLen wRe wIm curRe curIm re im re' im' Hre Him;
    cbn [butterfly_inner].
  - split; assumption.
  - cbv zeta.
    assert (Hre1 : scaled c
      (Js.set re (i + j + halfLen)
         (Js.get re (i + j)
          - (curRe * Js.get re (i + j + halfLen)
             - curIm * Js.get im (i + j + halfLen))))
      (Js.set re' (i + j + halfLen)
         (Js.get re' (i + j)
          - (curRe * Js.get re' (i + j + halfLen)
             - curIm * Js.get im' (i + j + halfLen))))).
    { apply scaled_set; [exact Hre|].
      rewrite (scaled_get c re re' (i + j) Hre),
        (scaled_get c re re' (i + j + halfLen) Hre),
        (scaled_get c im im' (i + j + halfLen) Him). ring. }
    assert (Him1 : scaled c
      (Js.set im (i + j + halfLen)
         (Js.get im (i + j)
          - (curRe * Js.get im (i + j + halfLen)
             + curIm * Js.get re (i + j + halfLen))))
      (Js.set im' (i + j + halfLen)
         (Js.get im' (i + j)
          - (curRe * Js.get im' (i + j + halfLen)
             + curIm * Js.get re' (i + j + halfLen))))).
    { apply scaled_set; [exact Him|].
      rewrite (scaled_get c im im' (i + j) Him),
        (scaled_get c re re' (i + j + halfLen) Hre),
        (scaled_get c im im' (i + j + halfLen) Him). ring. }
    apply IH.
    + apply scaled_set; [exact Hre1|].
      rewrite (scaled_get c _ _ (i + j) Hre1),
        (scaled_get c re re' (i + j + halfLen) Hre),
        (scaled_get c im im' (i + j + halfLen) Him). ring.
    + apply scaled_set; [exact Him1|].
      rewrite (scaled_get c _ _ (i + j) Him1),
        (scaled_get c re re' (i + j + halfLen) Hre),
        (scaled_get c im im' (i + j + halfLen) Him). ring.
Qed.

Lemma scaled_butterfly_blocks (c : Q) (count : nat) :
  forall i len halfLen wRe wIm re im re' im',
    scaled c re re' -> scaled c im im' ->
    scaled c (fst (butterfly_blocks count i len halfLen wRe wIm re im))
             (fst (butterfly_blocks count i len halfLen wRe wIm re' im')) /\
    scaled c (snd (butterfly_blocks count i len halfLen wRe wIm re im))
             (snd (butterfly_blocks count i len halfLen wRe wIm re' im')).
Proof.
  induction count as [|count IH]; intros i len halfLen wRe wIm re im re' im' Hre Him;
    cbn [butterfly_blocks].
  - split; assumption.
  - pose proof (scaled_butterfly_inner c (Z.to_nat halfLen) i 0 halfLen wRe wIm
                  1 0 re im re' im' Hre Him) as [H1 H2].
    destruct (butterfly_inner _ _ _ _ _ _ _ _ re im) as [re1 im1].
    destruct (butterfly_inner _ _ _ _ _ _ _ _ re' im') as [re1' im1'].
    cbn [fst snd] in *. apply IH; assumption.
Qed.

Lemma scaled_butterfly_passes (c : Q) (fuel : nat) :
  forall n len re im re' im',
    scaled c re re' -> scaled c im im' ->
    scaled c (fst (butterfly_passes fuel n len re im))
             (fst (butterfly_passes fuel n len re' im')) /\
    scaled c (snd (butterfly_passes fuel n len re im))
             (snd (butterfly_passes fuel n len re' im')).
Proof.
  induction fuel as [|fuel IH]; intros n len re im re' im' Hre Him;
    cbn [butterfly_passes].
  - split; assumption.
  - destruct (len <=? n)%Z; [|split; assumption].
    cbv zeta.
    pose proof (scaled_butterfly_blocks c (Z.to_nat ((n + len - 1) / len)) 0 len
                  (len / 2) (Math_cos (-2 * Math_PI / inject_Z len))
                  (Math_sin (-2 * Math_PI / inject_Z len))
                  re im re' im' Hre Him) as [H1 H2].
    destruct (butterfly_blocks _ _ _ _ _ _ re im) as [re1 im1].
    destruct (butterfly_blocks _ _ _ _ _ _ re' im') as [re1' im1'].
    cbn [fst snd] in *. apply IH; assumption.
Qed.

Lemma scaled_fft (c : Q) (re im re' im' : list Q) :
  scaled c re re' -> scaled c im im' ->
  scaled c (fst (fft re im)) (fst (fft re' im')) /\
  scaled c (snd (fft re im)) (snd (fft re' im')).
Proof.
  intros Hre Him. unfold fft, Js.len.
  rewrite (scaled_length c re re' Hre).
  destruct (Z.of_nat (length re) <=? 1)%Z; [split; assumption|].
  pose proof (scaled_bitrev_loop c (Z.to_nat (Z.of_nat (length re) - 1))
                (Z.of_nat (length re)) 1 0 re im re' im' Hre Him) as [H1 H2].
  destruct (bitrev_loop _ _ _ _ re im) as [re1 im1].
  destruct (bitrev_loop _ _ _ _ re' im') as [re1' im1'].
  cbn [fst snd] in *. apply scaled_butterfly_passes; assumption.
Qed.

Lemma scaled_subarray (c : Q) (l l' : list Q) (b e : Z) :
  scaled c l l' -> scaled c (Js.subarray l b e) (Js.subarray l' b e).
Proof.
  intros Hs. unfold Js.subarray. apply Forall2_take, Forall2_drop, Hs.
Qed.

Lemma scaled_imap (c : Q) (l l' : list Q) :
  scaled c l l' ->
  forall f : nat -> Q -> Q,
    (forall i x y, y == c * x -> f i y == c * f i x) ->
    scaled c (imap f l) (imap f l').
Proof.
  induction 1 as [|x y l l' Hxy Hl IH]; intros f Hf; cbn [imap].
  - constructor.
  - constructor; [apply Hf, Hxy|].
    apply IH. intros i a b Hab. apply Hf, Hab.
Qed.

Lemma scaled_windowed (c : Q) (samples samples' : list Q) :
  scaled c samples samples' ->
  scaled c (windowed samples) (windowed samples').
Proof.
  intros Hs. unfold windowed, Js.len. cbv zeta.
  rewrite (scaled_length c samples samples' Hs).
  apply Forall2_app.
  - apply scaled_imap; [apply scaled_subarray, Hs|].
    intros i x y Hxy. rewrite Hxy. ring.
  - unfold scaled. apply Forall2_replicate. ring.
Qed.

Lemma scaled_power (c : Q) (re im re' im' : list Q) (k : Z) :
  scaled c re re' -> scaled c im im' ->
  power re' im' k == c * c * power re im k.
Proof.
  intros Hre Him. unfold power.
  rewrite (scaled_get c re re' k Hre), (scaled_get c im im' k Him). ring.
Qed.

Lemma scaled_peak_fold (c : Q) (re im re' im' : list Q) (l : list Z) :
  0 < c * c -> scaled c re re' -> scaled c im im' ->
  forall (i0 : Z) (m m' : Q),
    m' == c * c * m ->
    snd (fold_left (peak_step re' im') l (m', i0))
    = snd (fold_left (peak_step re im) l (m, i0)) /\
    fst (fold_left (peak_step re' im') l (m', i0))
    == c * c * fst (fold_left (peak_step re im) l (m, i0)).
Proof.
  intros Hcc Hre Him.
  induction l as [|k l IH]; intros i0 m m' Hm; cbn [fold_left].
  - cbn. split; [reflexivity|exact Hm].
  - pose proof (scaled_power c re im re' im' k Hre Him) as Hp.
    assert (Hlt : (m' <? power re' im' k) = (m <? power re im k)).
    { destruct (m <? power re im k) eqn:E.
      - apply ltb_lt in E. apply ltb_lt. rewrite Hm, Hp.
        apply Qmult_lt_l; assumption.
      - apply ltb_ge in E. apply ltb_ge. rewrite Hm, Hp.
        apply Qmult_le_l; assumption. }
    assert (E1 : peak_step re' im' (m', i0) k
                 = if m <? power re im k then (power re' im' k, k) else (m', i0))
      by (unfold peak_step; cbn [fst]; rewrite Hlt; reflexivity).
    assert (E2 : peak_step re im (m, i0) k
                 = if m <? power re im k then (power re im k, k) else (m, i0))
      by reflexivity.
    rewrite E1, E2. destruct (m <? power re im k).
    + apply IH. exact Hp.
    + apply IH. exact Hm.
Qed.

Lemma scaled_peak_search (c : Q) (re im re' im' : list Q) (sr : Q) :
  ~ c == 0 -> scaled c re re' -> scaled c im im' ->
  snd (peak_search re' im' sr) = snd (peak_search re im sr) /\
  fst (peak_search re' im' sr) == c * c * fst (peak_search re im sr).
Proof.
  intros Hc Hre Him. unfold peak_search.
  assert (Hcc : 0 < c * c).
  { destruct (Qlt_le_dec c 0) as [Hn|Hp].
    - assert (E : c * c == (- c) * (- c)) by ring.
      rewrite E. apply Qmult_lt_0_compat; lra.
    - assert (Hpos : 0 < c).
      { apply Qle_lteq in Hp. destruct Hp as [Hp|Hp]; [exact Hp|].
        exfalso. apply Hc. symmetry. exact Hp. }
      apply Qmult_lt_0_compat; exact Hpos. }
  apply scaled_peak_fold; try assumption. ring.
Qed.

(** X28.  The peak does not depend on the loudness: when every sample is
    multiplied by the same factor, which is not zero, every entry of the
    spectrum is multiplied by it, the search finds the same bin, and an
    estimate is returned for the one signal exactly when one is returned
    for the other, whatever the square root, the cosine and the sine. *)
Theorem peak_bin_scale_invariant (c : Q) (samples samples' : list Q) (sr : Q) :
  ~ c == 0 ->
  Forall2 (fun x y => y == c * x) samples samples' ->
  let re := fst (spectrum samples) in
  let im := snd (spectrum samples) in
  let re' := fst (spectrum samples') in
  let im' := snd (spectrum samples') in
  Forall2 (fun x y => y == c * x) re re' /\
  Forall2 (fun x y => y == c * x) im im' /\
  snd (peak_search re' im' sr) = snd (peak_search re im sr) /\
  (detectFundamentalFrequency samples' sr = None <->
   detectFundamentalFrequency samples sr = None).
Proof.
  intros Hc Hs re im re' im'.
  assert (Hz : scaled c (replicate (Z.to_nat fftSize) 0)
                 (replicate (Z.to_nat fftSize) 0)).
  { apply Forall2_replicate. ring. }
  destruct (scaled_fft c _ _ _ _ (scaled_windowed c samples samples' Hs) Hz)
    as [Hre Him].
  fold (spectrum samples) in Hre, Him. fold (spectrum samples') in Hre, Him.
  fold re im re' im' in Hre, Him.
  destruct (scaled_peak_search c re im re' im' sr Hc Hre Him) as [Hbin _].
  split; [exact Hre|]. split; [exact Him|]. split; [exact Hbin|].
  unfold detectFundamentalFrequency.
  subst re im re' im'.
  destruct (spectrum samples) as [re im], (spectrum samples') as [re' im'].
  cbn [fst snd] in *. unfold detect_peak.
  destruct (peak_search re im sr) as [m i], (peak_search re' im' sr) as [m' i'].
  cbn [snd] in Hbin. subst i'.
  destruct (i <? 0)%Z; [tauto|]. split; discriminate.
Qed.

End ScaleFacts.

Lemma peak_bin_scale_invariant_witness :
  ~ 2 == 0 /\
  Forall2 (fun x y => y == 2 * x) [1; -1; 0.5] [2; -2; 1] /\
  snd (peak_search (fst (spectrum [2; -2; 1])) (snd (spectrum [2; -2; 1])) 48000)
  = snd (peak_search (fst (spectrum [1; -1; 0.5])) (snd (spectrum [1; -1; 0.5])) 48000).
Proof.
  assert (Hc : ~ 2 == 0) by discriminate.
  assert (Hs : Forall2 (fun x y => y == 2 * x) [1; -1; 0.5] [2; -2; 1])
    by (repeat constructor).
  split; [exact Hc|]. split; [exact Hs|].
  pose proof (@peak_bin_scale_invariant RationalMath 2 [1; -1; 0.5] [2; -2; 1]
                48000 Hc Hs) as Ht.
  cbv zeta in Ht. destruct Ht as (_ & _ & Hbin & _). exact Hbin.
Defined.

(** ** The curve of the graph *)

Lemma bytes_get (l : list Q) (i : Z) :
  bytes l -> 0 <= Js.get l i /\ Js.get l i <= 255.
Proof.
  intros Hl. unfold Js.get.
  destruct (nth_in_or_default (Z.to_nat i) l 0) as [Hin|E].
  - unfold bytes in Hl. rewrite List.Forall_forall in Hl. apply Hl, Hin.
  - rewrite E. split; discriminate.
Qed.

Lemma peak_fold_bounds (freqData : list Q) (minBin : Z) (l : list Z) :
  forall p0 : Q,
    let step := fun (peakVal : Q) (i : Z) =>
      if peakVal <? Js.get freqData (minBin + i)
      then Js.get freqData (minBin + i) else peakVal in
    p0 <= fold_left step l p0 /\
    (forall i, In i l -> Js.get freqData (minBin + i) <= fold_left step l p0) /\
    (fold_left step l p0 = p0 \/
     exists i, In i l /\ fold_left step l p0 = Js.get freqData (minBin + i)).
Proof.
  induction l as [|k l IH]; intros p0 step; cbn [fold_left].
  - split; [apply Qle_refl|]. split; [intros i []|]. left. reflexivity.
  - destruct (IH (step p0 k)) as (Hle & Hall & Hcase). fold step in Hle, Hall, Hcase.
    assert (Hstep : p0 <= step p0 k /\ Js.get freqData (minBin + k) <= step p0 k /\
                    (step p0 k = p0 \/ step p0 k = Js.get freqData (minBin + k))).
    { unfold step. destruct (p0 <? Js.get freqData (minBin + k)) eqn:E.
      - apply ltb_lt in E. split; [lra|]. split; [apply Qle_refl|]. right. reflexivity.
      - apply ltb_ge in E. split; [apply Qle_refl|]. split; [exact E|]. left. reflexivity. }
    destruct Hstep as (H1 & H2 & H3).
    split; [lra|]. split.
    + intros i [<-|Hi]; [lra|apply Hall, Hi].
    + destruct Hcase as [E|(i & Hi & E)].
      * rewrite E. destruct H3 as [H3|H3]; [left; exact H3|].
        right. exists k. split; [left; reflexivity|exact H3].
      * right. exists i. split; [right; exact Hi|exact E].
Qed.

Lemma point_val_eq (d p : Q) :
  0 < p -> (d / 255) * ((255 / p) * 0.85) == 0.85 * (d / p).
Proof. intros Hp. field. lra. Qed.

(** X29.  The curve of the graph stays inside the plot: for byte data
    and a turn [i] of the path loop, the value drawn is from 0 to 0.85 of
    the height, so that the clamp at 1 never cuts it, the ordinate lies
    between the top of the plot lowered by 15% of its height and its
    bottom, and the abscissa lies between the left and the right edge;
    a bin with the largest value of the range, if it is above 1, is drawn
    at 85% of the height.  The bins drawn are bins of the data. *)
Theorem curve_inside_plot (W H : Q) (freqData : list Q) (minBin binRange i : Z) :
  Forall (fun v => 0 <= v /\ v <= 255) freqData ->
  (0 <= i <= binRange)%Z -> (0 < binRange)%Z ->
  0 <= FrequencyGraph.gW W -> 0 <= FrequencyGraph.gH H ->
  let val := FrequencyGraph.point_val freqData minBin binRange i in
  let x := FrequencyGraph.point_x W binRange i in
  let y := FrequencyGraph.point_y H freqData minBin binRange i in
  let peak := FrequencyGraph.peakVal freqData minBin binRange in
  0 <= val /\ val <= 0.85 /\
  val == 0.85 * (Js.get freqData (minBin + i) / peak) /\
  FrequencyGraph.pad_left <= x /\
  x <= FrequencyGraph.pad_left + FrequencyGraph.gW W /\
  FrequencyGraph.pad_top + 0.15 * FrequencyGraph.gH H <= y /\
  y <= FrequencyGraph.pad_top + FrequencyGraph.gH H /\
  (1 < peak -> Js.get freqData (minBin + i) == peak -> val == 0.85) /\
  (forall sampleRate fftSize len,
     0 < sampleRate -> 0 < fftSize ->
     (0 <= FrequencyGraph.minBin sampleRate fftSize)%Z /\
     (FrequencyGraph.maxBin sampleRate fftSize len <= len - 1)%Z).
Proof.
  intros Hb Hi Hr HW HH val x y peak.
  pose proof (peak_fold_bounds freqData minBin (seqZ 0 (binRange + 1)) 1)
    as (Hp1 & Hall & _).
  cbv zeta in Hp1, Hall. fold (FrequencyGraph.peakVal freqData minBin binRange) in Hp1, Hall.
  fold peak in Hp1, Hall.
  assert (Hd : Js.get freqData (minBin + i) <= peak).
  { apply Hall. apply In_seqZ. lia. }
  destruct (bytes_get freqData (minBin + i) Hb) as [Hd0 _].
  set (d := Js.get freqData (minBin + i)) in *.
  assert (Hpos : 0 < peak) by lra.
  assert (Hq : 0 <= d / peak /\ d / peak <= 1).
  { split; [apply Qle_shift_div_l; lra|apply Qle_shift_div_r; lra]. }
  assert (Hraw : (d / 255) * FrequencyGraph.scale freqData minBin binRange
                 == 0.85 * (d / peak)).
  { unfold FrequencyGraph.scale. fold peak. apply point_val_eq, Hpos. }
  assert (Hval : val == 0.85 * (d / peak)).
  { unfold val, FrequencyGraph.point_val, FrequencyGraph.min. fold d.
    destruct (_ <? 1) eqn:E; [exact Hraw|].
    apply ltb_ge in E. rewrite Hraw in E. exfalso. lra. }
  assert (Hv : 0 <= val /\ val <= 0.85) by (rewrite Hval; split; lra).
  destruct Hv as [Hv0 Hv1].
  assert (Hfrac : 0 <= inject_Z i / inject_Z binRange /\
                  inject_Z i / inject_Z binRange <= 1).
  { assert (0 < inject_Z binRange) by (rewrite <- (Zlt_Qlt 0); lia).
    assert (0 <= inject_Z i) by (rewrite <- (Zle_Qle 0); lia).
    assert (inject_Z i <= inject_Z binRange) by (rewrite <- Zle_Qle; lia).
    split; [apply Qle_shift_div_l; lra|apply Qle_shift_div_r; lra]. }
  destruct Hfrac as [Hf0 Hf1].
  pose proof (mult_le_l (FrequencyGraph.gW W) _ _ HW Hf0) as Mx0.
  pose proof (mult_le_l (FrequencyGraph.gW W) _ _ HW Hf1) as Mx1.
  pose proof (mult_le_l (FrequencyGraph.gH H) _ _ HH Hv0) as My0.
  pose proof (mult_le_l (FrequencyGraph.gH H) _ _ HH Hv1) as My1.
  split; [exact Hv0|]. split; [exact Hv1|]. split; [exact Hval|].
  unfold x, y, FrequencyGraph.point_x, FrequencyGraph.point_y. fold val.
  set (t := inject_Z i / inject_Z binRange) in *. clearbody t.
  set (gw := FrequencyGraph.gW W) in *. set (gh := FrequencyGraph.gH H) in *.
  clearbody gw gh val.
  split; [lra|]. split; [lra|]. split; [lra|]. split; [lra|].
  split.
  - intros _ Hdp. rewrite Hval, Hdp.
    assert (E : peak / peak == 1) by (field; lra).
    rewrite E. reflexivity.
  - intros sampleRate fftSize len Hsr Hfft.
    split; [|apply Z.le_min_r].
    unfold FrequencyGraph.minBin, Js.floor.
    change 0%Z with (Qfloor 0). apply Qfloor_resp_le.
    apply Qle_shift_div_l; [apply Qlt_shift_div_l; lra|].
    unfold FrequencyGraph.MIN_HZ. lra.
Qed.

Lemma curve_inside_plot_witness :
  Forall (fun v => 0 <= v /\ v <= 255) example_freqData /\
  FrequencyGraph.peakVal example_freqData 1 5 == 200 /\
  FrequencyGraph.point_val example_freqData 1 5 2 == 0.85 /\
  FrequencyGraph.point_y 160 example_freqData 1 5 2
    <= FrequencyGraph.pad_top + FrequencyGraph.gH 160.
Proof.
  assert (Hb : Forall (fun v => 0 <= v /\ v <= 255) example_freqData).
  { unfold example_freqData. repeat constructor; discriminate. }
  split; [exact Hb|]. split; [reflexivity|].
  destruct (curve_inside_plot 300 160 example_freqData 1 5 2 Hb)
    as (_ & _ & _ & _ & _ & _ & Hy & Hpeak & _);
    [lia|lia|discriminate|discriminate|].
  split; [|exact Hy].
  apply Hpeak; reflexivity.
Defined.

(** ** The reordering step of the transform *)

Lemma lxor_bound (k a b : Z) :
  (0 <= a < 2 ^ k)%Z -> (0 <= b < 2 ^ k)%Z -> (0 <= Z.lxor a b < 2 ^ k)%Z.
Proof.
  intros Ha Hb.
  assert (H0 : (0 <= Z.lxor a b)%Z) by (apply Z.lxor_nonneg; lia).
  split; [exact H0|].
  destruct (Z.eq_dec (Z.lxor a b) 0%Z) as [E|Hne]; [lia|].
  assert (Hk : (0 < k)%Z).
  { destruct (Z.ltb_spec 0%Z k) as [?|Hk0]; [assumption|].
    exfalso. assert (k = 0 \/ k < 0)%Z as [->|Hneg] by lia.
    - assert (a = 0%Z) by lia. assert (b = 0%Z) by lia. subst. apply Hne. reflexivity.
    - rewrite Z.pow_neg_r in Ha by lia. lia. }
  apply Z.log2_lt_pow2; [lia|].
  pose proof (Z.log2_lxor a b ltac:(lia) ltac:(lia)) as Hl.
  assert (La : (Z.log2 a < k)%Z).
  { destruct (Z.eq_dec a 0%Z) as [->|?]; [exact Hk|]. apply Z.log2_lt_pow2; lia. }
  assert (Lb : (Z.log2 b < k)%Z).
  { destruct (Z.eq_dec b 0%Z) as [->|?]; [exact Hk|]. apply Z.log2_lt_pow2; lia. }
  lia.
Qed.

Lemma shiftr_bound (k bit : Z) :
  (0 <= bit < 2 ^ k)%Z -> (0 <= Z.shiftr bit 1 < 2 ^ k)%Z.
Proof.
  intros Hb. rewrite Z.shiftr_div_pow2 by lia. change (2 ^ 1)%Z with 2%Z.
  pose proof (Z.div_pos bit 2%Z). pose proof (Z.div_le_upper_bound bit 2%Z bit).
  lia.
Qed.

Lemma bitrev_carry_bound (k : Z) (fuel : nat) :
  forall j bit,
    (0 <= j < 2 ^ k)%Z -> (0 <= bit < 2 ^ k)%Z ->
    (0 <= fst (bitrev_carry fuel j bit) < 2 ^ k)%Z /\
    (0 <= snd (bitrev_carry fuel j bit) < 2 ^ k)%Z.
Proof.
  induction fuel as [|fuel IH]; intros j bit Hj Hb; cbn [bitrev_carry].
  - split; assumption.
  - destruct (Z.land j bit =? 0)%Z; [split; assumption|].
    apply IH; [apply lxor_bound; assumption|apply shiftr_bound; assumption].
Qed.

Lemma exchange_involutive (i j p : nat) : exchange i j (exchange i j p) = p.
Proof.
  unfold exchange.
  destruct (Nat.eqb_spec p i) as [->|Hpi].
  - destruct (Nat.eqb_spec j i) as [->|Hji]; [reflexivity|].
    rewrite Nat.eqb_refl. reflexivity.
  - destruct (Nat.eqb_spec p j) as [->|Hpj].
    + rewrite Nat.eqb_refl. reflexivity.
    + destruct (Nat.eqb_spec p i); [contradiction|].
      destruct (Nat.eqb_spec p j); [contradiction|reflexivity].
Qed.

Lemma exchange_bound (n i j p : nat) :
  (i < n)%nat -> (j < n)%nat -> (p < n)%nat -> (exchange i j p < n)%nat.
Proof.
  intros Hi Hj Hp. unfold exchange.
  destruct (Nat.eqb p i); [exact Hj|]. destruct (Nat.eqb p j); assumption.
Qed.

Lemma get_lookup (a : list Q) (i : Z) :
  (Z.to_nat i < length a)%nat -> a !! Z.to_nat i = Some (Js.get a i).
Proof.
  intros Hi. unfold Js.get.
  destruct (lookup_lt_is_Some_2 a (Z.to_nat i) Hi) as [x Hx].
  rewrite Hx. f_equal. symmetry. apply nth_lookup_Some with (d := 0) in Hx.
  exact Hx.
Qed.

Lemma swap_lookup (a : list Q) (i j : Z) (p : nat) :
  (Z.to_nat i < length a)%nat -> (Z.to_nat j < length a)%nat ->
  swap a i j !! p = a !! exchange (Z.to_nat i) (Z.to_nat j) p.
Proof.
  intros Hi Hj. unfold swap, Js.set, exchange.
  destruct (Nat.eqb_spec p (Z.to_nat i)) as [->|Hpi].
  - destruct (decide (Z.to_nat i = Z.to_nat j)) as [E|Hne].
    + rewrite <- E. rewrite list_lookup_insert_eq by (rewrite length_insert; exact Hi).
      symmetry. apply get_lookup, Hi.
    + rewrite list_lookup_insert_ne by congruence.
      rewrite list_lookup_insert_eq by exact Hi.
      symmetry. apply get_lookup, Hj.
  - destruct (Nat.eqb_spec p (Z.to_nat j)) as [->|Hpj].
    + rewrite list_lookup_insert_eq by (rewrite length_insert; exact Hj).
      symmetry. apply get_lookup, Hi.
    + rewrite !list_lookup_insert_ne by congruence. reflexivity.
Qed.

Lemma bitrev_loop_reorders (k : Z) (count : nat) :
  forall (i j : Z) (re im : list Q),
    Js.len re = (2 ^ k)%Z -> Js.len im = (2 ^ k)%Z ->
    (0 <= i)%Z -> (i + Z.of_nat count <= 2 ^ k)%Z -> (0 <= j < 2 ^ k)%Z ->
    let r := bitrev_loop count (2 ^ k) i j re im in
    exists s s' : nat -> nat,
      (forall p, (p < length re)%nat ->
         (s p < length re)%nat /\ (s' p < length re)%nat /\
         s (s' p) = p /\ s' (s p) = p) /\
      (forall p, fst r !! p = re !! s p /\ snd r !! p = im !! s p).
Proof.
  induction count as [|count IH]; intros i j re im Hre Him Hi Hcount Hj r;
    subst r; cbn [bitrev_loop].
  - exists (fun p => p), (fun p => p). split.
    + intros p Hp. repeat split; assumption.
    + intros p. split; reflexivity.
  - assert (Hbit : (0 <= Z.shiftr (2 ^ k) 1 < 2 ^ k)%Z).
    { rewrite Z.shiftr_div_pow2 by lia. change (2 ^ 1)%Z with 2%Z.
      pose proof (Z.div_pos (2 ^ k)%Z 2%Z). pose proof (Z.div_lt (2 ^ k)%Z 2%Z). lia. }
    pose proof (bitrev_carry_bound k (S (Z.to_nat (Z.log2 (2 ^ k)))) j
                  (Z.shiftr (2 ^ k) 1) Hj Hbit) as [Hj1 Hb1].
    destruct (bitrev_carry _ _ _) as [j1 bit1]. cbn [fst snd] in Hj1, Hb1.
    pose proof (lxor_bound k j1 bit1 Hj1 Hb1) as Hj2.
    set (j2 := Z.lxor j1 bit1) in *. clearbody j2.
    assert (Hlen : length im = length re).
    { unfold Js.len in Hre, Him. lia. }
    destruct (Z.ltb_spec i j2) as [Hlt|Hge].
    + assert (Hin : (Z.to_nat i < length re)%nat /\ (Z.to_nat j2 < length re)%nat).
      { unfold Js.len in Hre. lia. }
      destruct Hin as [Hin Hjn].
      destruct (IH (i + 1)%Z j2 (swap re i j2) (swap im i j2)) as (s & s' & Hbij & Hlook).
      * unfold Js.len. rewrite length_swap. exact Hre.
      * unfold Js.len. rewrite length_swap. exact Him.
      * lia.
      * lia.
      * exact Hj2.
      * rewrite length_swap in Hbij.
        exists (fun p => exchange (Z.to_nat i) (Z.to_nat j2) (s p)),
               (fun p => s' (exchange (Z.to_nat i) (Z.to_nat j2) p)).
        split.
        -- intros p Hp. destruct (Hbij p Hp) as (B1 & B2 & B3 & B4).
           pose proof (exchange_bound _ _ _ p Hin Hjn Hp) as Hx.
           destruct (Hbij _ Hx) as (C1 & C2 & C3 & C4).
           split; [apply exchange_bound; assumption|].
           split; [exact C2|].
           split; [rewrite C3; apply exchange_involutive|].
           rewrite exchange_involutive. exact B4.
        -- intros p. destruct (Hlook p) as [L1 L2].
           rewrite L1, L2.
           rewrite (swap_lookup re i j2 (s p) Hin Hjn).
           rewrite (swap_lookup im i j2 (s p)) by (rewrite Hlen; assumption).
           split; reflexivity.
    + apply (IH (i + 1)%Z j2 re im); try assumption; lia.
Qed.

(** X30.  For arrays of a length that is a power of two, the reordering
    step of the transform moves the entries of both arrays by one and the
    same bijection of the positions: no sample is lost or duplicated, and
    every real part keeps its imaginary part. *)
Theorem bit_reversal_reorders (k : Z) (re im : list Q) :
  (0 <= k)%Z -> Js.len re = (2 ^ k)%Z -> Js.len im = (2 ^ k)%Z ->
  let n := Js.len re in
  let r := bitrev_loop (Z.to_nat (n - 1)) n 1 0 re im in
  exists s s' : nat -> nat,
    (forall p, (p < length re)%nat ->
       (s p < length re)%nat /\ (s' p < length re)%nat /\
       s (s' p) = p /\ s' (s p) = p) /\
    (forall p, fst r !! p = re !! s p /\ snd r !! p = im !! s p).
Proof.
  intros Hk Hre Him n r. subst r n. rewrite Hre.
  assert (Hpow : (0 < 2 ^ k)%Z) by (apply Z.pow_pos_nonneg; lia).
  apply bitrev_loop_reorders; try assumption; lia.
Qed.

Lemma bit_reversal_reorders_witness :
  Js.len [10; 11; 12; 13] = (2 ^ 2)%Z /\
  fst (bitrev_loop 3 4 1 0 [10; 11; 12; 13] [0; 1; 2; 3]) = [10; 12; 11; 13] /\
  exists s s' : nat -> nat,
    (forall p, (p < 4)%nat ->
       (s p < 4)%nat /\ (s' p < 4)%nat /\ s (s' p) = p /\ s' (s p) = p) /\
    (forall p,
       fst (bitrev_loop 3 4 1 0 [10; 11; 12; 13] [0; 1; 2; 3]) !! p
         = [10; 11; 12; 13] !! s p /\
       snd (bitrev_loop 3 4 1 0 [10; 11; 12; 13] [0; 1; 2; 3]) !! p
         = [0; 1; 2; 3] !! s p).
Proof.
  split; [reflexivity|]. split; [reflexivity|].
  apply (bit_reversal_reorders 2 [10; 11; 12; 13] [0; 1; 2; 3]);
    [lia|reflexivity|reflexivity].
Defined.
